(** * Fault-tolerance primitives of the self-healing microservices demo

    A shallow embedding of [src/patterns/CircuitBreaker.js],
    [src/patterns/Bulkhead.js] and [src/patterns/AutoRecovery.js].

    JavaScript numbers are modelled as exact integers ([Z]) where the code
    only counts or reads the millisecond clock, and as exact rationals ([Q])
    where it multiplies by a fraction (moving averages, back-off delays).
    [Date.now()] and [new Date()] read an oracle clock, one reading per call;
    [Math.random()] reads an oracle of rationals.  The wrapped operation is
    opaque: a script gives the outcome of each of its invocations, and the
    run time counts the invocations.  Calls to [logger] have no effect on the
    objects and are left out; [emit] appends to a log of events. *)

From Stdlib Require Import ZArith QArith Qround Qpower Lia Bool.
From stdpp Require Import base list strings pretty gmap.

Local Open Scope Z_scope.

(** ** Errors

    The code raises plain [Error] objects told apart by their message; the
    constructors below are the messages the three patterns build, and
    [OpError] is whatever the wrapped operation raised. *)

Inductive Error : Type :=
  | CircuitOpenError (name : string)
  | CallTimeoutError (name : string) (ms : Z)
  | QueueFullError (name : string) (size : Z)
  | QueueTimeoutError (name : string) (task : string) (ms : Z)
  | ExecutionTimeoutError (name : string) (task : string) (ms : Z)
  | QueueClearedError (name : string)
  | ManualRecoveryError
  | OpError (msg : string).

Definition message (e : Error) : string :=
  match e with
  | CircuitOpenError n =>
      "Circuit breaker " +:+ n +:+ " is OPEN. Fast failing request."
  | CallTimeoutError n ms =>
      "Circuit breaker " +:+ n +:+ ": Request timeout after " +:+ pretty ms +:+ "ms"
  | QueueFullError n size =>
      "Bulkhead " +:+ n +:+ ": Queue is full (" +:+ pretty size +:+ ")"
  | QueueTimeoutError n t ms =>
      "Bulkhead " +:+ n +:+ ": Task " +:+ t +:+ " queue timeout after "
        +:+ pretty ms +:+ "ms"
  | ExecutionTimeoutError n t ms =>
      "Bulkhead " +:+ n +:+ ": Task " +:+ t +:+ " timeout after " +:+ pretty ms +:+ "ms"
  | QueueClearedError n => "Bulkhead " +:+ n +:+ ": Queue cleared"
  | ManualRecoveryError => "Manual recovery triggered"
  | OpError m => m
  end.

Definition Value : Type := string.

(** How one invocation of an asynchronous function settles. *)
Inductive Outcome : Type :=
  | Resolved (v : Value)
  | Rejected (e : Error).

(** A call raced against a timer: the timer may fire first. *)
Inductive Race : Type :=
  | Settles (o : Outcome)
  | TimerFires.

(** ** A small run-time monad: state, exceptions, clock and randomness *)

Module JS.

Inductive Completion (A : Type) : Type :=
  | Normal (a : A)
  | Abrupt (e : Error).
Arguments Normal {A} a.
Arguments Abrupt {A} e.

Record Runtime : Type := mkRuntime {
  clock : nat -> Z;        (* the n-th reading of the clock *)
  reads : nat;             (* readings taken so far *)
  random : nat -> Q;       (* the n-th value of Math.random() *)
  draws : nat;             (* values drawn so far *)
  slept : list Z;          (* setTimeout delays awaited, latest first *)
  calls : nat              (* invocations of the wrapped operation so far *)
}.

Record World (S Ev : Type) : Type := mkWorld {
  this : S;
  rt : Runtime;
  emitted : list Ev        (* events emitted, latest first *)
}.
Arguments mkWorld {S Ev} this rt emitted.
Arguments this {S Ev} w.
Arguments rt {S Ev} w.
Arguments emitted {S Ev} w.

Definition M (S Ev A : Type) : Type :=
  World S Ev -> Completion A * World S Ev.

Section Ops.
Context {S Ev : Type}.

Definition ret {A} (a : A) : M S Ev A := fun w => (Normal a, w).

Definition throw {A} (e : Error) : M S Ev A := fun w => (Abrupt e, w).

Definition bind {A B} (m : M S Ev A) (k : A -> M S Ev B) : M S Ev B :=
  fun w =>
    match m w with
    | (Normal a, w') => k a w'
    | (Abrupt e, w') => (Abrupt e, w')
    end.

(** [try { body } catch (error) { handler error }] *)
Definition try_catch {A} (body : M S Ev A) (handler : Error -> M S Ev A)
  : M S Ev A :=
  fun w =>
    match body w with
    | (Normal a, w') => (Normal a, w')
    | (Abrupt e, w') => handler e w'
    end.

(** [try { body } finally { cleanup }]: the cleanup runs on both exits
    and the completion of the body is kept unless the cleanup throws. *)
Definition try_finally {A} (body : M S Ev A) (cleanup : M S Ev unit)
  : M S Ev A :=
  fun w =>
    match body w with
    | (c, w') =>
        match cleanup w' with
        | (Normal _, w'') => (c, w'')
        | (Abrupt e, w'') => (Abrupt e, w'')
        end
    end.

Definition self : M S Ev S := fun w => (Normal (this w), w).

Definition modify (f : S -> S) : M S Ev unit :=
  fun w => (Normal tt, mkWorld (f (this w)) (rt w) (emitted w)).

Definition emit (ev : Ev) : M S Ev unit :=
  fun w => (Normal tt, mkWorld (this w) (rt w) (ev :: emitted w)).

(** [Date.now()], and the reading behind [new Date()]. *)
Definition Date_now : M S Ev Z :=
  fun w =>
    let r := rt w in
    (Normal (clock r (reads r)),
     mkWorld (this w)
       (mkRuntime (clock r) (Datatypes.S (reads r)) (random r) (draws r) (slept r)
          (calls r))
       (emitted w)).

(** [Math.random()] *)
Definition Math_random : M S Ev Q :=
  fun w =>
    let r := rt w in
    (Normal (random r (draws r)),
     mkWorld (this w)
       (mkRuntime (clock r) (reads r) (random r) (Datatypes.S (draws r)) (slept r)
          (calls r))
       (emitted w)).

(** [await new Promise(resolve => setTimeout(resolve, ms))] *)
Definition sleep (ms : Z) : M S Ev unit :=
  fun w =>
    let r := rt w in
    (Normal tt,
     mkWorld (this w)
       (mkRuntime (clock r) (reads r) (random r) (draws r) (ms :: slept r)
          (calls r))
       (emitted w)).

(** Invoking the wrapped operation: the invocation is counted and the
    script [fn] tells how this invocation turns out. *)
Definition invoke {R} (fn : nat -> R) : M S Ev R :=
  fun w =>
    let r := rt w in
    (Normal (fn (calls r)),
     mkWorld (this w)
       (mkRuntime (clock r) (reads r) (random r) (draws r) (slept r)
          (Datatypes.S (calls r)))
       (emitted w)).

(** [await p] for a promise that settled as [o]. *)
Definition await (o : Outcome) : M S Ev Value :=
  match o with
  | Resolved v => ret v
  | Rejected e => throw e
  end.
End Ops.

(** The [i]-th reading of the clock counted from world [w]. *)
Definition time_at {S Ev} (w : World S Ev) (i : nat) : Z :=
  clock (rt w) (i + reads (rt w))%nat.

(** The [i]-th value of [Math.random()] counted from world [w]. *)
Definition random_at {S Ev} (w : World S Ev) (i : nat) : Q :=
  random (rt w) (i + draws (rt w))%nat.

(** The latest reading of the clock taken before world [w]. *)
Definition last_reading {S Ev} (w : World S Ev) : Z :=
  clock (rt w) (pred (reads (rt w))).


(** Running [m] from [w] ends in a completion and a world that satisfy
    [Q]. *)
Definition wp {S Ev A} (m : M S Ev A)
    (Q : Completion A -> World S Ev -> Prop) (w : World S Ev) : Prop :=
  Q (fst (m w)) (snd (m w)).

End JS.

Declare Scope js_scope.
Delimit Scope js_scope with js.
Notation "x <- m ;; k" := (JS.bind m (fun x => k))
  (at level 100, m at level 99, right associativity) : js_scope.
Notation "m ;;; k" := (JS.bind m (fun _ => k))
  (at level 100, right associativity) : js_scope.

Local Open Scope js_scope.

(** A JavaScript number that may not be finite: the result of a
    division. *)
Inductive Number : Type :=
  | Finite (q : Q)
  | PosInfinity
  | NegInfinity
  | NaN.

(** [a / b] on finite numbers. *)
Definition Number_div (a b : Q) : Number :=
  if Qeq_bool b 0 then
    if Qeq_bool a 0 then NaN
    else if Qle_bool 0 a then PosInfinity else NegInfinity
  else Finite (a / b)%Q.

(** [x * k] for a finite [k]. *)
Definition Number_mul (x : Number) (k : Q) : Number :=
  match x with
  | Finite q => Finite (q * k)%Q
  | NaN => NaN
  | PosInfinity =>
      if Qeq_bool k 0 then NaN
      else if Qle_bool 0 k then PosInfinity else NegInfinity
  | NegInfinity =>
      if Qeq_bool k 0 then NaN
      else if Qle_bool 0 k then NegInfinity else PosInfinity
  end.

(** ** CircuitBreaker.js *)

Module CircuitBreaker.
Import JS.

Inductive States : Type := CLOSED | OPEN | HALF_OPEN.

Definition States_eqb (a b : States) : bool :=
  match a, b with
  | CLOSED, CLOSED | OPEN, OPEN | HALF_OPEN, HALF_OPEN => true
  | _, _ => false
  end.

Record HistoryEntry : Type := mkHistoryEntry {
  h_state : States;
  h_timestamp : Z;
  h_failureCount : Z
}.

Record Metrics : Type := mkMetrics {
  totalRequests : Z;
  totalFailures : Z;
  totalSuccesses : Z;
  totalTimeouts : Z;
  totalCircuitBreakerOpens : Z;
  averageResponseTime : Q;
  lastFailureTime : option Z;
  lastSuccessTime : option Z;
  stateHistory : list HistoryEntry
}.

Record CircuitBreaker : Type := mkCircuitBreaker {
  name : string;
  failureThreshold : Z;
  resetTimeout : Z;
  timeout : Z;
  monitoringPeriod : Z;
  state : States;
  failureCount : Z;
  successCount : Z;
  nextAttempt : Z;
  metrics : Metrics
}.

Inductive Event : Type :=
  | EvSuccess (responseTime : Z) (st : States)
  | EvFailure (msg : string) (failures : Z) (st : States)
  | EvCircuitOpened (failures : Z) (next : Z)
  | EvStateChanged (oldState newState : States) (timestamp : Z)
  | EvReset (timestamp : Z).

Abbreviation Prog := (M CircuitBreaker Event).

(** Field updates. *)
Definition set_state (s : States) (cb : CircuitBreaker) : CircuitBreaker :=
  mkCircuitBreaker (name cb) (failureThreshold cb) (resetTimeout cb) (timeout cb)
    (monitoringPeriod cb) s (failureCount cb) (successCount cb) (nextAttempt cb)
    (metrics cb).
Definition set_failureCount (n : Z) (cb : CircuitBreaker) : CircuitBreaker :=
  mkCircuitBreaker (name cb) (failureThreshold cb) (resetTimeout cb) (timeout cb)
    (monitoringPeriod cb) (state cb) n (successCount cb) (nextAttempt cb)
    (metrics cb).
Definition set_successCount (n : Z) (cb : CircuitBreaker) : CircuitBreaker :=
  mkCircuitBreaker (name cb) (failureThreshold cb) (resetTimeout cb) (timeout cb)
    (monitoringPeriod cb) (state cb) (failureCount cb) n (nextAttempt cb)
    (metrics cb).
Definition set_nextAttempt (t : Z) (cb : CircuitBreaker) : CircuitBreaker :=
  mkCircuitBreaker (name cb) (failureThreshold cb) (resetTimeout cb) (timeout cb)
    (monitoringPeriod cb) (state cb) (failureCount cb) (successCount cb) t
    (metrics cb).
Definition set_metrics (f : Metrics -> Metrics) (cb : CircuitBreaker)
  : CircuitBreaker :=
  mkCircuitBreaker (name cb) (failureThreshold cb) (resetTimeout cb) (timeout cb)
    (monitoringPeriod cb) (state cb) (failureCount cb) (successCount cb)
    (nextAttempt cb) (f (metrics cb)).

Definition incr_totalRequests (m : Metrics) : Metrics :=
  mkMetrics (totalRequests m + 1) (totalFailures m) (totalSuccesses m)
    (totalTimeouts m) (totalCircuitBreakerOpens m) (averageResponseTime m)
    (lastFailureTime m) (lastSuccessTime m) (stateHistory m).
Definition incr_totalFailures (m : Metrics) : Metrics :=
  mkMetrics (totalRequests m) (totalFailures m + 1) (totalSuccesses m)
    (totalTimeouts m) (totalCircuitBreakerOpens m) (averageResponseTime m)
    (lastFailureTime m) (lastSuccessTime m) (stateHistory m).
Definition incr_totalSuccesses (m : Metrics) : Metrics :=
  mkMetrics (totalRequests m) (totalFailures m) (totalSuccesses m + 1)
    (totalTimeouts m) (totalCircuitBreakerOpens m) (averageResponseTime m)
    (lastFailureTime m) (lastSuccessTime m) (stateHistory m).
Definition incr_totalTimeouts (m : Metrics) : Metrics :=
  mkMetrics (totalRequests m) (totalFailures m) (totalSuccesses m)
    (totalTimeouts m + 1) (totalCircuitBreakerOpens m) (averageResponseTime m)
    (lastFailureTime m) (lastSuccessTime m) (stateHistory m).
Definition incr_totalCircuitBreakerOpens (m : Metrics) : Metrics :=
  mkMetrics (totalRequests m) (totalFailures m) (totalSuccesses m)
    (totalTimeouts m) (totalCircuitBreakerOpens m + 1) (averageResponseTime m)
    (lastFailureTime m) (lastSuccessTime m) (stateHistory m).
Definition set_averageResponseTime (a : Q) (m : Metrics) : Metrics :=
  mkMetrics (totalRequests m) (totalFailures m) (totalSuccesses m)
    (totalTimeouts m) (totalCircuitBreakerOpens m) a
    (lastFailureTime m) (lastSuccessTime m) (stateHistory m).
Definition set_lastFailureTime (t : Z) (m : Metrics) : Metrics :=
  mkMetrics (totalRequests m) (totalFailures m) (totalSuccesses m)
    (totalTimeouts m) (totalCircuitBreakerOpens m) (averageResponseTime m)
    (Some t) (lastSuccessTime m) (stateHistory m).
Definition set_lastSuccessTime (t : Z) (m : Metrics) : Metrics :=
  mkMetrics (totalRequests m) (totalFailures m) (totalSuccesses m)
    (totalTimeouts m) (totalCircuitBreakerOpens m) (averageResponseTime m)
    (lastFailureTime m) (Some t) (stateHistory m).
Definition set_stateHistory (h : list HistoryEntry) (m : Metrics) : Metrics :=
  mkMetrics (totalRequests m) (totalFailures m) (totalSuccesses m)
    (totalTimeouts m) (totalCircuitBreakerOpens m) (averageResponseTime m)
    (lastFailureTime m) (lastSuccessTime m) h.

(** [array.slice(-n)]: the last [n] elements. *)
Definition slice_last {A} (n : nat) (l : list A) : list A :=
  drop (length l - n) l.

(** The constructor: [options.x || default] keeps any truthy number, so
    only [0] (and a missing option, modelled as [0]) takes the default. *)
Definition or_default (x d : Z) : Z := if x =? 0 then d else x.

Definition constructor (opt_name : string)
    (opt_failureThreshold opt_resetTimeout opt_timeout opt_monitoringPeriod now : Z)
  : CircuitBreaker :=
  mkCircuitBreaker
    (if String.eqb opt_name "" then "CircuitBreaker" else opt_name)
    (or_default opt_failureThreshold 5)
    (or_default opt_resetTimeout 60000)
    (or_default opt_timeout 10000)
    (or_default opt_monitoringPeriod 60000)
    CLOSED 0 0 now
    (mkMetrics 0 0 0 0 0 0%Q None None []).

(** [setState(newState)] *)
Definition setState (newState : States) : Prog unit :=
  cb <- self ;;
  let oldState := state cb in
  modify (set_state newState) ;;;
  t <- Date_now ;;
  modify (set_metrics (fun m =>
    set_stateHistory
      (stateHistory m ++ [mkHistoryEntry newState t (failureCount cb)]) m)) ;;;
  cb <- self ;;
  (if (100 <? length (stateHistory (metrics cb)))%nat
   then modify (set_metrics (fun m =>
          set_stateHistory (slice_last 100 (stateHistory m)) m))
   else ret tt) ;;;
  if negb (States_eqb oldState newState)
  then t' <- Date_now ;; emit (EvStateChanged oldState newState t')
  else ret tt.

(** [updateAverageResponseTime(responseTime)] *)
Definition updateAverageResponseTime (responseTime : Z) : Prog unit :=
  modify (set_metrics (fun m =>
    set_averageResponseTime
      (if Qeq_bool (averageResponseTime m) 0
       then inject_Z responseTime
       else (averageResponseTime m * (9 # 10) + inject_Z responseTime * (1 # 10))%Q) m)).

(** [openCircuit()] *)
Definition openCircuit : Prog unit :=
  setState OPEN ;;;
  t <- Date_now ;;
  cb <- self ;;
  modify (set_nextAttempt (t + resetTimeout cb)) ;;;
  modify (set_metrics incr_totalCircuitBreakerOpens) ;;;
  cb <- self ;;
  emit (EvCircuitOpened (failureCount cb) (nextAttempt cb)).

(** [onSuccess(responseTime)] *)
Definition onSuccess (responseTime : Z) : Prog unit :=
  modify (set_failureCount 0) ;;;
  modify (fun cb => set_successCount (successCount cb + 1) cb) ;;;
  modify (set_metrics incr_totalSuccesses) ;;;
  t <- Date_now ;;
  modify (set_metrics (set_lastSuccessTime t)) ;;;
  updateAverageResponseTime responseTime ;;;
  cb <- self ;;
  (if States_eqb (state cb) HALF_OPEN then setState CLOSED else ret tt) ;;;
  cb <- self ;;
  emit (EvSuccess responseTime (state cb)).

(** [onFailure(error, responseTime)] *)
Definition onFailure (error : Error) (responseTime : Z) : Prog unit :=
  modify (fun cb => set_failureCount (failureCount cb + 1) cb) ;;;
  modify (set_metrics incr_totalFailures) ;;;
  t <- Date_now ;;
  modify (set_metrics (set_lastFailureTime t)) ;;;
  updateAverageResponseTime responseTime ;;;
  cb <- self ;;
  (if failureThreshold cb <=? failureCount cb then openCircuit else ret tt) ;;;
  cb <- self ;;
  emit (EvFailure (message error) (failureCount cb) (state cb)).

(** [executeWithTimeout(fn, args)]: the operation is invoked at once and
    raced against a timer of [timeout] ms. *)
Definition executeWithTimeout (fn : nat -> Race) : Prog Value :=
  r <- invoke fn ;;
  match r with
  | Settles o => await o
  | TimerFires =>
      modify (set_metrics incr_totalTimeouts) ;;;
      cb <- self ;;
      throw (CallTimeoutError (name cb) (timeout cb))
  end.

(** [execute(fn, ...args)] *)
Definition execute (fn : nat -> Race) : Prog Value :=
  startTime <- Date_now ;;
  modify (set_metrics incr_totalRequests) ;;;
  try_catch
    (cb <- self ;;
     (if States_eqb (state cb) OPEN
      then
        now <- Date_now ;;
        if now <? nextAttempt cb
        then throw (CircuitOpenError (name cb))
        else setState HALF_OPEN
      else ret tt) ;;;
     result <- executeWithTimeout fn ;;
     finish <- Date_now ;;
     onSuccess (finish - startTime) ;;;
     ret result)
    (fun error =>
       finish <- Date_now ;;
       onFailure error (finish - startTime) ;;;
       throw error).

(** [reset()] *)
Definition reset : Prog unit :=
  modify (set_failureCount 0) ;;;
  modify (set_successCount 0) ;;;
  setState CLOSED ;;;
  t <- Date_now ;;
  emit (EvReset t).

Abbreviation CBWorld := (World CircuitBreaker Event).

(** The worlds a breaker gets into when it is built by the constructor
    and then driven by calls of [execute] and [reset], each call running
    to its end before the next one starts. *)
Inductive reachable : CBWorld -> Prop :=
  | reachable_new (n : string) (ft rto to mp now : Z) (r : Runtime) :
      reachable (mkWorld (constructor n ft rto to mp now) r [])
  | reachable_execute (w : CBWorld) (fn : nat -> Race) :
      reachable w -> reachable (snd (execute fn w))
  | reachable_reset (w : CBWorld) :
      reachable w -> reachable (snd (reset w)).

(** The error that the [try] block of [execute] raises from world [w],
    if it raises one: the fail-fast error, the error of the operation, or
    the time-out of the call. *)
Definition raised_in_try (fn : nat -> Race) (w : CBWorld) : option Error :=
  if States_eqb (state (this w)) OPEN && (time_at w 1 <? nextAttempt (this w))
  then Some (CircuitOpenError (name (this w)))
  else
    match fn (calls (rt w)) with
    | Settles (Resolved _) => None
    | Settles (Rejected e) => Some e
    | TimerFires => Some (CallTimeoutError (name (this w)) (timeout (this w)))
    end.



End CircuitBreaker.

(** ** Bulkhead.js *)

Module Bulkhead.
Import JS.

Inductive TaskStatus : Type :=
  PENDING | RUNNING | COMPLETED | FAILED | TIMEOUT | REJECTED.

(** A task object.  [fn] names the wrapped operation; [queueTimeoutId] is
    the handle of the queue timer once [queueTask] has set it. *)
Record Task : Type := mkTask {
  id : string;
  fn : nat;
  status : TaskStatus;
  createdAt : Z;
  startedAt : option Z;
  completedAt : option Z;
  executionTime : Z;
  queueTime : Z;
  queueTimeoutId : option nat
}.

Record Metrics : Type := mkMetrics {
  totalSubmitted : Z;
  totalCompleted : Z;
  totalFailed : Z;
  totalTimeout : Z;
  totalRejected : Z;
  averageExecutionTime : Q;
  averageQueueTime : Q;
  peakConcurrency : Z;
  peakQueueSize : Z;
  currentQueueSize : Z;
  m_currentConcurrency : Z      (* metrics.currentConcurrency *)
}.

(** The bulkhead object.  Task objects live in the heap of the store and
    are referred to by their address, as the queue, the map of running
    tasks and the timer callbacks of the code all share them. *)
Record Bulkhead : Type := mkBulkhead {
  name : string;
  maxConcurrent : Z;
  maxQueueSize : Z;
  timeout : Z;
  queueTimeout : Z;
  runningTasks : gmap string nat;   (* task id -> task object *)
  taskQueue : list nat;
  currentConcurrency : Z;
  metrics : Metrics
}.

(** What a pending [setTimeout] will do when it fires. *)
Inductive TimerKind : Type :=
  | ExecutionTimer      (* set by executeWithTimeout *)
  | QueueTimer.         (* set by queueTask *)

Record Timer : Type := mkTimer {
  kind : TimerKind;
  task : nat;           (* the task object the callback closes over *)
  ms : Z                (* the delay given to setTimeout *)
}.

(** The bulkhead with the part of the JavaScript run time it lives in:
    the task objects, the table of pending timers, the executions that
    are awaiting their operation ([inflight]: task -> its execution
    timer), and what each caller of [execute] has been answered. *)
Record Store : Type := mkStore {
  bulkhead : Bulkhead;
  heap : gmap nat Task;
  timers : gmap nat Timer;
  nextTimer : nat;
  inflight : gmap nat nat;
  delivered : list (nat * Completion Value)
}.

Inductive Event : Type :=
  | EvTaskQueued (taskId : string) (queueSize : Z)
  | EvTaskCompleted (taskId : string) (executionTime queueTime : Z)
  | EvTaskFailed (taskId : string) (msg : string) (executionTime queueTime : Z)
  | EvQueueCleared (clearedTasks : Z).

Abbreviation Prog := (M Store Event).

(** Field updates. *)
Definition set_status (x : TaskStatus) (r : Task) : Task :=
      mkTask (id r) (fn r) x (createdAt r) (startedAt r) (completedAt r)
    (executionTime r) (queueTime r) (queueTimeoutId r).
Definition set_createdAt (x : Z) (r : Task) : Task :=
      mkTask (id r) (fn r) (status r) x (startedAt r) (completedAt r) (executionTime
    r) (queueTime r) (queueTimeoutId r).
Definition set_startedAt (x : option Z) (r : Task) : Task :=
      mkTask (id r) (fn r) (status r) (createdAt r) x (completedAt r) (executionTime
    r) (queueTime r) (queueTimeoutId r).
Definition set_completedAt (x : option Z) (r : Task) : Task :=
      mkTask (id r) (fn r) (status r) (createdAt r) (startedAt r) x (executionTime
    r) (queueTime r) (queueTimeoutId r).
Definition set_executionTime (x : Z) (r : Task) : Task :=
      mkTask (id r) (fn r) (status r) (createdAt r) (startedAt r) (completedAt r) x
    (queueTime r) (queueTimeoutId r).
Definition set_queueTime (x : Z) (r : Task) : Task :=
      mkTask (id r) (fn r) (status r) (createdAt r) (startedAt r) (completedAt r)
    (executionTime r) x (queueTimeoutId r).
Definition set_queueTimeoutId (x : option nat) (r : Task) : Task :=
      mkTask (id r) (fn r) (status r) (createdAt r) (startedAt r) (completedAt r)
    (executionTime r) (queueTime r) x.
Definition set_totalSubmitted (x : Z) (r : Metrics) : Metrics :=
      mkMetrics x (totalCompleted r) (totalFailed r) (totalTimeout r) (totalRejected
    r) (averageExecutionTime r) (averageQueueTime r) (peakConcurrency r)
    (peakQueueSize r) (currentQueueSize r) (m_currentConcurrency r).
Definition set_totalCompleted (x : Z) (r : Metrics) : Metrics :=
      mkMetrics (totalSubmitted r) x (totalFailed r) (totalTimeout r) (totalRejected
    r) (averageExecutionTime r) (averageQueueTime r) (peakConcurrency r)
    (peakQueueSize r) (currentQueueSize r) (m_currentConcurrency r).
Definition set_totalFailed (x : Z) (r : Metrics) : Metrics :=
      mkMetrics (totalSubmitted r) (totalCompleted r) x (totalTimeout r)
    (totalRejected r) (averageExecutionTime r) (averageQueueTime r) (peakConcurrency
    r) (peakQueueSize r) (currentQueueSize r) (m_currentConcurrency r).
Definition set_totalTimeout (x : Z) (r : Metrics) : Metrics :=
      mkMetrics (totalSubmitted r) (totalCompleted r) (totalFailed r) x
    (totalRejected r) (averageExecutionTime r) (averageQueueTime r) (peakConcurrency
    r) (peakQueueSize r) (currentQueueSize r) (m_currentConcurrency r).
Definition set_totalRejected (x : Z) (r : Metrics) : Metrics :=
      mkMetrics (totalSubmitted r) (totalCompleted r) (totalFailed r) (totalTimeout
    r) x (averageExecutionTime r) (averageQueueTime r) (peakConcurrency r)
    (peakQueueSize r) (currentQueueSize r) (m_currentConcurrency r).
Definition set_averageExecutionTime (x : Q) (r : Metrics) : Metrics :=
      mkMetrics (totalSubmitted r) (totalCompleted r) (totalFailed r) (totalTimeout
    r) (totalRejected r) x (averageQueueTime r) (peakConcurrency r) (peakQueueSize
    r) (currentQueueSize r) (m_currentConcurrency r).
Definition set_averageQueueTime (x : Q) (r : Metrics) : Metrics :=
      mkMetrics (totalSubmitted r) (totalCompleted r) (totalFailed r) (totalTimeout
    r) (totalRejected r) (averageExecutionTime r) x (peakConcurrency r)
    (peakQueueSize r) (currentQueueSize r) (m_currentConcurrency r).
Definition set_peakConcurrency (x : Z) (r : Metrics) : Metrics :=
      mkMetrics (totalSubmitted r) (totalCompleted r) (totalFailed r) (totalTimeout
    r) (totalRejected r) (averageExecutionTime r) (averageQueueTime r) x
    (peakQueueSize r) (currentQueueSize r) (m_currentConcurrency r).
Definition set_peakQueueSize (x : Z) (r : Metrics) : Metrics :=
      mkMetrics (totalSubmitted r) (totalCompleted r) (totalFailed r) (totalTimeout
    r) (totalRejected r) (averageExecutionTime r) (averageQueueTime r)
    (peakConcurrency r) x (currentQueueSize r) (m_currentConcurrency r).
Definition set_currentQueueSize (x : Z) (r : Metrics) : Metrics :=
      mkMetrics (totalSubmitted r) (totalCompleted r) (totalFailed r) (totalTimeout
    r) (totalRejected r) (averageExecutionTime r) (averageQueueTime r)
    (peakConcurrency r) (peakQueueSize r) x (m_currentConcurrency r).
Definition set_m_currentConcurrency (x : Z) (r : Metrics) : Metrics :=
      mkMetrics (totalSubmitted r) (totalCompleted r) (totalFailed r) (totalTimeout
    r) (totalRejected r) (averageExecutionTime r) (averageQueueTime r)
    (peakConcurrency r) (peakQueueSize r) (currentQueueSize r) x.
Definition set_runningTasks (x : gmap string nat) (r : Bulkhead) : Bulkhead :=
      mkBulkhead (name r) (maxConcurrent r) (maxQueueSize r) (timeout r)
    (queueTimeout r) x (taskQueue r) (currentConcurrency r) (metrics r).
Definition set_taskQueue (x : list nat) (r : Bulkhead) : Bulkhead :=
      mkBulkhead (name r) (maxConcurrent r) (maxQueueSize r) (timeout r)
    (queueTimeout r) (runningTasks r) x (currentConcurrency r) (metrics r).
Definition set_currentConcurrency (x : Z) (r : Bulkhead) : Bulkhead :=
      mkBulkhead (name r) (maxConcurrent r) (maxQueueSize r) (timeout r)
    (queueTimeout r) (runningTasks r) (taskQueue r) x (metrics r).
Definition set_metrics (x : Metrics) (r : Bulkhead) : Bulkhead :=
      mkBulkhead (name r) (maxConcurrent r) (maxQueueSize r) (timeout r)
    (queueTimeout r) (runningTasks r) (taskQueue r) (currentConcurrency r) x.
Definition set_bulkhead (x : Bulkhead) (r : Store) : Store :=
  mkStore x (heap r) (timers r) (nextTimer r) (inflight r) (delivered r).
Definition set_heap (x : gmap nat Task) (r : Store) : Store :=
  mkStore (bulkhead r) x (timers r) (nextTimer r) (inflight r) (delivered r).
Definition set_timers (x : gmap nat Timer) (r : Store) : Store :=
  mkStore (bulkhead r) (heap r) x (nextTimer r) (inflight r) (delivered r).
Definition set_nextTimer (x : nat) (r : Store) : Store :=
  mkStore (bulkhead r) (heap r) (timers r) x (inflight r) (delivered r).
Definition set_inflight (x : gmap nat nat) (r : Store) : Store :=
  mkStore (bulkhead r) (heap r) (timers r) (nextTimer r) x (delivered r).
Definition set_delivered (x : list (nat * Completion Value)) (r : Store) : Store :=
  mkStore (bulkhead r) (heap r) (timers r) (nextTimer r) (inflight r) x.

Definition upd_bulkhead (f : Bulkhead -> Bulkhead) : Prog unit :=
  modify (fun s => set_bulkhead (f (bulkhead s)) s).
Definition upd_metrics (f : Metrics -> Metrics) : Prog unit :=
  upd_bulkhead (fun b => set_metrics (f (metrics b)) b).
(** An assignment to a field of the task object at address [l]. *)
Definition upd_task (l : nat) (f : Task -> Task) : Prog unit :=
  modify (fun s => set_heap (alter f l (heap s)) s).

Definition this_bulkhead : Prog Bulkhead := s <- self ;; ret (bulkhead s).

Definition blank : Task := mkTask "" 0 PENDING 0 None None 0 0 None.

(** Reading the task object at address [l]. *)
Definition read_task (l : nat) : Prog Task :=
  s <- self ;; ret (default blank (heap s !! l)).

(** [setTimeout(callback, ms)]: a fresh handle. *)
Definition setTimeout (k : TimerKind) (l : nat) (delay : Z) : Prog nat :=
  s <- self ;;
  let h := nextTimer s in
  modify (fun s => set_nextTimer (S h) (set_timers (<[h := mkTimer k l delay]> (timers s)) s)) ;;;
  ret h.

(** [clearTimeout(handle)] *)
Definition clearTimeout (h : nat) : Prog unit :=
  modify (fun s => set_timers (delete h (timers s)) s).

(** The caller of [execute] for task [l] gets its answer. *)
Definition deliver (l : nat) (c : Completion Value) : Prog unit :=
  modify (fun s => set_delivered ((l, c) :: delivered s) s).

(** [String.prototype.includes] *)
Fixpoint includes (needle hay : string) : bool :=
  String.prefix needle hay ||
  match hay with
  | EmptyString => false
  | String _ hay' => includes needle hay'
  end.

Definition truthy (t : option Z) : bool :=
  match t with
  | Some v => negb (v =? 0)
  | None => false
  end.

Definition or_default (x d : Z) : Z := if x =? 0 then d else x.

Definition constructor (opt_name : string)
    (opt_maxConcurrent opt_maxQueueSize opt_timeout opt_queueTimeout : Z)
  : Bulkhead :=
  mkBulkhead
    (if String.eqb opt_name "" then "Bulkhead" else opt_name)
    (or_default opt_maxConcurrent 10)
    (or_default opt_maxQueueSize 100)
    (or_default opt_timeout 30000)
    (or_default opt_queueTimeout 60000)
    ∅ [] 0
    (mkMetrics 0 0 0 0 0 0%Q 0%Q 0 0 0 0).

Definition new_store (b : Bulkhead) : Store := mkStore b ∅ ∅ 0 ∅ [].

(** [generateTaskId()]: the random suffix is an input. *)
Definition generateTaskId (suffix : string) : Prog string :=
  b <- this_bulkhead ;;
  t <- Date_now ;;
  _ <- Math_random ;;
  ret (name b +:+ "-" +:+ pretty t +:+ "-" +:+ suffix).

(** [createTask(fn, args)]: a new task object, at a fresh address. *)
Definition createTask (suffix : string) (f : nat) : Prog nat :=
  i <- generateTaskId suffix ;;
  t <- Date_now ;;
  s <- self ;;
  let l := fresh (dom (heap s)) in
  modify (fun s => set_heap (<[l := mkTask i f PENDING t None None 0 0 None]> (heap s)) s) ;;;
  ret l.

(** [updateAverageExecutionTime(executionTime)] *)
Definition updateAverageExecutionTime (t : Z) : Prog unit :=
  upd_metrics (fun m =>
    set_averageExecutionTime
      (if Qeq_bool (averageExecutionTime m) 0
       then inject_Z t
       else (averageExecutionTime m * (9 # 10) + inject_Z t * (1 # 10))%Q) m).

(** [updateAverageQueueTime(queueTime)] *)
Definition updateAverageQueueTime (t : Z) : Prog unit :=
  upd_metrics (fun m =>
    set_averageQueueTime
      (if Qeq_bool (averageQueueTime m) 0
       then inject_Z t
       else (averageQueueTime m * (9 # 10) + inject_Z t * (1 # 10))%Q) m).

(** [handleTaskSuccess(task, result)] *)
Definition handleTaskSuccess (l : nat) (result : Value) : Prog unit :=
  upd_task l (set_status COMPLETED) ;;;
  t <- Date_now ;;
  upd_task l (set_completedAt (Some t)) ;;;
  upd_task l (fun k => set_executionTime (t - default 0 (startedAt k)) k) ;;;
  upd_metrics (fun m => set_totalCompleted (totalCompleted m + 1) m) ;;;
  k <- read_task l ;;
  updateAverageExecutionTime (executionTime k) ;;;
  updateAverageQueueTime (queueTime k) ;;;
  emit (EvTaskCompleted (id k) (executionTime k) (queueTime k)).

(** [handleTaskFailure(task, error)] *)
Definition handleTaskFailure (l : nat) (error : Error) : Prog unit :=
  upd_task l (set_status FAILED) ;;;
  t <- Date_now ;;
  upd_task l (set_completedAt (Some t)) ;;;
  upd_task l (fun k =>
    set_executionTime
      (if truthy (startedAt k) then t - default 0 (startedAt k) else 0) k) ;;;
  (if includes "timeout" (message error)
   then upd_metrics (fun m => set_totalTimeout (totalTimeout m + 1) m)
   else upd_metrics (fun m => set_totalFailed (totalFailed m + 1) m)) ;;;
  k <- read_task l ;;
  (if truthy (startedAt k) then updateAverageExecutionTime (executionTime k)
   else ret tt) ;;;
  updateAverageQueueTime (queueTime k) ;;;
  emit (EvTaskFailed (id k) (message error) (executionTime k) (queueTime k)).

(** [executeWithTimeout(task)] up to its [await]: the timer is set and the
    operation is invoked. *)
Definition executeWithTimeout (l : nat) : Prog nat :=
  b <- this_bulkhead ;;
  h <- setTimeout ExecutionTimer l (timeout b) ;;
  k <- read_task l ;;
  _ <- invoke (fun _ : nat => fn k) ;;
  ret h.

(** [executeTask(task)] up to its [await]. *)
Definition executeTask (l : nat) : Prog unit :=
  upd_bulkhead (fun b => set_currentConcurrency (currentConcurrency b + 1) b) ;;;
  b <- this_bulkhead ;;
  upd_metrics (set_m_currentConcurrency (currentConcurrency b)) ;;;
  upd_metrics (fun m =>
    set_peakConcurrency (Z.max (peakConcurrency m) (currentConcurrency b)) m) ;;;
  upd_task l (set_status RUNNING) ;;;
  t <- Date_now ;;
  upd_task l (set_startedAt (Some t)) ;;;
  upd_task l (fun k => set_queueTime (t - createdAt k) k) ;;;
  k <- read_task l ;;
  upd_bulkhead (fun b => set_runningTasks (<[id k := l]> (runningTasks b)) b) ;;;
  h <- executeWithTimeout l ;;
  modify (fun s => set_inflight (<[l := h]> (inflight s)) s).

(** [processQueue()]: at most one task leaves the queue. *)
Definition processQueue : Prog unit :=
  b <- this_bulkhead ;;
  match taskQueue b with
  | [] => ret tt
  | l :: rest =>
      if maxConcurrent b <=? currentConcurrency b then ret tt
      else
        upd_bulkhead (set_taskQueue rest) ;;;
        upd_metrics (set_currentQueueSize (Z.of_nat (length rest))) ;;;
        k <- read_task l ;;
        match queueTimeoutId k with
        | Some h => clearTimeout h
        | None => ret tt
        end ;;;
        executeTask l
  end.

(** [executeTask(task)] from the point where [executeWithTimeout] has
    settled as [c]: the handlers, the [finally] block, and the answer to
    the caller of [execute], whose [catch] handles a failure once more. *)
Definition executeTask_resume (l : nat) (c : Completion Value) : Prog unit :=
  modify (fun s => set_inflight (delete l (inflight s)) s) ;;;
  match c with
  | Normal result => handleTaskSuccess l result
  | Abrupt error => handleTaskFailure l error
  end ;;;
  k <- read_task l ;;
  upd_bulkhead (fun b => set_runningTasks (delete (id k) (runningTasks b)) b) ;;;
  upd_bulkhead (fun b => set_currentConcurrency (currentConcurrency b - 1) b) ;;;
  b <- this_bulkhead ;;
  upd_metrics (set_m_currentConcurrency (currentConcurrency b)) ;;;
  processQueue ;;;
  match c with
  | Normal _ => ret tt
  | Abrupt error => handleTaskFailure l error
  end ;;;
  deliver l c.

(** [queueTask(task)] up to the returned promise. *)
Definition queueTask (l : nat) : Prog unit :=
  b <- this_bulkhead ;;
  if maxQueueSize b <=? Z.of_nat (length (taskQueue b)) then
    upd_task l (set_status REJECTED) ;;;
    upd_metrics (fun m => set_totalRejected (totalRejected m + 1) m) ;;;
    throw (QueueFullError (name b) (maxQueueSize b))
  else
    h <- setTimeout QueueTimer l (queueTimeout b) ;;
    upd_task l (set_queueTimeoutId (Some h)) ;;;
    upd_bulkhead (fun b => set_taskQueue (taskQueue b ++ [l]) b) ;;;
    b <- this_bulkhead ;;
    let n := Z.of_nat (length (taskQueue b)) in
    upd_metrics (set_currentQueueSize n) ;;;
    upd_metrics (fun m => set_peakQueueSize (Z.max (peakQueueSize m) n) m) ;;;
    k <- read_task l ;;
    emit (EvTaskQueued (id k) n).

(** [execute(fn, ...args)] up to its [await]; a rejection by [queueTask]
    reaches the [catch] at once. *)
Definition execute (suffix : string) (f : nat) : Prog unit :=
  l <- createTask suffix f ;;
  upd_metrics (fun m => set_totalSubmitted (totalSubmitted m + 1) m) ;;;
  try_catch
    (b <- this_bulkhead ;;
     if currentConcurrency b <? maxConcurrent b
     then executeTask l
     else queueTask l)
    (fun error =>
       handleTaskFailure l error ;;;
       deliver l (Abrupt error)).

(** [taskQueue.findIndex(t => t.id === task.id)] followed by [splice]. *)
Fixpoint remove_first_with_id (h : gmap nat Task) (i : string) (q : list nat)
  : list nat :=
  match q with
  | [] => []
  | l :: q' =>
      if String.eqb (id (default blank (h !! l))) i then q'
      else l :: remove_first_with_id h i q'
  end.

(** [removeFromQueue(task)] *)
Definition removeFromQueue (l : nat) : Prog unit :=
  s <- self ;;
  k <- read_task l ;;
  let q := taskQueue (bulkhead s) in
  if existsb (fun l' => String.eqb (id (default blank (heap s !! l'))) (id k)) q
  then
    let q' := remove_first_with_id (heap s) (id k) q in
    upd_bulkhead (set_taskQueue q') ;;;
    upd_metrics (set_currentQueueSize (Z.of_nat (length q')))
  else ret tt.

(** The callback of the queue timer of task [l], and the [catch] of the
    [execute] that was awaiting the task. *)
Definition onQueueTimeout (l : nat) : Prog unit :=
  b <- this_bulkhead ;;
  k <- read_task l ;;
  removeFromQueue l ;;;
  upd_task l (set_status TIMEOUT) ;;;
  let error := QueueTimeoutError (name b) (id k) (queueTimeout b) in
  handleTaskFailure l error ;;;
  deliver l (Abrupt error).

(** The callback of the execution timer of task [l]: the promise of
    [executeWithTimeout] is rejected and [executeTask] goes on. *)
Definition onExecutionTimeout (l : nat) : Prog unit :=
  b <- this_bulkhead ;;
  k <- read_task l ;;
  upd_task l (set_status TIMEOUT) ;;;
  executeTask_resume l
    (Abrupt (ExecutionTimeoutError (name b) (id k) (timeout b))).

(** [clearQueue()] *)
Fixpoint rejectAll (q : list nat) : Prog unit :=
  match q with
  | [] => ret tt
  | l :: q' =>
      b <- this_bulkhead ;;
      k <- read_task l ;;
      match queueTimeoutId k with
      | Some h => clearTimeout h
      | None => ret tt
      end ;;;
      handleTaskFailure l (QueueClearedError (name b)) ;;;
      deliver l (Abrupt (QueueClearedError (name b))) ;;;
      rejectAll q'
  end.

Definition clearQueue : Prog unit :=
  b <- this_bulkhead ;;
  let clearedTasks := Z.of_nat (length (taskQueue b)) in
  upd_bulkhead (set_taskQueue []) ;;;
  upd_metrics (set_currentQueueSize 0) ;;;
  emit (EvQueueCleared clearedTasks) ;;;
  rejectAll (taskQueue b).

(** [destroy()] *)
Definition destroy : Prog unit := clearQueue.

(** What can happen to a bulkhead: a call of [execute], the operation of
    a running task settling, a timer firing, a call of [clearQueue]. *)
Inductive Input : Type :=
  | Submit (suffix : string) (f : nat)
  | Settle (l : nat) (o : Outcome)
  | Fire (h : nat)
  | ClearQueue.

(** One turn of the event loop. *)
Definition react (i : Input) : Prog unit :=
  match i with
  | Submit suffix f => execute suffix f
  | Settle l o =>
      s <- self ;;
      match inflight s !! l with
      | Some h =>
          clearTimeout h ;;;
          executeTask_resume l
            (match o with Resolved v => Normal v | Rejected e => Abrupt e end)
      | None => ret tt
      end
  | Fire h =>
      s <- self ;;
      match timers s !! h with
      | Some tm =>
          clearTimeout h ;;;
          match kind tm with
          | ExecutionTimer => onExecutionTimeout (task tm)
          | QueueTimer => onQueueTimeout (task tm)
          end
      | None => ret tt
      end
  | ClearQueue => clearQueue
  end.

Abbreviation BWorld := (World Store Event).

Definition step (w : BWorld) (i : Input) : BWorld := snd (react i w).

Definition run (w : BWorld) (inputs : list Input) : BWorld := foldl step w inputs.

(** The worlds a bulkhead gets into: built by the constructor with a
    configuration as the specification allows it ([maxConcurrent] at
    least 1, [maxQueueSize] not negative), then driven by any inputs. *)
Inductive reachable : BWorld -> Prop :=
  | reachable_new (n : string) (mc mq t qt : Z) (r : Runtime) :
      1 <= maxConcurrent (constructor n mc mq t qt) ->
      0 <= maxQueueSize (constructor n mc mq t qt) ->
      reachable (mkWorld (new_store (constructor n mc mq t qt)) r [])
  | reachable_step (w : BWorld) (i : Input) :
      reachable w -> reachable (step w i).

(** The task objects of a world have pairwise distinct ids. *)
Definition ids_distinct (w : BWorld) : Prop :=
  forall (l1 l2 : nat) (t1 t2 : Task),
    heap (this w) !! l1 = Some t1 -> heap (this w) !! l2 = Some t2 ->
    id t1 = id t2 -> l1 = l2.

(** The same, through worlds in which [generateTaskId] has lived up to
    its name: no two task objects share an id. *)
Inductive reachable_distinct : BWorld -> Prop :=
  | reachable_distinct_new (n : string) (mc mq t qt : Z) (r : Runtime) :
      1 <= maxConcurrent (constructor n mc mq t qt) ->
      0 <= maxQueueSize (constructor n mc mq t qt) ->
      reachable_distinct (mkWorld (new_store (constructor n mc mq t qt)) r [])
  | reachable_distinct_step (w : BWorld) (i : Input) :
      reachable_distinct w -> ids_distinct (step w i) ->
      reachable_distinct (step w i).

(** *** Invariants *)

(** The bookkeeping of running and queued tasks, over the parts of the
    store it speaks of: the two limits, the map of running tasks, the
    queue, the counter, the heap, the timers and the executions in
    flight. *)
Record bounds (mc mq : Z) (RT : gmap string nat) (Qe : list nat) (cc : Z)
    (H : gmap nat Task) (T : gmap nat Timer) (IF : gmap nat nat) : Prop :=
  mkBounds {
    bounds_config : 0 <= mc /\ 0 <= mq;
    bounds_count : cc = Z.of_nat (size IF);
    bounds_running : cc <= mc;
    bounds_queue : Z.of_nat (length Qe) <= mq;
    bounds_nodup : NoDup Qe;
    bounds_queue_waits :
      forall l : nat, l ∈ Qe -> IF !! l = None /\ is_Some (H !! l);
    bounds_inflight_heap :
      forall l h : nat, IF !! l = Some h -> is_Some (H !! l);
    bounds_map :
      forall (k : string) (l : nat),
        RT !! k = Some l ->
        is_Some (IF !! l) /\ exists t, H !! l = Some t /\ id t = k;
    bounds_exec_timer :
      forall (h : nat) (tm : Timer),
        T !! h = Some tm -> kind tm = ExecutionTimer -> IF !! task tm = Some h
  }.

Definition bounded (w : BWorld) : Prop :=
  bounds (maxConcurrent (bulkhead (this w))) (maxQueueSize (bulkhead (this w)))
    (runningTasks (bulkhead (this w))) (taskQueue (bulkhead (this w)))
    (currentConcurrency (bulkhead (this w)))
    (heap (this w)) (timers (this w)) (inflight (this w)).

(** The timers of running and queued tasks, over the two delays, the
    queue, the heap, the timers and the executions in flight. *)
Record timed (to qto : Z) (Qe : list nat)
    (H : gmap nat Task) (T : gmap nat Timer) (nT : nat) (IF : gmap nat nat)
  : Prop :=
  mkTimed {
    timed_fresh : forall h : nat, is_Some (T !! h) -> (h < nT)%nat;
    timed_running :
      forall l h : nat, IF !! l = Some h ->
        T !! h = Some (mkTimer ExecutionTimer l to) /\
        exists t, H !! l = Some t /\ status t = RUNNING /\ is_Some (startedAt t);
    timed_queued :
      forall l : nat, l ∈ Qe ->
        exists (t : Task) (h : nat),
          H !! l = Some t /\ status t = PENDING /\ startedAt t = None /\
          queueTimeoutId t = Some h /\ T !! h = Some (mkTimer QueueTimer l qto);
    timed_queue_timer :
      forall (h : nat) (tm : Timer),
        T !! h = Some tm -> kind tm = QueueTimer ->
        task tm ∈ Qe /\
        exists t, H !! task tm = Some t /\ queueTimeoutId t = Some h
  }.

Definition clocks (w : BWorld) : Prop :=
  timed (timeout (bulkhead (this w))) (queueTimeout (bulkhead (this w)))
    (taskQueue (bulkhead (this w)))
    (heap (this w)) (timers (this w)) (nextTimer (this w)) (inflight (this w)).

(** A change to a task object that keeps its id. *)
Definition keeps_id (g : Task -> Task) : Prop := forall t, id (g t) = id t.

(** The run time after [n] more readings of the clock. *)
Definition tick (n : nat) (r : Runtime) : Runtime :=
  mkRuntime (clock r) (n + reads r) (random r) (draws r) (slept r) (calls r).

(** The execution timers that exist in [w'] and did not in [w]. *)
Definition started_clock (w w' : BWorld) (h : nat) (l : nat) : Prop :=
  timers (this w) !! h = None /\
  exists d, timers (this w') !! h = Some (mkTimer ExecutionTimer l d).

Record Utilization : Type := mkUtilization {
  concurrencyUtilization : Number;
  queueUtilization : Number;
  isAtCapacity : bool;
  isQueueFull : bool
}.

(** [getUtilization()] *)
Definition getUtilization (b : Bulkhead) : Utilization :=
  mkUtilization
    (Number_mul
       (Number_div (inject_Z (currentConcurrency b)) (inject_Z (maxConcurrent b)))
       100)
    (Number_mul
       (Number_div (inject_Z (Z.of_nat (length (taskQueue b))))
          (inject_Z (maxQueueSize b)))
       100)
    (maxConcurrent b <=? currentConcurrency b)
    (maxQueueSize b <=? Z.of_nat (length (taskQueue b))).

(** The gauges of the metrics follow the queue and the counter, the peaks
    stay within the limits, and no task waits while a slot is free. *)
Definition tallied (b : Bulkhead) : Prop :=
  1 <= maxConcurrent b /\ 1 <= maxQueueSize b /\
  currentQueueSize (metrics b) = Z.of_nat (length (taskQueue b)) /\
  m_currentConcurrency (metrics b) = currentConcurrency b /\
  currentConcurrency b <= peakConcurrency (metrics b) /\
  peakConcurrency (metrics b) <= maxConcurrent b /\
  Z.of_nat (length (taskQueue b)) <= peakQueueSize (metrics b) /\
  peakQueueSize (metrics b) <= maxQueueSize b /\
  (taskQueue b <> [] -> currentConcurrency b = maxConcurrent b).

(** What [handleTaskSuccess] and [handleTaskFailure] do to the metrics:
    one total goes up by one; the gauges, the peaks and the other totals
    stay. *)
Definition gauges_kept (m m' : Metrics) : Prop :=
  totalSubmitted m' = totalSubmitted m /\
  totalRejected m' = totalRejected m /\
  peakConcurrency m' = peakConcurrency m /\
  peakQueueSize m' = peakQueueSize m /\
  currentQueueSize m' = currentQueueSize m /\
  m_currentConcurrency m' = m_currentConcurrency m.

Definition failure_counted (error : Error) (m m' : Metrics) : Prop :=
  gauges_kept m m' /\
  totalCompleted m' = totalCompleted m /\
  if includes "timeout" (message error)
  then totalTimeout m' = totalTimeout m + 1 /\ totalFailed m' = totalFailed m
  else totalFailed m' = totalFailed m + 1 /\ totalTimeout m' = totalTimeout m.

Definition success_counted (m m' : Metrics) : Prop :=
  gauges_kept m m' /\
  totalCompleted m' = totalCompleted m + 1 /\
  totalFailed m' = totalFailed m /\
  totalTimeout m' = totalTimeout m.

(** Who has been answered: no caller twice; a task that has been
    answered is neither queued nor in flight; a task that is neither has
    been answered.  Over the queue, the executions in flight, the tasks
    answered so far and the heap. *)
Record answers (Qe : list nat) (IF : gmap nat nat) (D : list nat)
    (H : gmap nat Task) : Prop :=
  mkAnswers {
    answers_once : NoDup D;
    answers_left :
      forall l : nat, l ∈ D -> is_Some (H !! l) /\ (l ∉ Qe) /\ IF !! l = None;
    answers_all :
      forall l : nat, is_Some (H !! l) -> l ∈ Qe \/ is_Some (IF !! l) \/ l ∈ D
  }.

Definition answered (w : BWorld) : Prop :=
  answers (taskQueue (bulkhead (this w))) (inflight (this w))
    (map fst (delivered (this w))) (heap (this w)).

End Bulkhead.

(** ** AutoRecovery.js *)

Module AutoRecovery.
Import JS.

Inductive RecoveryStates : Type := HEALTHY | DEGRADED | RECOVERING | FAILED.

Definition RecoveryStates_eqb (a b : RecoveryStates) : bool :=
  match a, b with
  | HEALTHY, HEALTHY | DEGRADED, DEGRADED
  | RECOVERING, RECOVERING | FAILED, FAILED => true
  | _, _ => false
  end.

Record HistoryEntry : Type := mkHistoryEntry {
  h_state : RecoveryStates;
  h_timestamp : Z;
  h_failureCount : Z;
  h_successCount : Z
}.

(** [lastHealthCheck]: the time stamp and either the result or the message
    of the error. *)
Record HealthRecord : Type := mkHealthRecord {
  hc_timestamp : Z;
  hc_status : Value + string
}.

Record Metrics : Type := mkMetrics {
  totalFailures : Z;
  totalRecoveries : Z;
  totalRetries : Z;
  averageRecoveryTime : Q;
  longestOutage : Z;
  currentOutageStart : option Z;
  healthCheckSuccesses : Z;
  healthCheckFailures : Z;
  stateHistory : list HistoryEntry
}.

(** The fields of the object that hold data.  The members that hold
    functions ([healthCheck], [onRecover] and the [strategies] map) are
    arguments of the methods that use them. *)
Record AutoRecovery : Type := mkAutoRecovery {
  name : string;
  maxRetries : Z;
  initialDelay : Q;
  maxDelay : Q;
  backoffMultiplier : Q;
  healthCheckInterval : Z;
  failureThreshold : Z;
  recoveryThreshold : Z;
  state : RecoveryStates;
  failureCount : Z;
  successCount : Z;
  retryCount : Z;
  lastHealthCheck : option HealthRecord;
  isRecovering : bool;
  metrics : Metrics
}.

Inductive Event : Type :=
  | EvSuccess (successes : Z)
  | EvFailure (msg : string) (failures : Z)
  | EvRecoverySuccess (attempts : Z) (recoveryTime : Z)
  | EvStateChanged (oldState newState : RecoveryStates) (timestamp : Z)
  | EvDegraded (reason : string)
  | EvHealthCheck (status : Value + string)
  | EvManualRecovery (timestamp : Z)
  | EvReset (timestamp : Z)
  (* the lines attemptRecovery writes to the logger around each strategy *)
  | LogStrategyAttempt (strategy : string)
  | LogStrategyCompleted (strategy : string)
  | LogStrategyFailed (strategy : string) (msg : string).

Abbreviation Prog := (M AutoRecovery Event).

(** Field updates. *)
Definition set_totalFailures (x : Z) (r : Metrics) : Metrics :=
      mkMetrics x (totalRecoveries r) (totalRetries r) (averageRecoveryTime r)
    (longestOutage r) (currentOutageStart r) (healthCheckSuccesses r)
    (healthCheckFailures r) (stateHistory r).
Definition set_totalRecoveries (x : Z) (r : Metrics) : Metrics :=
      mkMetrics (totalFailures r) x (totalRetries r) (averageRecoveryTime r)
    (longestOutage r) (currentOutageStart r) (healthCheckSuccesses r)
    (healthCheckFailures r) (stateHistory r).
Definition set_totalRetries (x : Z) (r : Metrics) : Metrics :=
      mkMetrics (totalFailures r) (totalRecoveries r) x (averageRecoveryTime r)
    (longestOutage r) (currentOutageStart r) (healthCheckSuccesses r)
    (healthCheckFailures r) (stateHistory r).
Definition set_averageRecoveryTime (x : Q) (r : Metrics) : Metrics :=
      mkMetrics (totalFailures r) (totalRecoveries r) (totalRetries r) x
    (longestOutage r) (currentOutageStart r) (healthCheckSuccesses r)
    (healthCheckFailures r) (stateHistory r).
Definition set_longestOutage (x : Z) (r : Metrics) : Metrics :=
      mkMetrics (totalFailures r) (totalRecoveries r) (totalRetries r)
    (averageRecoveryTime r) x (currentOutageStart r) (healthCheckSuccesses r)
    (healthCheckFailures r) (stateHistory r).
Definition set_currentOutageStart (x : option Z) (r : Metrics) : Metrics :=
      mkMetrics (totalFailures r) (totalRecoveries r) (totalRetries r)
    (averageRecoveryTime r) (longestOutage r) x (healthCheckSuccesses r)
    (healthCheckFailures r) (stateHistory r).
Definition set_healthCheckSuccesses (x : Z) (r : Metrics) : Metrics :=
      mkMetrics (totalFailures r) (totalRecoveries r) (totalRetries r)
    (averageRecoveryTime r) (longestOutage r) (currentOutageStart r) x
    (healthCheckFailures r) (stateHistory r).
Definition set_healthCheckFailures (x : Z) (r : Metrics) : Metrics :=
      mkMetrics (totalFailures r) (totalRecoveries r) (totalRetries r)
    (averageRecoveryTime r) (longestOutage r) (currentOutageStart r)
    (healthCheckSuccesses r) x (stateHistory r).
Definition set_stateHistory (x : list HistoryEntry) (r : Metrics) : Metrics :=
      mkMetrics (totalFailures r) (totalRecoveries r) (totalRetries r)
    (averageRecoveryTime r) (longestOutage r) (currentOutageStart r)
    (healthCheckSuccesses r) (healthCheckFailures r) x.
Definition set_state (x : RecoveryStates) (r : AutoRecovery) : AutoRecovery :=
      mkAutoRecovery (name r) (maxRetries r) (initialDelay r) (maxDelay r)
    (backoffMultiplier r) (healthCheckInterval r) (failureThreshold r)
    (recoveryThreshold r) x (failureCount r) (successCount r) (retryCount r)
    (lastHealthCheck r) (isRecovering r) (metrics r).
Definition set_failureCount (x : Z) (r : AutoRecovery) : AutoRecovery :=
      mkAutoRecovery (name r) (maxRetries r) (initialDelay r) (maxDelay r)
    (backoffMultiplier r) (healthCheckInterval r) (failureThreshold r)
    (recoveryThreshold r) (state r) x (successCount r) (retryCount r)
    (lastHealthCheck r) (isRecovering r) (metrics r).
Definition set_successCount (x : Z) (r : AutoRecovery) : AutoRecovery :=
      mkAutoRecovery (name r) (maxRetries r) (initialDelay r) (maxDelay r)
    (backoffMultiplier r) (healthCheckInterval r) (failureThreshold r)
    (recoveryThreshold r) (state r) (failureCount r) x (retryCount r)
    (lastHealthCheck r) (isRecovering r) (metrics r).
Definition set_retryCount (x : Z) (r : AutoRecovery) : AutoRecovery :=
      mkAutoRecovery (name r) (maxRetries r) (initialDelay r) (maxDelay r)
    (backoffMultiplier r) (healthCheckInterval r) (failureThreshold r)
    (recoveryThreshold r) (state r) (failureCount r) (successCount r) x
    (lastHealthCheck r) (isRecovering r) (metrics r).
Definition set_lastHealthCheck (x : option HealthRecord) (r : AutoRecovery) : AutoRecovery :=
      mkAutoRecovery (name r) (maxRetries r) (initialDelay r) (maxDelay r)
    (backoffMultiplier r) (healthCheckInterval r) (failureThreshold r)
    (recoveryThreshold r) (state r) (failureCount r) (successCount r) (retryCount r)
    x (isRecovering r) (metrics r).
Definition set_isRecovering (x : bool) (r : AutoRecovery) : AutoRecovery :=
      mkAutoRecovery (name r) (maxRetries r) (initialDelay r) (maxDelay r)
    (backoffMultiplier r) (healthCheckInterval r) (failureThreshold r)
    (recoveryThreshold r) (state r) (failureCount r) (successCount r) (retryCount r)
    (lastHealthCheck r) x (metrics r).
Definition set_metrics (x : Metrics) (r : AutoRecovery) : AutoRecovery :=
      mkAutoRecovery (name r) (maxRetries r) (initialDelay r) (maxDelay r)
    (backoffMultiplier r) (healthCheckInterval r) (failureThreshold r)
    (recoveryThreshold r) (state r) (failureCount r) (successCount r) (retryCount r)
    (lastHealthCheck r) (isRecovering r) x.
Definition upd_metrics (f : Metrics -> Metrics) (r : AutoRecovery) : AutoRecovery :=
  set_metrics (f (metrics r)) r.

(** A strategy of the registry: [execute(error, recovery)] may read and
    update the recovery object, wait, emit and raise. *)
Definition Strategy : Type := Error -> Prog unit.

(** The [strategies] map in iteration order: a [Map] iterates in the order
    in which the keys were first inserted. *)
Definition Registry : Type := list (string * Strategy).

(** [Map.prototype.set]: an existing key keeps its place. *)
Fixpoint Map_set (k : string) (s : Strategy) (m : Registry) : Registry :=
  match m with
  | [] => [(k, s)]
  | (k', s') :: m' =>
      if String.eqb k' k then (k, s) :: m' else (k', s') :: Map_set k s m'
  end.

Definition slice_last {A} (n : nat) (l : list A) : list A :=
  drop (length l - n) l.

(** Truthiness of [currentOutageStart]: [null] and [0] are falsy. *)
Definition truthy (t : option Z) : bool :=
  match t with
  | Some v => negb (v =? 0)
  | None => false
  end.

Definition Math_min (a b : Q) : Q := if Qle_bool a b then a else b.

(** [options.x || default] on numbers. *)
Definition or_default (x d : Z) : Z := if x =? 0 then d else x.
Definition or_defaultQ (x d : Q) : Q := if Qeq_bool x 0 then d else x.

Definition constructor (opt_name : string)
    (opt_maxRetries : Z) (opt_initialDelay opt_maxDelay opt_backoffMultiplier : Q)
    (opt_healthCheckInterval opt_failureThreshold opt_recoveryThreshold : Z)
  : AutoRecovery :=
  mkAutoRecovery
    (if String.eqb opt_name "" then "AutoRecovery" else opt_name)
    (or_default opt_maxRetries 3)
    (or_defaultQ opt_initialDelay 1000)
    (or_defaultQ opt_maxDelay 30000)
    (or_defaultQ opt_backoffMultiplier 2)
    (or_default opt_healthCheckInterval 5000)
    (or_default opt_failureThreshold 3)
    (or_default opt_recoveryThreshold 2)
    HEALTHY 0 0 0 None false
    (mkMetrics 0 0 0 0%Q 0 None 0 0 []).

(** The constant [delay] of [calculateDelay(attempt)]: the exponential
    back-off, capped at [maxDelay]. *)
Definition backoff (ar : AutoRecovery) (attempt : Z) : Q :=
  Math_min (initialDelay ar * Qpower (backoffMultiplier ar) (attempt - 1))%Q
           (maxDelay ar).

(** The value [calculateDelay(attempt)] returns when [Math.random()]
    answers [rnd]. *)
Definition jittered (ar : AutoRecovery) (attempt : Z) (rnd : Q) : Z :=
  let delay := backoff ar attempt in
  let jitter := (delay * (1 # 10) * rnd)%Q in
  Qfloor (delay + jitter)%Q.

(** [calculateDelay(attempt)] *)
Definition calculateDelay (attempt : Z) : Prog Z :=
  ar <- self ;;
  rnd <- Math_random ;;
  ret (jittered ar attempt rnd).

(** [delay(ms)] *)
Definition delay (ms : Z) : Prog unit := sleep ms.

(** [setState(newState)] *)
Definition setState (newState : RecoveryStates) : Prog unit :=
  ar <- self ;;
  let oldState := state ar in
  modify (set_state newState) ;;;
  t <- Date_now ;;
  modify (upd_metrics (fun m =>
    set_stateHistory
      (stateHistory m ++
         [mkHistoryEntry newState t (failureCount ar) (successCount ar)]) m)) ;;;
  ar <- self ;;
  (if (100 <? length (stateHistory (metrics ar)))%nat
   then modify (upd_metrics (fun m =>
          set_stateHistory (slice_last 100 (stateHistory m)) m))
   else ret tt) ;;;
  if negb (RecoveryStates_eqb oldState newState)
  then t' <- Date_now ;; emit (EvStateChanged oldState newState t')
  else ret tt.

(** [startOutage()] *)
Definition startOutage : Prog unit :=
  ar <- self ;;
  if truthy (currentOutageStart (metrics ar)) then ret tt
  else t <- Date_now ;; modify (upd_metrics (set_currentOutageStart (Some t))).

(** [endOutage()] *)
Definition endOutage : Prog unit :=
  ar <- self ;;
  match currentOutageStart (metrics ar) with
  | Some start =>
      if negb (start =? 0) then
        t <- Date_now ;;
        let outageTime := t - start in
        modify (upd_metrics (fun m =>
          set_longestOutage (Z.max (longestOutage m) outageTime) m)) ;;;
        modify (upd_metrics (set_currentOutageStart None))
      else ret tt
  | None => ret tt
  end.

(** [updateAverageRecoveryTime(recoveryTime)] *)
Definition updateAverageRecoveryTime (recoveryTime : Z) : Prog unit :=
  modify (upd_metrics (fun m =>
    set_averageRecoveryTime
      (if Qeq_bool (averageRecoveryTime m) 0
       then inject_Z recoveryTime
       else (averageRecoveryTime m * (9 # 10) + inject_Z recoveryTime * (1 # 10))%Q) m)).

(** [onSuccess()] *)
Definition onSuccess : Prog unit :=
  modify (fun ar => set_successCount (successCount ar + 1) ar) ;;;
  modify (set_failureCount 0) ;;;
  modify (set_retryCount 0) ;;;
  ar <- self ;;
  (if negb (RecoveryStates_eqb (state ar) HEALTHY)
      && (recoveryThreshold ar <=? successCount ar)
   then setState HEALTHY ;;; endOutage
   else ret tt) ;;;
  ar <- self ;;
  emit (EvSuccess (successCount ar)).

(** [handleRecoverySuccess(attempts)] *)
Definition handleRecoverySuccess (attempts : Z) : Prog unit :=
  modify (upd_metrics (fun m => set_totalRecoveries (totalRecoveries m + 1) m)) ;;;
  t <- Date_now ;;
  ar <- self ;;
  start <- (if truthy (currentOutageStart (metrics ar))
            then ret (default 0 (currentOutageStart (metrics ar)))
            else Date_now) ;;
  let recoveryTime := t - start in
  updateAverageRecoveryTime recoveryTime ;;;
  emit (EvRecoverySuccess attempts recoveryTime).

Section Injected.
(** The function-valued members of the object. *)
Context (strategies : Registry).
Context (healthCheck : nat -> Outcome).

(** The body of the [for ... of this.strategies] loop of attemptRecovery:
    the first strategy that completes ends the loop, one that raises is
    logged and the loop goes on. *)
Fixpoint tryStrategies (todo : Registry) (error : Error) : Prog unit :=
  match todo with
  | [] => ret tt
  | (strategyName, strategy) :: rest =>
      again <-
        try_catch
          (emit (LogStrategyAttempt strategyName) ;;;
           strategy error ;;;
           emit (LogStrategyCompleted strategyName) ;;;
           ret false)
          (fun strategyError =>
             emit (LogStrategyFailed strategyName (message strategyError)) ;;;
             ret true) ;;
      if again : bool then tryStrategies rest error else ret tt
  end.

(** [attemptRecovery(error)] up to its first [await]: the guard, the flag
    and the state.  Returns whether a pass was started. *)
Definition attemptRecovery_enter : Prog bool :=
  ar <- self ;;
  if isRecovering ar then ret false
  else
    modify (set_isRecovering true) ;;;
    setState RECOVERING ;;;
    ret true.

(** The rest of the pass: the loop inside [try], and the [finally]. *)
Definition attemptRecovery_pass (error : Error) : Prog unit :=
  try_finally
    (tryStrategies strategies error)
    (modify (set_isRecovering false)).

(** [attemptRecovery(error)], awaited to its end. *)
Definition attemptRecovery (error : Error) : Prog unit :=
  started <- attemptRecovery_enter ;;
  if started : bool then attemptRecovery_pass error else ret tt.

(** [handleFailure(error)].  The call [this.attemptRecovery(error)] is not
    awaited: handleFailure runs it up to its first [await] and returns;
    the strategies of the pass run later ([attemptRecovery_pass]).
    [error] is [None] when the caller passes [undefined], and reading
    [error.message] then raises a TypeError. *)
Definition handleFailure (error : option Error) : Prog unit :=
  modify (fun ar => set_failureCount (failureCount ar + 1) ar) ;;;
  modify (set_successCount 0) ;;;
  modify (upd_metrics (fun m => set_totalFailures (totalFailures m + 1) m)) ;;;
  ar <- self ;;
  (if failureThreshold ar <=? failureCount ar
   then setState FAILED ;;; startOutage
   else if RecoveryStates_eqb (state ar) HEALTHY
        then setState DEGRADED
        else ret tt) ;;;
  match error with
  | None =>
      throw (OpError "Cannot read properties of undefined (reading 'message')")
  | Some err =>
      ar <- self ;;
      emit (EvFailure (message err) (failureCount ar)) ;;;
      _ <- attemptRecovery_enter ;;
      ret tt
  end.

(** The [while (attempt <= this.maxRetries)] loop of executeWithRecovery.
    Every turn either returns or adds one to [attempt], so
    [maxRetries + 1] turns are enough; [turns] counts them down. *)
Fixpoint retryLoop (turns : nat) (fn : nat -> Outcome)
    (attempt : Z) (lastError : option Error) : Prog Value :=
  let exhausted : Prog Value :=
    handleFailure lastError ;;;
    throw (default (OpError "undefined") lastError) in
  match turns with
  | O => exhausted
  | S turns' =>
      ar <- self ;;
      if attempt <=? maxRetries ar then
        step <-
          try_catch
            (o <- invoke fn ;;
             result <- await o ;;
             (if 0 <? attempt then handleRecoverySuccess attempt else ret tt) ;;;
             onSuccess ;;;
             ret (inl result))
            (fun error =>
               let attempt' := attempt + 1 in
               modify (upd_metrics (fun m =>
                 set_totalRetries (totalRetries m + 1) m)) ;;;
               ar <- self ;;
               (if attempt' <=? maxRetries ar
                then d <- calculateDelay attempt' ;; delay d
                else ret tt) ;;;
               ret (inr (attempt', error))) ;;
        match step with
        | inl result => ret result
        | inr (attempt', error) => retryLoop turns' fn attempt' (Some error)
        end
      else exhausted
  end.

(** [executeWithRecovery(fn, ...args)] *)
Definition executeWithRecovery (fn : nat -> Outcome) : Prog Value :=
  ar <- self ;;
  retryLoop (Z.to_nat (maxRetries ar + 1)) fn 0 None.

(** [performHealthCheck()] *)
Definition performHealthCheck : Prog unit :=
  try_catch
    (o <- invoke healthCheck ;;
     healthResult <- await o ;;
     modify (upd_metrics (fun m =>
       set_healthCheckSuccesses (healthCheckSuccesses m + 1) m)) ;;;
     t <- Date_now ;;
     modify (set_lastHealthCheck (Some (mkHealthRecord t (inl healthResult)))) ;;;
     ar <- self ;;
     (if negb (RecoveryStates_eqb (state ar) HEALTHY) then onSuccess else ret tt) ;;;
     emit (EvHealthCheck (inl healthResult)))
    (fun error =>
       modify (upd_metrics (fun m =>
         set_healthCheckFailures (healthCheckFailures m + 1) m)) ;;;
       t <- Date_now ;;
       modify (set_lastHealthCheck
                 (Some (mkHealthRecord t (inr (message error))))) ;;;
       handleFailure (Some error) ;;;
       emit (EvHealthCheck (inr (message error)))).

(** [triggerRecovery()] *)
Definition triggerRecovery : Prog unit :=
  attemptRecovery ManualRecoveryError ;;;
  t <- Date_now ;;
  emit (EvManualRecovery t).
End Injected.

(** [reset()] *)
Definition reset : Prog unit :=
  modify (set_failureCount 0) ;;;
  modify (set_successCount 0) ;;;
  modify (set_retryCount 0) ;;;
  modify (set_isRecovering false) ;;;
  setState HEALTHY ;;;
  endOutage ;;;
  t <- Date_now ;;
  emit (EvReset t).

(** The strategies registered by [registerDefaultStrategies()], in order;
    [onRecover] is the injected recovery action, if any. *)
Definition RETRY : string := "RETRY".
Definition RESTART : string := "RESTART".
Definition FAILOVER : string := "FAILOVER".
Definition DEGRADE : string := "DEGRADE".

Definition retryStrategy : Strategy := fun _ => delay 1000.

Definition restartStrategy (onRecover : option (nat -> Outcome)) : Strategy :=
  fun _ =>
    match onRecover with
    | Some f => o <- invoke f ;; _ <- await o ;; ret tt
    | None => ret tt
    end.

Definition degradeStrategy : Strategy :=
  fun error => setState DEGRADED ;;; emit (EvDegraded (message error)).

Definition registerStrategy (k : string) (s : Strategy) (m : Registry) : Registry :=
  Map_set k s m.

Definition registerDefaultStrategies (onRecover : option (nat -> Outcome))
  : Registry :=
  registerStrategy DEGRADE degradeStrategy
    (registerStrategy RESTART (restartStrategy onRecover)
       (registerStrategy RETRY retryStrategy [])).

Abbreviation ARWorld := (World AutoRecovery Event).

(** *** Quantities the retry property speaks of *)

Definition Zsum (l : list Z) : Z := foldr Z.add 0 l.

(** The time spent in [delay] between world [w] and the later [w']. *)
Definition waited (w w' : ARWorld) : Z :=
  Zsum (slept (rt w')) - Zsum (slept (rt w)).

(** The delays a run of [k] failed attempts waits for, the first first,
    when the first of them is attempt number [attempt + 1]: after each
    failure the call draws a random number and waits [calculateDelay]. *)
Definition waits_from (w : ARWorld) (attempt : Z) (k : nat) : list Z :=
  map (fun i : nat =>
         jittered (this w) (attempt + Z.of_nat i + 1) (random_at w i))
      (seq 0 k).


(** Two objects with the same configuration. *)
Definition same_config (a b : AutoRecovery) : Prop :=
  maxRetries a = maxRetries b /\ initialDelay a = initialDelay b /\
  maxDelay a = maxDelay b /\ backoffMultiplier a = backoffMultiplier b /\
  recoveryThreshold a = recoveryThreshold b.



(** [fn] fails on its next [k] invocations and succeeds with [v] on the
    one after. *)
Definition fails_then_succeeds (fn : nat -> Outcome) (w : ARWorld)
    (k : nat) (v : Value) : Prop :=
  (forall i : nat, (i < k)%nat -> exists e, fn (i + calls (rt w))%nat = Rejected e) /\
  fn (k + calls (rt w))%nat = Resolved v.

(** The counters and the state a success or a failure acts on. *)
Definition counters (ar : AutoRecovery) : RecoveryStates * Z * Z * Z :=
  (state ar, failureCount ar, successCount ar, retryCount ar).

(** The effect of a success as the specification words it: the failure
    counter is reset to 0, the success counter is incremented, and the
    state becomes HEALTHY once the success counter has reached
    [recoveryThreshold]. *)
Definition success_effect (ar : AutoRecovery) : RecoveryStates * Z * Z * Z :=
  (if recoveryThreshold ar <=? successCount ar + 1 then HEALTHY else state ar,
   0, successCount ar + 1, 0).

(** *** The recovery pass as the specification words it *)

Definition logged (ev : Event) (w : ARWorld) : ARWorld :=
  mkWorld (this w) (rt w) (ev :: emitted w).


(** The world with the in-flight guard cleared. *)
Definition guard_cleared (w : ARWorld) : ARWorld :=
  mkWorld (set_isRecovering false (this w)) (rt w) (emitted w).

Record Stats : Type := mkStats {
  st_totalFailures : Z;
  st_totalRecoveries : Z;
  st_totalRetries : Z;
  st_successRate : Number;
  st_averageRecoveryTime : Q;
  st_longestOutage : Z;
  st_currentOutage : Z
}.

(** [getStats()] *)
Definition getStats : Prog Stats :=
  ar <- self ;;
  let m := metrics ar in
  currentOutage <-
    (match currentOutageStart m with
     | Some start =>
         if negb (start =? 0) then now <- Date_now ;; ret (now - start)
         else ret 0
     | None => ret 0
     end) ;;
  ret (mkStats (totalFailures m) (totalRecoveries m) (totalRetries m)
         (Number_mul
            (Number_div (inject_Z (healthCheckSuccesses m))
               (inject_Z (healthCheckSuccesses m + healthCheckFailures m)))
            100)
         (averageRecoveryTime m) (longestOutage m) currentOutage).

(** Calls of [registerStrategy], one after the other. *)
Definition registerAll (extra : list (string * Strategy)) (m : Registry) : Registry :=
  foldl (fun m p => registerStrategy (fst p) (snd p) m) m extra.

(** The worlds an object gets into when it is built by the constructor
    with the default strategies and then driven by calls of
    [executeWithRecovery], health checks, recovery passes that run to
    their end, manual triggers and [reset]. *)
Inductive reachable : ARWorld -> Prop :=
  | reachable_new (n : string) (mr : Z) (idl md bm : Q) (hci ft rth : Z)
      (r : Runtime) :
      reachable (mkWorld (constructor n mr idl md bm hci ft rth) r [])
  | reachable_execute (w : ARWorld) (fn : nat -> Outcome) :
      reachable w -> reachable (snd (executeWithRecovery fn w))
  | reachable_healthCheck (w : ARWorld) (hc : nat -> Outcome) :
      reachable w -> reachable (snd (performHealthCheck hc w))
  | reachable_pass (w : ARWorld) (onRecover : option (nat -> Outcome))
      (error : Error) :
      reachable w ->
      reachable (snd (attemptRecovery_pass (registerDefaultStrategies onRecover)
                        error w))
  | reachable_trigger (w : ARWorld) (onRecover : option (nat -> Outcome)) :
      reachable w ->
      reachable (snd (triggerRecovery (registerDefaultStrategies onRecover) w))
  | reachable_reset (w : ARWorld) :
      reachable w -> reachable (snd (reset w)).


(** The state [handleFailure] leaves when it does not start a recovery
    pass, a pass being in flight already. *)
Definition failure_state (ar : AutoRecovery) : RecoveryStates :=
  if failureThreshold ar <=? failureCount ar + 1 then FAILED
  else if RecoveryStates_eqb (state ar) HEALTHY then DEGRADED
  else state ar.

(** The bookkeeping every operation keeps. *)
Definition consistent (ar : AutoRecovery) : Prop :=
  retryCount ar = 0 /\
  0 <= failureCount ar /\ 0 <= successCount ar /\
  (failureCount ar = 0 \/ successCount ar = 0) /\
  (state ar = HEALTHY -> failureCount ar = 0) /\
  (length (stateHistory (metrics ar)) <= 100)%nat /\
  0 <= totalRecoveries (metrics ar) <= totalRetries (metrics ar) /\
  failureCount ar <= totalFailures (metrics ar) /\
  0 <= healthCheckSuccesses (metrics ar) /\
  0 <= healthCheckFailures (metrics ar).

End AutoRecovery.

(** ** The user service (services/user)

    The in-memory store of users behind the routes, with the simulated
    delays and failures every operation starts with.  [uuidv4()] and the
    result of [parseInt] are inputs; the fields of a request body and of a
    query are strings when they are present. *)

Module UserService.
Import JS.

Record User : Type := mkUser {
  id : string;
  name : string;
  email : string;
  status : string;
  createdAt : option Z;
  updatedAt : option Z
}.

(** An [Error] with the [statusCode] the service may attach to it. *)
Record HttpError : Type := mkHttpError {
  message : string;
  statusCode : option Z
}.

Inductive Result (A : Type) : Type :=
  | Ok (a : A)
  | Raise (e : HttpError).
Arguments Ok {A} a.
Arguments Raise {A} e.

(** [this.users]: a [Map], which iterates in the order in which the keys
    were first inserted. *)
Definition Users : Type := list (string * User).

Fixpoint Map_get (k : string) (m : Users) : option User :=
  match m with
  | [] => None
  | (k', u) :: m' => if String.eqb k' k then Some u else Map_get k m'
  end.

Definition Map_has (k : string) (m : Users) : bool :=
  match Map_get k m with Some _ => true | None => false end.

(** [Map.prototype.set]: an existing key keeps its place. *)
Fixpoint Map_set (k : string) (u : User) (m : Users) : Users :=
  match m with
  | [] => [(k, u)]
  | (k', u') :: m' =>
      if String.eqb k' k then (k, u) :: m' else (k', u') :: Map_set k u m'
  end.

Fixpoint Map_delete (k : string) (m : Users) : Users :=
  match m with
  | [] => []
  | (k', u') :: m' =>
      if String.eqb k' k then m' else (k', u') :: Map_delete k m'
  end.

Definition Map_values (m : Users) : list User := map snd m.

Record Service : Type := mkService {
  users : Users;
  isHealthy : bool;
  simulateFailures : bool;
  failureRate : Q;          (* config.demo.failureRate *)
  slowRequestRate : Q;      (* config.demo.slowRequestRate *)
  slowRequestDelay : Q      (* config.demo.slowRequestDelay *)
}.

(** The service with the clock and the random source it reads and the
    delays it has asked [setTimeout] for, latest first. *)
Record World : Type := mkWorld {
  this : Service;
  rt : Runtime;
  timeouts : list Q
}.

Definition Prog (A : Type) : Type := World -> Result A * World.

Definition ret {A} (a : A) : Prog A := fun w => (Ok a, w).
Definition raise {A} (e : HttpError) : Prog A := fun w => (Raise e, w).
Definition bind {A B} (m : Prog A) (k : A -> Prog B) : Prog B :=
  fun w =>
    match m w with
    | (Ok a, w') => k a w'
    | (Raise e, w') => (Raise e, w')
    end.

Definition self : Prog Service := fun w => (Ok (this w), w).

Definition modify (f : Service -> Service) : Prog unit :=
  fun w => (Ok tt, mkWorld (f (this w)) (rt w) (timeouts w)).

(** [Math.random()] *)
Definition Math_random : Prog Q :=
  fun w =>
    let r := rt w in
    (Ok (random r (draws r)),
     mkWorld (this w)
       (mkRuntime (clock r) (reads r) (random r) (S (draws r)) (slept r) (calls r))
       (timeouts w)).

(** The reading of the clock behind [new Date()]. *)
Definition Date_now : Prog Z :=
  fun w =>
    let r := rt w in
    (Ok (clock r (reads r)),
     mkWorld (this w)
       (mkRuntime (clock r) (S (reads r)) (random r) (draws r) (slept r) (calls r))
       (timeouts w)).

(** [await new Promise(resolve => setTimeout(resolve, ms))] *)
Definition sleep (ms : Q) : Prog unit :=
  fun w => (Ok tt, mkWorld (this w) (rt w) (ms :: timeouts w)).

Definition set_users (x : Users) (s : Service) : Service :=
  mkService x (isHealthy s) (simulateFailures s) (failureRate s)
    (slowRequestRate s) (slowRequestDelay s).
Definition set_isHealthy (x : bool) (s : Service) : Service :=
  mkService (users s) x (simulateFailures s) (failureRate s)
    (slowRequestRate s) (slowRequestDelay s).
Definition set_simulateFailures (x : bool) (s : Service) : Service :=
  mkService (users s) (isHealthy s) x (failureRate s)
    (slowRequestRate s) (slowRequestDelay s).

(** Truthiness of a field that is a string when present: a missing field
    and the empty string are falsy. *)
Definition truthy (x : option string) : bool :=
  match x with
  | Some s => negb (String.eqb s "")
  | None => false
  end.

(** [x || d] for such a field. *)
Definition or_else (x : option string) (d : string) : string :=
  match x with
  | Some s => if String.eqb s "" then d else s
  | None => d
  end.

(** [initializeSampleData()] *)
Definition sampleUsers : list User :=
  [ mkUser "1" "John Doe" "john@example.com" "active" None None;
    mkUser "2" "Jane Smith" "jane@example.com" "active" None None;
    mkUser "3" "Bob Johnson" "bob@example.com" "inactive" None None;
    mkUser "4" "Alice Brown" "alice@example.com" "active" None None;
    mkUser "5" "Charlie Wilson" "charlie@example.com" "pending" None None ].

Definition initializeSampleData (m : Users) : Users :=
  foldl (fun m user => Map_set (id user) user m) m sampleUsers.

(** The fields the constructor sets. *)
Definition constructor (failureRate slowRequestRate slowRequestDelay : Q) : Service :=
  mkService (initializeSampleData []) true false
    failureRate slowRequestRate slowRequestDelay.

(** [a < b] on numbers. *)
Definition Qlt_bool (a b : Q) : bool := negb (Qle_bool b a).

(** [simulateProcessingTime()] *)
Definition simulateProcessingTime : Prog unit :=
  bind Math_random (fun r =>
  bind (sleep (r * 100 + 50)%Q) (fun _ =>
  bind Math_random (fun r' =>
  bind self (fun s =>
  if Qlt_bool r' (slowRequestRate s)
  then sleep (slowRequestDelay s)
  else ret tt)))).

Definition simulatedFailure : HttpError :=
  mkHttpError "Simulated user service failure" None.

(** [checkForSimulatedFailures()] *)
Definition checkForSimulatedFailures : Prog unit :=
  bind self (fun s =>
  if simulateFailures s then raise simulatedFailure
  else
    bind Math_random (fun r =>
    if Qlt_bool r (failureRate s) then raise simulatedFailure else ret tt)).

Definition notFound (userId : string) : HttpError :=
  mkHttpError ("User with ID " +:+ userId +:+ " not found") (Some 404).

(** [getUser(userId)]: the user and the time stamp. *)
Definition getUser (userId : string) : Prog (User * Z) :=
  bind simulateProcessingTime (fun _ =>
  bind checkForSimulatedFailures (fun _ =>
  bind self (fun s =>
  match Map_get userId (users s) with
  | None => raise (notFound userId)
  | Some user => bind Date_now (fun t => ret (user, t))
  end))).

(** The body of a request to create or update a user. *)
Record UserData : Type := mkUserData {
  d_name : option string;
  d_email : option string;
  d_status : option string
}.

(** [createUser(userData)]; [uuid] is what [uuidv4()] answers. *)
Definition createUser (userData : UserData) (uuid : string)
  : Prog (User * string) :=
  bind simulateProcessingTime (fun _ =>
  bind checkForSimulatedFailures (fun _ =>
  if negb (truthy (d_name userData)) || negb (truthy (d_email userData))
  then raise (mkHttpError "Name and email are required" (Some 400))
  else
    bind self (fun s =>
    match find (fun user => String.eqb (email user) (default "" (d_email userData)))
               (Map_values (users s)) with
    | Some _ => raise (mkHttpError "User with this email already exists" (Some 409))
    | None =>
        bind Date_now (fun t1 =>
        bind Date_now (fun t2 =>
        let user :=
          mkUser uuid (default "" (d_name userData)) (default "" (d_email userData))
            (or_else (d_status userData) "active") (Some t1) (Some t2) in
        bind (modify (fun s => set_users (Map_set (id user) user (users s)) s))
          (fun _ => ret (user, "User created successfully"))))
    end))).

(** [updateUser(userId, updateData)] *)
Definition updateUser (userId : string) (updateData : UserData)
  : Prog (User * string) :=
  bind simulateProcessingTime (fun _ =>
  bind checkForSimulatedFailures (fun _ =>
  bind self (fun s =>
  match Map_get userId (users s) with
  | None => raise (notFound userId)
  | Some old =>
      bind Date_now (fun t =>
      let user :=
        mkUser (id old)
          (or_else (d_name updateData) (name old))
          (or_else (d_email updateData) (email old))
          (or_else (d_status updateData) (status old))
          (createdAt old) (Some t) in
      bind (modify (fun s => set_users (Map_set userId user (users s)) s))
        (fun _ => ret (user, "User updated successfully")))
  end))).

(** [deleteUser(userId)] *)
Definition deleteUser (userId : string) : Prog (string * User) :=
  bind simulateProcessingTime (fun _ =>
  bind checkForSimulatedFailures (fun _ =>
  bind self (fun s =>
  match Map_get userId (users s) with
  | None => raise (notFound userId)
  | Some user =>
      bind (modify (fun s => set_users (Map_delete userId (users s)) s))
        (fun _ => ret ("User deleted successfully", user))
  end))).

(** The query of [GET /users].  [q_page] and [q_limit] are what [parseInt]
    makes of the parameters: [None] is [NaN]. *)
Record Query : Type := mkQuery {
  q_status : option string;
  q_search : option string;
  q_page : option Z;
  q_limit : option Z
}.

(** [parseInt(x) || d]: [NaN] and [0] take the default. *)
Definition int_or (x : option Z) (d : Z) : Z :=
  match x with
  | Some n => if n =? 0 then d else n
  | None => d
  end.

(** An index of [Array.prototype.slice], clamped: a negative index counts
    from the end. *)
Definition relative_index (len i : Z) : Z :=
  if i <? 0 then Z.max (len + i) 0 else Z.min i len.

(** [array.slice(start, end)] *)
Definition Array_slice {A} (start stop : Z) (l : list A) : list A :=
  let len := Z.of_nat (length l) in
  let k := relative_index len start in
  let final := relative_index len stop in
  take (Z.to_nat (final - k)) (drop (Z.to_nat k) l).

Record Pagination : Type := mkPagination {
  page : Z;
  limit : Z;
  total : Z;
  pages : Z
}.

(** The filters of [listUsers]: by status, then by search term in the
    name or the e-mail; [toLowerCase] is the method of strings. *)
Definition applyFilters (toLowerCase : string -> string) (query : Query)
    (all : list User) : list User :=
  let byStatus :=
    if truthy (q_status query)
    then List.filter
           (fun user => String.eqb (status user) (default "" (q_status query))) all
    else all in
  if truthy (q_search query)
  then
    let searchTerm := toLowerCase (default "" (q_search query)) in
    List.filter
      (fun user =>
         Bulkhead.includes searchTerm (toLowerCase (name user))
         || Bulkhead.includes searchTerm (toLowerCase (email user)))
      byStatus
  else byStatus.

(** [listUsers(query)] *)
Definition listUsers (toLowerCase : string -> string) (query : Query)
  : Prog (list User * Pagination * Z) :=
  bind simulateProcessingTime (fun _ =>
  bind checkForSimulatedFailures (fun _ =>
  bind self (fun s =>
  let found := applyFilters toLowerCase query (Map_values (users s)) in
  let page := int_or (q_page query) 1 in
  let limit := int_or (q_limit query) 10 in
  let startIndex := (page - 1) * limit in
  let endIndex := startIndex + limit in
  let paginatedUsers := Array_slice startIndex endIndex found in
  bind Date_now (fun t =>
  ret (paginatedUsers,
       mkPagination page limit (Z.of_nat (length found))
         (Qceiling (inject_Z (Z.of_nat (length found)) / inject_Z limit)),
       t))))).

(** [performHealthCheck()]: the number of users and the time stamp. *)
Definition performHealthCheck : Prog (Z * Z) :=
  bind (sleep 100) (fun _ =>
  bind self (fun s =>
  if negb (isHealthy s)
  then raise (mkHttpError "User service is currently unhealthy" None)
  else bind Date_now (fun t => ret (Z.of_nat (length (users s)), t)))).

(** [performRecovery(error)] *)
Definition performRecovery : Prog unit :=
  bind (sleep 2000) (fun _ =>
  bind (modify (set_isHealthy true)) (fun _ =>
  modify (set_simulateFailures false))).

(** The status of the response when a route catches [error]:
    [error.statusCode || 500]. *)
Definition responseStatus (error : HttpError) : Z :=
  match statusCode error with
  | Some c => if c =? 0 then 500 else c
  | None => 500
  end.

(** No failure is simulated for an operation that starts in world [w]:
    the flag is down and the third random number the operation draws is
    not below [failureRate]. *)
Definition runs_clean (w : World) : Prop :=
  simulateFailures (this w) = false /\
  (failureRate (this w) <= random (rt w) (2 + draws (rt w)))%Q.

(** A failure is simulated for an operation that starts in world [w]:
    the flag is up, or the third random number is below [failureRate]. *)
Definition fails_simulated (w : World) : Prop :=
  simulateFailures (this w) = true \/
  (random (rt w) (2 + draws (rt w)) < failureRate (this w))%Q.

(** The world in which the body of an operation runs, after
    [simulateProcessingTime()] and [checkForSimulatedFailures()]. *)
Definition after_preamble (w : World) : World :=
  snd (checkForSimulatedFailures (snd (simulateProcessingTime w))).

(** The keys of the map are pairwise distinct. *)
Definition keys_distinct (m : Users) : Prop := NoDup (map fst m).

(** Every user is stored under its own id. *)
Definition keyed_by_id (m : Users) : Prop :=
  forall (k : string) (u : User), Map_get k m = Some u -> id u = k.

(** The service as the constructor leaves it, with a failure rate of one
    in ten, a clock that advances 100 ms between two readings and a random
    source that always answers one half. *)
Definition service0 : World :=
  mkWorld (constructor (1 # 10) (1 # 20) 2000)
    (mkRuntime (fun n => Z.of_nat n * 100) 0 (fun _ => 1 # 2) 0 [] 0) [].

(** The same service after [POST /simulate/failure]. *)
Definition service_failing : World :=
  mkWorld (set_isHealthy false (set_simulateFailures true (this service0)))
    (rt service0) [].

(** A [toLowerCase] for strings that have no upper-case letter. *)
Definition lower_id : string -> string := fun s => s.

End UserService.

(** ** Worlds used in the examples *)

Module Examples.
Import JS.

(** A clock that advances 100 ms between two readings, and a random
    source that always answers 0. *)
Definition runtime0 : Runtime :=
  mkRuntime (fun n => Z.of_nat n * 100) 0 (fun _ => 0%Q) 0 [] 0.

Definition always_fails : nat -> Race :=
  fun _ => Settles (Rejected (OpError "boom")).
Definition always_succeeds : nat -> Race :=
  fun _ => Settles (Resolved "ok").

(** A breaker with failureThreshold 3 and resetTimeout 1000. *)
Definition breaker0 : CircuitBreaker.CBWorld :=
  mkWorld (CircuitBreaker.constructor "cb" 3 1000 500 0 0) runtime0 [].

(** The same breaker after three failed calls: OPEN until 2100. *)
Definition breaker_open : CircuitBreaker.CBWorld :=
  snd (CircuitBreaker.execute always_fails
    (snd (CircuitBreaker.execute always_fails
      (snd (CircuitBreaker.execute always_fails breaker0))))).

(** The open breaker once the clock has passed 2100. *)
Definition breaker_open_late : CircuitBreaker.CBWorld :=
  mkWorld (this breaker_open)
    (mkRuntime (fun n => Z.of_nat n * 100) 30 (fun _ => 0%Q) 0 [] 3)
    (emitted breaker_open).

(** A breaker with failureThreshold 1 after one successful call. *)
Definition breaker_one_success : CircuitBreaker.CBWorld :=
  snd (CircuitBreaker.execute always_succeeds
    (mkWorld (CircuitBreaker.constructor "cb" 1 1000 500 0 0) runtime0 [])).

(** A bulkhead with maxConcurrent 2 and maxQueueSize 2. *)
Definition bulkhead0 : Bulkhead.BWorld :=
  mkWorld (Bulkhead.new_store (Bulkhead.constructor "bh" 2 2 1000 5000))
    runtime0 [].

(** The same bulkhead after four submissions: two tasks running, two
    queued. *)
Definition bulkhead_full : Bulkhead.BWorld :=
  Bulkhead.run bulkhead0
    [Bulkhead.Submit "a" 1; Bulkhead.Submit "b" 2;
     Bulkhead.Submit "c" 3; Bulkhead.Submit "d" 4].

(** An AutoRecovery with the configuration of the test suite: maxRetries
    3, maxDelay 1000, backoffMultiplier 2, and the default initialDelay of
    1000 (the option the tests pass, [baseDelay], is not one the
    constructor reads). *)
Definition recovery0 : AutoRecovery.ARWorld :=
  mkWorld (AutoRecovery.constructor "ar" 3 0 1000 2 0 0 0) runtime0 [].

Definition fails_twice : nat -> Outcome :=
  fun n => if (n <? 2)%nat then Rejected (OpError "boom") else Resolved "ok".

Definition healthy_probe : nat -> Outcome := fun _ => Resolved "up".

(** The same AutoRecovery after a health check has failed: DEGRADED and
    then RECOVERING. *)
Definition recovery_degraded : AutoRecovery.ARWorld :=
  snd (AutoRecovery.performHealthCheck
         (fun _ => Rejected (OpError "down")) recovery0).

End Examples.

(** * Proofs *)

(** ** Rules for running programs of the monad *)

Section WpRules.
Import JS.
Context {S Ev : Type}.
Implicit Types (w : World S Ev).

Lemma wp_ret {A} (a : A) (Q : Completion A -> World S Ev -> Prop) w :
  Q (Normal a) w -> wp (ret a) Q w.
Proof. exact id. Qed.

Lemma wp_throw {A} (e : Error) (Q : Completion A -> World S Ev -> Prop) w :
  Q (Abrupt e) w -> wp (throw e) Q w.
Proof. exact id. Qed.

Lemma wp_bind {A B} (m : M S Ev A) (k : A -> M S Ev B) Q w :
  wp m (fun c w' =>
          match c with
          | Normal a => wp (k a) Q w'
          | Abrupt e => Q (Abrupt e) w'
          end) w ->
  wp (bind m k) Q w.
Proof. unfold wp, bind. destruct (m w) as [[a|e] w']; exact id. Qed.

Lemma wp_try_catch {A} (body : M S Ev A) (handler : Error -> M S Ev A) Q w :
  wp body (fun c w' =>
             match c with
             | Normal a => Q (Normal a) w'
             | Abrupt e => wp (handler e) Q w'
             end) w ->
  wp (try_catch body handler) Q w.
Proof. unfold wp, try_catch. destruct (body w) as [[a|e] w']; exact id. Qed.

Lemma wp_try_finally {A} (body : M S Ev A) (cleanup : M S Ev unit) Q w :
  wp body (fun c w' =>
             wp cleanup (fun c' w'' =>
                           match c' with
                           | Normal _ => Q c w''
                           | Abrupt e => Q (Abrupt e) w''
                           end) w') w ->
  wp (try_finally body cleanup) Q w.
Proof.
  unfold wp, try_finally. destruct (body w) as [c w']. cbn.
  destruct (cleanup w') as [[u|e] w'']; exact id.
Qed.

Lemma wp_self (Q : Completion S -> World S Ev -> Prop) w :
  Q (Normal (this w)) w -> wp self Q w.
Proof. exact id. Qed.

Lemma wp_modify (f : S -> S) (Q : Completion unit -> World S Ev -> Prop) w :
  Q (Normal tt) (mkWorld (f (this w)) (rt w) (emitted w)) -> wp (modify f) Q w.
Proof. exact id. Qed.

Lemma wp_emit (ev : Ev) (Q : Completion unit -> World S Ev -> Prop) w :
  Q (Normal tt) (mkWorld (this w) (rt w) (ev :: emitted w)) -> wp (emit ev) Q w.
Proof. exact id. Qed.

Lemma wp_Date_now (Q : Completion Z -> World S Ev -> Prop) w :
  Q (Normal (clock (rt w) (reads (rt w))))
    (mkWorld (this w)
       (mkRuntime (clock (rt w)) (Datatypes.S (reads (rt w))) (random (rt w))
          (draws (rt w)) (slept (rt w)) (calls (rt w)))
       (emitted w)) ->
  wp Date_now Q w.
Proof. exact id. Qed.

Lemma wp_Math_random (Q : Completion Q -> World S Ev -> Prop) w :
  Q (Normal (random (rt w) (draws (rt w))))
    (mkWorld (this w)
       (mkRuntime (clock (rt w)) (reads (rt w)) (random (rt w))
          (Datatypes.S (draws (rt w))) (slept (rt w)) (calls (rt w)))
       (emitted w)) ->
  wp Math_random Q w.
Proof. exact id. Qed.

Lemma wp_sleep (ms : Z) (Q : Completion unit -> World S Ev -> Prop) w :
  Q (Normal tt)
    (mkWorld (this w)
       (mkRuntime (clock (rt w)) (reads (rt w)) (random (rt w))
          (draws (rt w)) (ms :: slept (rt w)) (calls (rt w)))
       (emitted w)) ->
  wp (sleep ms) Q w.
Proof. exact id. Qed.

Lemma wp_invoke {R} (fn : nat -> R) (Q : Completion R -> World S Ev -> Prop) w :
  Q (Normal (fn (calls (rt w))))
    (mkWorld (this w)
       (mkRuntime (clock (rt w)) (reads (rt w)) (random (rt w))
          (draws (rt w)) (slept (rt w)) (Datatypes.S (calls (rt w))))
       (emitted w)) ->
  wp (invoke fn) Q w.
Proof. exact id. Qed.

Lemma wp_await (o : Outcome) (Q : Completion Value -> World S Ev -> Prop) w :
  match o with
  | Resolved v => Q (Normal v) w
  | Rejected e => Q (Abrupt e) w
  end ->
  wp (await o) Q w.
Proof. destruct o; exact id. Qed.

Lemma wp_conseq {A} (m : M S Ev A) (Q Q' : Completion A -> World S Ev -> Prop) w :
  wp m Q w -> (forall c w', Q c w' -> Q' c w') -> wp m Q' w.
Proof. unfold wp. auto. Qed.

Lemma wp_run {A} (m : M S Ev A) (Q : Completion A -> World S Ev -> Prop) w :
  wp m Q w -> Q (fst (m w)) (snd (m w)).
Proof. exact id. Qed.
End WpRules.

(** One step of symbolic execution of a program under [wp]. *)
Ltac wp_prim :=
  lazymatch goal with
  | |- JS.wp (JS.bind _ _) _ _ => apply wp_bind
  | |- JS.wp (JS.ret _) _ _ => apply wp_ret
  | |- JS.wp (JS.throw _) _ _ => apply wp_throw
  | |- JS.wp (JS.try_catch _ _) _ _ => apply wp_try_catch
  | |- JS.wp (JS.try_finally _ _) _ _ => apply wp_try_finally
  | |- JS.wp JS.self _ _ => apply wp_self
  | |- JS.wp (JS.modify _) _ _ => apply wp_modify
  | |- JS.wp (JS.emit _) _ _ => apply wp_emit
  | |- JS.wp JS.Date_now _ _ => apply wp_Date_now
  | |- JS.wp JS.Math_random _ _ => apply wp_Math_random
  | |- JS.wp (JS.sleep _) _ _ => apply wp_sleep
  | |- JS.wp (JS.invoke _) _ _ => apply wp_invoke
  | |- JS.wp (JS.await _) _ _ => apply wp_await
  end.


(** ** CircuitBreaker *)

(** Turn a goal about [fst (m w)] and [snd (m w)] into a [wp] goal. *)
Ltac by_wp m w :=
  pattern (fst (m w)), (snd (m w));
  lazymatch goal with
  | |- ?Q _ _ => change (JS.wp m Q w)
  end.

Section CircuitBreakerProofs.
Import JS CircuitBreaker.

Ltac cb_simpl :=
  cbn [this rt emitted clock reads random draws slept calls fst snd negb andb
       Nat.add Nat.pred
       name failureThreshold resetTimeout timeout monitoringPeriod state
       failureCount successCount nextAttempt metrics
       set_state set_failureCount set_successCount set_nextAttempt set_metrics
       totalRequests totalFailures totalSuccesses totalTimeouts
       totalCircuitBreakerOpens averageResponseTime lastFailureTime
       lastSuccessTime stateHistory
       incr_totalRequests incr_totalFailures incr_totalSuccesses
       incr_totalTimeouts incr_totalCircuitBreakerOpens set_averageResponseTime
       set_lastFailureTime set_lastSuccessTime set_stateHistory
       States_eqb] in *.

Ltac split_if b :=
  lazymatch b with
  | (?x <? ?y)%Z => destruct (Z.ltb_spec0 x y)
  | (?x <=? ?y)%Z => destruct (Z.leb_spec0 x y)
  | _ => destruct b eqn:?
  end.

Ltac cb_step :=
  first
    [ wp_prim
    | lazymatch goal with
      | |- wp (if ?b then _ else _) _ _ => split_if b; try (exfalso; lia)
      | |- wp (match ?r with Settles _ => _ | TimerFires => _ end) _ _ =>
          destruct r as [[?|?]|] eqn:?
      | |- wp (setState _) _ _ => unfold setState
      | |- wp openCircuit _ _ => unfold openCircuit
      | |- wp (onSuccess _) _ _ => unfold onSuccess
      | |- wp (onFailure _ _) _ _ => unfold onFailure
      | |- wp (updateAverageResponseTime _) _ _ =>
          unfold updateAverageResponseTime
      | |- wp (executeWithTimeout _) _ _ => unfold executeWithTimeout
      | |- wp (execute _) _ _ => unfold execute
      | |- wp reset _ _ => unfold reset
      end ];
  cb_simpl.

Ltac cb_start w :=
  let cb := fresh "cb" in
  destruct w as [cb ? ?]; destruct cb as [? ? ? ? ? [] ? ? ? []];
  unfold raised_in_try in *; unfold time_at, last_reading in *; cb_simpl; subst.

(** [setState] changes the state and the history, nothing else. *)
Lemma setState_fields (s : States) (w : CBWorld) :
  let w' := snd (setState s w) in
  fst (setState s w) = Normal tt /\
  state (this w') = s /\
  failureCount (this w') = failureCount (this w) /\
  successCount (this w') = successCount (this w) /\
  nextAttempt (this w') = nextAttempt (this w) /\
  failureThreshold (this w') = failureThreshold (this w) /\
  calls (rt w') = calls (rt w).
Proof.
  by_wp (setState s) w. cb_start w; destruct s;
    repeat cb_step; repeat split; reflexivity.
Qed.

(** C1. A breaker that is OPEN, called at a time before [nextAttempt],
    fails at once with the fail-fast error: the wrapped operation is not
    invoked and nothing is waited for.  (Of the readings of the clock that
    [execute] takes, the first is [startTime] and the second, [time_at w 1],
    is the one compared with [nextAttempt].) *)
Theorem cb_open_fails_fast (w : CBWorld) (fn : nat -> Race) :
  state (this w) = OPEN ->
  time_at w 1 < nextAttempt (this w) ->
  fst (execute fn w) = Abrupt (CircuitOpenError (name (this w))) /\
  calls (rt (snd (execute fn w))) = calls (rt w) /\
  slept (rt (snd (execute fn w))) = slept (rt w).
Proof.
  intros Hs Ht. by_wp (execute fn) w.
  cb_start w; try discriminate. repeat cb_step; auto.
Qed.

Lemma cb_open_fails_fast_witness :
  fst (execute Examples.always_fails Examples.breaker_open)
    = Abrupt (CircuitOpenError "cb") /\
  calls (rt (snd (execute Examples.always_fails Examples.breaker_open))) = 3%nat /\
  slept (rt (snd (execute Examples.always_fails Examples.breaker_open))) = [].
Proof.
  apply (cb_open_fails_fast Examples.breaker_open Examples.always_fails).
  - reflexivity.
  - vm_compute. reflexivity.
Defined.





(** C9, as the code has it.  No change of state touches the counter of
    successes: [setState] and [openCircuit] leave it as it is, a failed
    call leaves it as it is, a successful call adds one to it (also when
    it closes a HALF_OPEN breaker), and only [reset] sets it to 0. *)
Theorem cb_success_counter_only_reset_by_reset
    (w : CBWorld) (s : States) (fn : nat -> Race) :
  successCount (this (snd (setState s w))) = successCount (this w) /\
  successCount (this (snd (openCircuit w))) = successCount (this w) /\
  successCount (this (snd (execute fn w))) =
    successCount (this w) +
    match fst (execute fn w) with Normal _ => 1 | Abrupt _ => 0 end /\
  successCount (this (snd (reset w))) = 0.
Proof.
  repeat split.
  - by_wp (setState s) w. cb_start w; destruct s; repeat cb_step; reflexivity.
  - by_wp openCircuit w. cb_start w; repeat cb_step; reflexivity.
  - by_wp (execute fn) w. cb_start w; repeat cb_step; lia.
  - by_wp reset w. cb_start w; repeat cb_step; reflexivity.
Qed.

(** C9, as the spec has it, fails: a CLOSED breaker with one success on
    its counter is opened by a failed call and the counter still reads 1;
    an OPEN breaker closed by a successful probe ends with the counter at
    1, not 0. *)
Lemma cb_success_counter_survives_state_change :
  state (this Examples.breaker_one_success) = CLOSED /\
  successCount (this Examples.breaker_one_success) = 1 /\
  state (this (snd (execute Examples.always_fails Examples.breaker_one_success)))
    = OPEN /\
  successCount
    (this (snd (execute Examples.always_fails Examples.breaker_one_success))) = 1 /\
  state (this Examples.breaker_open_late) = OPEN /\
  state (this (snd (execute Examples.always_succeeds Examples.breaker_open_late)))
    = CLOSED /\
  successCount
    (this (snd (execute Examples.always_succeeds Examples.breaker_open_late))) = 1.
Proof. vm_compute. repeat split; reflexivity. Qed.




Lemma slice_last_length {A} (n : nat) (l : list A) :
  (length (slice_last n l) <= n)%nat.
Proof. unfold slice_last. rewrite length_drop. lia. Qed.

Ltac history_done :=
  repeat match goal with
    | H : (_ <? _)%nat = false |- _ => apply Nat.ltb_ge in H
    | H : (_ <? _)%nat = true |- _ => apply Nat.ltb_lt in H
    end;
  first [ assumption | apply slice_last_length | cbn [length]; lia ].

(** X1.  The history of state changes is a window of the last 100: in
    every breaker reached from the constructor by calls of [execute] and
    [reset], [metrics.stateHistory] holds at most 100 entries. *)
Theorem cb_history_bounded (w : CBWorld) :
  reachable w -> (length (stateHistory (metrics (this w))) <= 100)%nat.
Proof.
  induction 1 as [n ft rto to mp now r | w fn Hw IH | w Hw IH].
  - cbn. lia.
  - revert IH. by_wp (execute fn) w.
    cb_start w; repeat cb_step; intros IH; history_done.
  - revert IH. by_wp reset w.
    cb_start w; repeat cb_step; intros IH; history_done.
Qed.

(** X2.  Between calls every request has been counted once, as a success
    or as a failure: [totalRequests = totalSuccesses + totalFailures]; the
    timeouts and the openings of the circuit are each at most the
    failures, and no total is negative. *)
Theorem cb_request_accounting (w : CBWorld) :
  reachable w ->
  let m := metrics (this w) in
  totalRequests m = totalSuccesses m + totalFailures m /\
  0 <= totalSuccesses m /\
  0 <= totalTimeouts m <= totalFailures m /\
  0 <= totalCircuitBreakerOpens m <= totalFailures m.
Proof.
  cbv zeta.
  induction 1 as [n ft rto to mp now r | w fn Hw IH | w Hw IH].
  - cbn. lia.
  - revert IH. by_wp (execute fn) w.
    cb_start w; repeat cb_step; intros IH; lia.
  - revert IH. by_wp reset w.
    cb_start w; repeat cb_step; intros IH; lia.
Qed.

(** The configuration is set by the constructor and no call changes it. *)
Lemma execute_config (fn : nat -> Race) (w : CBWorld) :
  let w' := snd (execute fn w) in
  name (this w') = name (this w) /\
  failureThreshold (this w') = failureThreshold (this w) /\
  resetTimeout (this w') = resetTimeout (this w) /\
  timeout (this w') = timeout (this w) /\
  monitoringPeriod (this w') = monitoringPeriod (this w) /\
  clock (rt w') = clock (rt w).
Proof.
  cbv zeta. by_wp (execute fn) w.
  cb_start w; repeat cb_step; repeat split; reflexivity.
Qed.

Lemma reset_config (w : CBWorld) :
  let w' := snd (reset w) in
  name (this w') = name (this w) /\
  failureThreshold (this w') = failureThreshold (this w) /\
  resetTimeout (this w') = resetTimeout (this w) /\
  timeout (this w') = timeout (this w) /\
  monitoringPeriod (this w') = monitoringPeriod (this w) /\
  clock (rt w') = clock (rt w).
Proof.
  cbv zeta. by_wp reset w.
  cb_start w; repeat cb_step; repeat split; reflexivity.
Qed.

Lemma or_default_nonzero (x d : Z) : d <> 0 -> or_default x d <> 0.
Proof. unfold or_default. destruct (Z.eqb_spec x 0); auto. Qed.

(** The options of the configuration are never 0 or empty: the
    constructor replaces such a value by its default. *)
Lemma cb_config_never_zero (w : CBWorld) :
  reachable w ->
  name (this w) <> "" /\
  failureThreshold (this w) <> 0 /\
  resetTimeout (this w) <> 0 /\
  timeout (this w) <> 0 /\
  monitoringPeriod (this w) <> 0.
Proof.
  induction 1 as [n ft rto to mp now r | w fn Hw IH | w Hw IH].
  - cbn. repeat split; try (apply or_default_nonzero; discriminate).
    destruct (String.eqb_spec n ""); [discriminate | assumption].
  - destruct (execute_config fn w) as (-> & -> & -> & -> & -> & _). exact IH.
  - destruct (reset_config w) as (-> & -> & -> & -> & -> & _). exact IH.
Qed.







(** X5.  A call whose operation outlasts the timer of the call, and that
    an OPEN breaker does not reject, fails with the timeout error, counts
    as one timeout and as one failure, and opens the breaker exactly when
    the counter of consecutive failures thereby reaches
    [failureThreshold]; a probe that times out does not close the
    breaker. *)
Theorem cb_timeout_is_failure (w : CBWorld) (fn : nat -> Race) :
  fn (calls (rt w)) = TimerFires ->
  state (this w) <> OPEN \/ nextAttempt (this w) <= time_at w 1 ->
  let w' := snd (execute fn w) in
  fst (execute fn w) =
    Abrupt (CallTimeoutError (name (this w)) (timeout (this w))) /\
  totalTimeouts (metrics (this w')) = totalTimeouts (metrics (this w)) + 1 /\
  totalFailures (metrics (this w')) = totalFailures (metrics (this w)) + 1 /\
  totalSuccesses (metrics (this w')) = totalSuccesses (metrics (this w)) /\
  failureCount (this w') = failureCount (this w) + 1 /\
  successCount (this w') = successCount (this w) /\
  (failureThreshold (this w) <= failureCount (this w) + 1 <->
   state (this w') = OPEN) /\
  (state (this w) = OPEN -> state (this w') <> CLOSED).
Proof.
  intros Hfn Hs. cbv zeta. by_wp (execute fn) w.
  cb_start w; repeat cb_step; try congruence;
    try (destruct Hs as [Hs|Hs]; [exfalso; apply Hs; reflexivity | exfalso; lia]);
    repeat split; try reflexivity; try lia; try discriminate; intros; try lia;
    try discriminate.
Qed.

Lemma cb_timeout_is_failure_witness :
  let fn : nat -> Race := fun _ => TimerFires in
  let w := Examples.breaker0 in
  let w' := snd (execute fn w) in
  fst (execute fn w) = Abrupt (CallTimeoutError "cb" 500) /\
  totalTimeouts (metrics (this w')) = 0 + 1 /\
  totalFailures (metrics (this w')) = 0 + 1 /\
  totalSuccesses (metrics (this w')) = 0 /\
  failureCount (this w') = 0 + 1 /\
  successCount (this w') = 0 /\
  (3 <= 0 + 1 <-> state (this w') = OPEN) /\
  (state (this w) = OPEN -> state (this w') <> CLOSED).
Proof.
  cbv zeta.
  apply (cb_timeout_is_failure Examples.breaker0 (fun _ => TimerFires)).
  - reflexivity.
  - left. vm_compute. discriminate.
Defined.








Lemma breaker_open_reachable : reachable Examples.breaker_open.
Proof.
  unfold Examples.breaker_open, Examples.breaker0.
  repeat apply reachable_execute. apply reachable_new.
Defined.

Lemma cb_history_bounded_witness :
  (length (stateHistory (metrics (this Examples.breaker_open))) <= 100)%nat.
Proof. exact (cb_history_bounded Examples.breaker_open breaker_open_reachable). Defined.

Lemma cb_request_accounting_witness :
  let m := metrics (this Examples.breaker_open) in
  totalRequests m = totalSuccesses m + totalFailures m /\
  0 <= totalSuccesses m /\
  0 <= totalTimeouts m <= totalFailures m /\
  0 <= totalCircuitBreakerOpens m <= totalFailures m.
Proof. exact (cb_request_accounting Examples.breaker_open breaker_open_reachable). Defined.


End CircuitBreakerProofs.

(** ** AutoRecovery *)

Section AutoRecoveryProofs.
Import JS AutoRecovery.

Ltac ar_simpl :=
  cbn [this rt emitted clock reads random draws slept calls fst snd negb andb
       Nat.add Nat.pred default
       name maxRetries initialDelay maxDelay backoffMultiplier
       healthCheckInterval failureThreshold recoveryThreshold state
       failureCount successCount retryCount lastHealthCheck isRecovering metrics
       set_state set_failureCount set_successCount set_retryCount
       set_lastHealthCheck set_isRecovering set_metrics upd_metrics
       totalFailures totalRecoveries totalRetries averageRecoveryTime
       longestOutage currentOutageStart healthCheckSuccesses
       healthCheckFailures stateHistory
       set_totalFailures set_totalRecoveries set_totalRetries
       set_averageRecoveryTime set_longestOutage set_currentOutageStart
       set_healthCheckSuccesses set_healthCheckFailures set_stateHistory
       RecoveryStates_eqb truthy logged guard_cleared] in *.

Ltac split_if b :=
  lazymatch b with
  | (?x <? ?y)%Z => destruct (Z.ltb_spec0 x y)
  | (?x <=? ?y)%Z => destruct (Z.leb_spec0 x y)
  | (_ && (?x <=? ?y)%Z)%bool => destruct (Z.leb_spec0 x y)
  | _ => destruct b eqn:?
  end.

Ltac ar_step :=
  first
    [ lazymatch goal with
      | |- wp (await ?o) _ _ =>
          match goal with H : o = _ |- _ => rewrite H end; apply wp_await
      end
    | wp_prim
    | lazymatch goal with
      | |- wp (if ?b then _ else _) _ _ => split_if b; try (exfalso; lia)
      | |- wp (match ?o with Some _ => _ | None => _ end) _ _ =>
          destruct o eqn:?
      | |- wp (setState _) _ _ => unfold setState
      | |- wp startOutage _ _ => unfold startOutage
      | |- wp endOutage _ _ => unfold endOutage
      | |- wp (updateAverageRecoveryTime _) _ _ => unfold updateAverageRecoveryTime
      | |- wp onSuccess _ _ => unfold onSuccess
      | |- wp (handleRecoverySuccess _) _ _ => unfold handleRecoverySuccess
      | |- wp (calculateDelay _) _ _ => unfold calculateDelay
      | |- wp (delay _) _ _ => unfold delay
      | |- wp attemptRecovery_enter _ _ => unfold attemptRecovery_enter
      | |- wp (handleFailure _) _ _ => unfold handleFailure
      | |- wp (performHealthCheck _) _ _ => unfold performHealthCheck
      | |- wp reset _ _ => unfold reset
      end ];
  ar_simpl.

Ltac ar_done :=
  repeat split; try reflexivity; try lia;
  repeat match goal with
    | |- context [if ?b then _ else _] => destruct b
    end;
  try reflexivity; try lia.

Ltac ar_start w :=
  let ar := fresh "ar" in
  destruct w as [ar ? ?]; destruct ar as [? ? ? ? ? ? ? ? [] ? ? ? ? ? []];
  unfold time_at, random_at, last_reading, fails_then_succeeds, counters,
    success_effect, waited in *;
  ar_simpl; subst.

(** The delay computed for an attempt depends on the configuration only. *)
Lemma jittered_same_config (a b : AutoRecovery) (attempt : Z) (rnd : Q) :
  same_config a b -> jittered a attempt rnd = jittered b attempt rnd.
Proof.
  intros (_ & H1 & H2 & H3 & _). unfold jittered, backoff.
  rewrite H1, H2, H3. reflexivity.
Qed.

Lemma waits_from_succ (w w1 : ARWorld) (attempt : Z) (k : nat) :
  same_config (this w1) (this w) ->
  random (rt w1) = random (rt w) ->
  draws (rt w1) = S (draws (rt w)) ->
  waits_from w attempt (S k) =
    jittered (this w) (attempt + 1) (random (rt w) (draws (rt w)))
      :: waits_from w1 (attempt + 1) k.
Proof.
  intros Hc Hr Hd. unfold waits_from. cbn [seq map]. f_equal.
  - unfold random_at. cbn [Nat.add].
    replace (attempt + Z.of_nat 0 + 1) with (attempt + 1) by lia. reflexivity.
  - rewrite <- seq_shift, map_map. apply map_ext. intros i.
    rewrite (jittered_same_config _ _ _ _ Hc). unfold random_at.
    rewrite Hr, Hd. f_equal; [lia | f_equal; lia].
Qed.

(** The retry loop on an operation that fails [k] times and then
    succeeds. *)
Lemma retryLoop_fails_then_succeeds (fn : nat -> Outcome) (v : Value) (k : nat) :
  forall (turns : nat) (attempt : Z) (lastError : option Error) (w : ARWorld),
    (k < turns)%nat ->
    attempt + Z.of_nat k <= maxRetries (this w) ->
    fails_then_succeeds fn w k v ->
    let w' := snd (retryLoop turns fn attempt lastError w) in
    fst (retryLoop turns fn attempt lastError w) = Normal v /\
    calls (rt w') = (k + 1 + calls (rt w))%nat /\
    slept (rt w') = rev (waits_from w attempt k) ++ slept (rt w) /\
    counters (this w') = success_effect (this w) /\
    isRecovering (this w') = isRecovering (this w).
Proof.
  induction k as [|k IH]; intros turns attempt lastError w Hturns Hle Hfn.
  - destruct turns as [|turns]; [lia|]. cbv zeta.
    by_wp (retryLoop (S turns) fn attempt lastError) w.
    destruct Hfn as [_ Hv]. cbn [retryLoop].
    ar_start w; cbn in Hv; repeat ar_step; ar_done.
  - destruct turns as [|turns]; [lia|]. cbv zeta.
    by_wp (retryLoop (S turns) fn attempt lastError) w.
    destruct Hfn as [Hf Hv]. destruct (Hf 0%nat) as [e He]; [lia|].
    cbn [retryLoop].
    ar_start w; cbn in He; repeat ar_step;
    match goal with
    | |- wp (retryLoop _ _ _ _) _ ?w1 =>
        destruct (IH turns (attempt + 1) (Some e) w1) as (R1 & R2 & R3 & R4 & R5);
          [ lia | cbn; lia
          | split;
            [ intros i Hi; destruct (Hf (S i)) as [e' He']; [lia|];
              exists e'; cbn; rewrite <- He'; f_equal; lia
            | cbn; rewrite <- Hv; f_equal; lia ]
          | ];
        unfold wp; rewrite R1, R2, R3, R4, R5;
        erewrite (waits_from_succ _ w1) by (try reflexivity; repeat split)
    end;
    cbn; rewrite <- app_assoc; ar_done.
Qed.








(** A health check that succeeds. *)
Lemma performHealthCheck_success (w : ARWorld) (hc : nat -> Outcome) (v : Value) :
  hc (calls (rt w)) = Resolved v ->
  counters (this (snd (performHealthCheck hc w))) =
    if RecoveryStates_eqb (state (this w)) HEALTHY
    then counters (this w) else success_effect (this w).
Proof.
  intros Hv. by_wp (performHealthCheck hc) w.
  ar_start w; repeat ar_step; ar_done.
Qed.

(** C8, as the code has it.  A call of [executeWithRecovery] that succeeds
    (at once or after retries) resets the failure counter to 0, adds one
    to the success counter and makes the state HEALTHY once that counter
    has reached [recoveryThreshold].  A health check that succeeds has the
    same effect on the counters and the state when the state is not
    HEALTHY; when the state is HEALTHY it leaves them as they are. *)
Theorem ar_health_check_success_effect
    (w : ARWorld) (hc fn : nat -> Outcome) (k : nat) (v v' : Value) :
  hc (calls (rt w)) = Resolved v' ->
  Z.of_nat k <= maxRetries (this w) ->
  fails_then_succeeds fn w k v ->
  counters (this (snd (executeWithRecovery fn w))) = success_effect (this w) /\
  counters (this (snd (performHealthCheck hc w))) =
    if RecoveryStates_eqb (state (this w)) HEALTHY
    then counters (this w)
    else counters (this (snd (executeWithRecovery fn w))).
Proof.
  intros Hhc Hk Hfn.
  assert (E : counters (this (snd (executeWithRecovery fn w)))
              = success_effect (this w)).
  { unfold executeWithRecovery, bind, self. cbn [fst snd].
    destruct (retryLoop_fails_then_succeeds fn v k
                (Z.to_nat (maxRetries (this w) + 1)) 0 None w)
      as (_ & _ & _ & R & _); [lia | lia | exact Hfn | exact R]. }
  split; [exact E|].
  rewrite E. apply (performHealthCheck_success w hc v' Hhc).
Qed.

Lemma ar_health_check_success_effect_witness :
  let w := Examples.recovery_degraded in
  counters (this (snd (executeWithRecovery Examples.fails_twice w)))
    = (RECOVERING, 0, 1, 0) /\
  counters (this (snd (performHealthCheck Examples.healthy_probe w))) =
    counters (this (snd (executeWithRecovery Examples.fails_twice w))).
Proof.
  cbv zeta.
  apply (ar_health_check_success_effect Examples.recovery_degraded
           Examples.healthy_probe Examples.fails_twice 1 "ok" "up").
  - reflexivity.
  - vm_compute. discriminate.
  - split.
    + intros i Hi. exists (OpError "boom").
      destruct i as [|i]; [reflexivity | lia].
    + reflexivity.
Defined.

(** C8, as the spec has it, fails on a HEALTHY object: a successful call
    adds one to the success counter, a successful health check does not. *)
Lemma ar_health_check_skips_counters_when_healthy :
  state (this Examples.recovery0) = HEALTHY /\
  counters (this (snd (executeWithRecovery Examples.healthy_probe
                         Examples.recovery0))) = (HEALTHY, 0, 1, 0) /\
  counters (this (snd (performHealthCheck Examples.healthy_probe
                         Examples.recovery0))) = (HEALTHY, 0, 0, 0).
Proof. vm_compute. repeat split; reflexivity. Qed.



(** The pass on the default registry of the degraded example: the first
    strategy, RETRY, completes and the two others are not invoked. *)
Example ar_recovery_pass_default :
  let w := guard_cleared Examples.recovery_degraded in
  let w' := snd (attemptRecovery (registerDefaultStrategies None)
                   (OpError "down") w) in
  isRecovering (this w') = false /\
  state (this w') = RECOVERING /\
  take 2 (emitted w') = [LogStrategyCompleted "RETRY"; LogStrategyAttempt "RETRY"].
Proof. vm_compute. repeat split; reflexivity. Qed.


(** X7.  With a negative [maxRetries] the loop of [executeWithRecovery]
    is never entered: the operation is not invoked and nothing is waited
    for, [handleFailure] is given an error that was never set, counts a
    failure all the same and raises the TypeError of reading [message] of
    [undefined] before it would start a recovery pass. *)
Theorem ar_negative_maxRetries (w : ARWorld) (fn : nat -> Outcome) :
  maxRetries (this w) < 0 ->
  let w' := snd (executeWithRecovery fn w) in
  fst (executeWithRecovery fn w) =
    Abrupt (OpError "Cannot read properties of undefined (reading 'message')") /\
  calls (rt w') = calls (rt w) /\
  slept (rt w') = slept (rt w) /\
  failureCount (this w') = failureCount (this w) + 1 /\
  successCount (this w') = 0 /\
  totalFailures (metrics (this w')) = totalFailures (metrics (this w)) + 1 /\
  totalRetries (metrics (this w')) = totalRetries (metrics (this w)) /\
  isRecovering (this w') = isRecovering (this w) /\
  state (this w') = failure_state (this w).
Proof.
  intros Hneg. cbv zeta.
  assert (E : executeWithRecovery fn w =
              (handleFailure None ;;; throw (OpError "undefined") : Prog Value) w).
  { unfold executeWithRecovery. unfold bind at 1. unfold self.
    rewrite Z2Nat.nonpos by lia. reflexivity. }
  rewrite E. clear E.
  by_wp (handleFailure None ;;; throw (OpError "undefined") : Prog Value) w.
  unfold failure_state.
  ar_start w; repeat ar_step; ar_done.
Qed.

Lemma ar_negative_maxRetries_witness :
  let w : ARWorld :=
    mkWorld (constructor "ar" (-1) 0 0 0 0 0 0) Examples.runtime0 [] in
  let w' := snd (executeWithRecovery Examples.healthy_probe w) in
  fst (executeWithRecovery Examples.healthy_probe w) =
    Abrupt (OpError "Cannot read properties of undefined (reading 'message')") /\
  calls (rt w') = 0%nat /\
  slept (rt w') = [] /\
  failureCount (this w') = 0 + 1 /\
  successCount (this w') = 0 /\
  totalFailures (metrics (this w')) = 0 + 1 /\
  totalRetries (metrics (this w')) = 0 /\
  isRecovering (this w') = false /\
  state (this w') = DEGRADED.
Proof.
  cbv zeta.
  apply (ar_negative_maxRetries
           (mkWorld (constructor "ar" (-1) 0 0 0 0 0 0) Examples.runtime0 [])
           Examples.healthy_probe).
  vm_compute. reflexivity.
Defined.





(** X9.  [reset] leaves the object HEALTHY with the three counters at 0
    and neither a recovery pass nor an outage in progress; an outage that
    was open is closed and counted into [longestOutage], which never goes
    down; the totals of failures and recoveries are kept, and a recovery
    pass can start at once afterwards. *)
Theorem ar_reset_clears (w : ARWorld) :
  let w' := snd (reset w) in
  fst (reset w) = Normal tt /\
  state (this w') = HEALTHY /\
  failureCount (this w') = 0 /\
  successCount (this w') = 0 /\
  retryCount (this w') = 0 /\
  isRecovering (this w') = false /\
  truthy (currentOutageStart (metrics (this w'))) = false /\
  longestOutage (metrics (this w)) <= longestOutage (metrics (this w')) /\
  (forall start : Z,
      currentOutageStart (metrics (this w)) = Some start -> start <> 0 ->
      time_at w (if RecoveryStates_eqb (state (this w)) HEALTHY then 1 else 2)
        - start <= longestOutage (metrics (this w'))) /\
  totalFailures (metrics (this w')) = totalFailures (metrics (this w)) /\
  totalRecoveries (metrics (this w')) = totalRecoveries (metrics (this w)) /\
  fst (attemptRecovery_enter w') = Normal true.
Proof.
  cbv zeta.
  assert (H : forall w1, isRecovering (this w1) = false ->
                fst (attemptRecovery_enter w1) = Normal true).
  { intros w1 Hg. by_wp attemptRecovery_enter w1.
    ar_start w1; repeat ar_step; reflexivity. }
  cut (let w' := snd (reset w) in
       fst (reset w) = Normal tt /\
       state (this w') = HEALTHY /\
       failureCount (this w') = 0 /\
       successCount (this w') = 0 /\
       retryCount (this w') = 0 /\
       isRecovering (this w') = false /\
       truthy (currentOutageStart (metrics (this w'))) = false /\
       longestOutage (metrics (this w)) <= longestOutage (metrics (this w')) /\
       (forall start : Z,
           currentOutageStart (metrics (this w)) = Some start -> start <> 0 ->
           time_at w (if RecoveryStates_eqb (state (this w)) HEALTHY then 1 else 2)
             - start <= longestOutage (metrics (this w'))) /\
       totalFailures (metrics (this w')) = totalFailures (metrics (this w)) /\
       totalRecoveries (metrics (this w')) = totalRecoveries (metrics (this w))).
  { cbv zeta. intros (R1 & R2 & R3 & R4 & R5 & R6 & R7 & R8 & R9 & R10 & R11).
    repeat split; try assumption. apply H, R6. }
  cbv zeta. by_wp reset w.
  ar_start w; repeat ar_step; repeat split; try reflexivity; try lia;
    try (intros start Hs Hn; inversion Hs; subst; try lia;
         try (exfalso; apply Hn; apply Z.eqb_eq; assumption)).
Qed.





Lemma registerAll_head (k0 : string) (s0 : Strategy)
    (extra : list (string * Strategy)) :
  Forall (fun p => fst p <> k0) extra ->
  forall m : Registry,
    exists rest, registerAll extra ((k0, s0) :: m) = (k0, s0) :: rest.
Proof.
  induction 1 as [|[k s] extra Hk _ IH]; intros m.
  - exists m. reflexivity.
  - cbn [registerAll foldl fst snd]. unfold registerStrategy at 2.
    cbn [Map_set]. cbn [fst] in Hk.
    destruct (String.eqb_spec k0 k) as [->|_]; [contradiction|].
    apply IH.
Qed.

(** X12.  A recovery pass over the default strategies, with whatever
    other strategies have been registered under other names, ends with the
    first one, RETRY: it waits 1000 ms and completes, so neither
    [onRecover] nor the operation is called; the counters are unchanged
    and the pass leaves the state RECOVERING with the guard released. *)
Theorem ar_default_pass_only_retries
    (onRecover : option (nat -> Outcome)) (extra : list (string * Strategy))
    (error : Error) (w : ARWorld) :
  Forall (fun p => fst p <> RETRY) extra ->
  isRecovering (this w) = false ->
  let strategies := registerAll extra (registerDefaultStrategies onRecover) in
  let w' := snd (attemptRecovery strategies error w) in
  fst (attemptRecovery strategies error w) = Normal tt /\
  calls (rt w') = calls (rt w) /\
  slept (rt w') = 1000 :: slept (rt w) /\
  state (this w') = RECOVERING /\
  isRecovering (this w') = false /\
  failureCount (this w') = failureCount (this w) /\
  successCount (this w') = successCount (this w) /\
  emitted w' =
    LogStrategyCompleted RETRY :: LogStrategyAttempt RETRY
      :: (if RecoveryStates_eqb (state (this w)) RECOVERING then emitted w
          else EvStateChanged (state (this w)) RECOVERING (time_at w 1)
                 :: emitted w).
Proof.
  intros Hextra Hg. cbv zeta.
  destruct (registerAll_head RETRY retryStrategy extra Hextra
              [(RESTART, restartStrategy onRecover); (DEGRADE, degradeStrategy)])
    as [rest Hreg].
  change (registerDefaultStrategies onRecover)
    with [(RETRY, retryStrategy); (RESTART, restartStrategy onRecover);
          (DEGRADE, degradeStrategy)].
  rewrite Hreg. clear Hreg Hextra.
  by_wp (attemptRecovery ((RETRY, retryStrategy) :: rest) error) w.
  unfold attemptRecovery, attemptRecovery_pass. cbn [tryStrategies].
  ar_start w;
    repeat (first [ar_step | progress unfold retryStrategy]);
    repeat split; reflexivity.
Qed.

Lemma ar_default_pass_only_retries_witness :
  let strategies :=
    registerAll [("CUSTOM", fun _ : Error => throw (OpError "custom") : Prog unit)]
      (registerDefaultStrategies (Some Examples.healthy_probe)) in
  let w := Examples.recovery0 in
  let w' := snd (attemptRecovery strategies (OpError "down") w) in
  fst (attemptRecovery strategies (OpError "down") w) = Normal tt /\
  calls (rt w') = 0%nat /\
  slept (rt w') = [1000] /\
  state (this w') = RECOVERING /\
  isRecovering (this w') = false /\
  failureCount (this w') = 0 /\
  successCount (this w') = 0 /\
  emitted w' =
    [LogStrategyCompleted RETRY; LogStrategyAttempt RETRY;
     EvStateChanged HEALTHY RECOVERING 100].
Proof.
  cbv zeta.
  apply (ar_default_pass_only_retries (Some Examples.healthy_probe)
           [("CUSTOM", fun _ : Error => throw (OpError "custom") : Prog unit)]
           (OpError "down") Examples.recovery0).
  - repeat constructor. discriminate.
  - reflexivity.
Defined.

Lemma Qeq_bool_inject_Z (z : Z) : Qeq_bool (inject_Z z) 0 = (z =? 0).
Proof.
  unfold Qeq_bool, inject_Z. cbn. rewrite Z.mul_1_r.
  destruct z; reflexivity.
Qed.

(** X13.  [getStats] changes nothing.  Its [successRate] is NaN as long
    as no health check has run (0 / 0) and otherwise the percentage of
    successful health checks, between 0 and 100; [currentOutage] is 0
    without an open outage and the time since its start otherwise. *)
Theorem ar_stats_success_rate (w : ARWorld) :
  let s := healthCheckSuccesses (metrics (this w)) in
  let f := healthCheckFailures (metrics (this w)) in
  0 <= s -> 0 <= f ->
  exists st : Stats,
    fst (getStats w) = Normal st /\
    this (snd (getStats w)) = this w /\
    st_successRate st =
      (if s + f =? 0 then NaN
       else Finite (inject_Z s / inject_Z (s + f) * 100)) /\
    (s + f <> 0 ->
     (0 <= inject_Z s / inject_Z (s + f) * 100 <= 100)%Q) /\
    st_currentOutage st =
      match currentOutageStart (metrics (this w)) with
      | Some start => if start =? 0 then 0 else time_at w 0 - start
      | None => 0
      end.
Proof.
  cbv zeta. intros Hs Hf.
  assert (Hrate :
    Number_mul
      (Number_div (inject_Z (healthCheckSuccesses (metrics (this w))))
         (inject_Z (healthCheckSuccesses (metrics (this w))
                    + healthCheckFailures (metrics (this w))))) 100 =
    (if healthCheckSuccesses (metrics (this w))
        + healthCheckFailures (metrics (this w)) =? 0 then NaN
     else Finite (inject_Z (healthCheckSuccesses (metrics (this w)))
                  / inject_Z (healthCheckSuccesses (metrics (this w))
                              + healthCheckFailures (metrics (this w))) * 100))).
  { unfold Number_div. rewrite !Qeq_bool_inject_Z.
    destruct (Z.eqb_spec (healthCheckSuccesses (metrics (this w))
                          + healthCheckFailures (metrics (this w))) 0) as [E|E].
    - assert (healthCheckSuccesses (metrics (this w)) = 0) as -> by lia.
      reflexivity.
    - reflexivity. }
  assert (Hbound :
    healthCheckSuccesses (metrics (this w))
      + healthCheckFailures (metrics (this w)) <> 0 ->
    (0 <= inject_Z (healthCheckSuccesses (metrics (this w)))
          / inject_Z (healthCheckSuccesses (metrics (this w))
                      + healthCheckFailures (metrics (this w))) * 100 <= 100)%Q).
  { intros Hne.
    set (s := healthCheckSuccesses (metrics (this w))) in *.
    set (f := healthCheckFailures (metrics (this w))) in *.
    assert (Hd : (0 < inject_Z (s + f))%Q).
    { rewrite <- (Zlt_Qlt 0). lia. }
    assert (H0 : (0 <= inject_Z s / inject_Z (s + f))%Q).
    { apply Qle_shift_div_l; [exact Hd|]. rewrite Qmult_0_l.
      rewrite <- (Zle_Qle 0). exact Hs. }
    assert (H1 : (inject_Z s / inject_Z (s + f) <= 1)%Q).
    { apply Qle_shift_div_r; [exact Hd|]. rewrite Qmult_1_l.
      rewrite <- Zle_Qle. lia. }
    split.
    - apply Qmult_le_0_compat; [exact H0 | discriminate].
    - change (100 : Q) with (1 * 100)%Q at 2.
      apply Qmult_le_compat_r; [exact H1 | discriminate]. }
  unfold getStats, bind, self, ret. cbn [fst snd].
  destruct (currentOutageStart (metrics (this w))) as [start|] eqn:Ho.
  - destruct (Z.eqb_spec start 0) as [->|Hne]; cbn [negb].
    + eexists. split; [reflexivity|]. cbn [fst snd st_successRate st_currentOutage].
      repeat split; try reflexivity; try exact Hrate; apply Hbound; assumption.
    + unfold Date_now. cbn [fst snd].
      eexists. split; [reflexivity|]. cbn [fst snd st_successRate st_currentOutage this].
      repeat split; try reflexivity; try exact Hrate; apply Hbound; assumption.
  - eexists. split; [reflexivity|]. cbn [fst snd st_successRate st_currentOutage].
    repeat split; try reflexivity; try exact Hrate; apply Hbound; assumption.
Qed.

Lemma ar_stats_success_rate_witness :
  exists st : Stats,
    fst (getStats Examples.recovery0) = Normal st /\
    this (snd (getStats Examples.recovery0)) = this Examples.recovery0 /\
    st_successRate st = NaN /\
    (0 + 0 <> 0 -> (0 <= inject_Z 0 / inject_Z (0 + 0) * 100 <= 100)%Q) /\
    st_currentOutage st = 0.
Proof.
  apply (ar_stats_success_rate Examples.recovery0); vm_compute; discriminate.
Defined.

Lemma slice_last_length' {A} (n : nat) (l : list A) :
  (length (slice_last n l) <= n)%nat.
Proof. unfold slice_last. rewrite length_drop. lia. Qed.

Ltac consistent_done :=
  unfold consistent in *; ar_simpl;
  repeat match goal with
    | H : (_ <? _)%nat = false |- _ => apply Nat.ltb_ge in H
    | H : (_ <? _)%nat = true |- _ => apply Nat.ltb_lt in H
    | H : _ /\ _ |- _ => destruct H
    end;
  repeat split;
  first [ lia
        | assumption
        | apply slice_last_length'
        | discriminate
        | intros; lia
        | intros; discriminate
        | cbn [length]; lia ].

Lemma retryLoop_consistent (fn : nat -> Outcome) :
  forall (turns : nat) (attempt : Z) (lastError : option Error) (w : ARWorld),
    consistent (this w) ->
    0 <= attempt ->
    (0 < attempt ->
     totalRecoveries (metrics (this w)) < totalRetries (metrics (this w))) ->
    consistent (this (snd (retryLoop turns fn attempt lastError w))).
Proof.
  induction turns as [|turns IH]; intros attempt lastError w Hc Ha Hr.
  - by_wp (retryLoop 0 fn attempt lastError) w. cbn [retryLoop].
    destruct lastError as [e|];
      ar_start w; repeat ar_step; consistent_done.
  - by_wp (retryLoop (S turns) fn attempt lastError) w. cbn [retryLoop].
    destruct (fn (calls (rt w))) as [v|e] eqn:Hfn;
      destruct lastError as [e0|];
      ar_start w; cbn in Hfn; repeat ar_step;
      try (lazymatch goal with
           | |- wp (retryLoop _ _ _ _) _ _ =>
               unfold wp; apply IH; ar_simpl
           end);
      consistent_done.
Qed.

Lemma reachable_consistent (w : ARWorld) : reachable w -> consistent (this w).
Proof.
  induction 1 as [n mr idl md bm hci ft rth r
                 | w fn Hw IH | w hc Hw IH | w onRecover error Hw IH
                 | w onRecover Hw IH | w Hw IH].
  - unfold consistent. cbn. repeat split; try lia; try reflexivity.
  - unfold executeWithRecovery, bind, self. cbn [fst snd].
    apply retryLoop_consistent; [exact IH | lia | lia].
  - revert IH. by_wp (performHealthCheck hc) w.
    destruct (hc (calls (rt w))) as [v|e] eqn:Hhc;
      ar_start w; cbn in Hhc; repeat ar_step; intros IH; consistent_done.
  - revert IH.
    by_wp (attemptRecovery_pass (registerDefaultStrategies onRecover) error) w.
    unfold attemptRecovery_pass.
    change (registerDefaultStrategies onRecover)
      with [(RETRY, retryStrategy); (RESTART, restartStrategy onRecover);
            (DEGRADE, degradeStrategy)].
    cbn [tryStrategies].
    ar_start w; repeat (first [ar_step | progress unfold retryStrategy]);
      intros IH; consistent_done.
  - revert IH.
    by_wp (triggerRecovery (registerDefaultStrategies onRecover)) w.
    unfold triggerRecovery, attemptRecovery, attemptRecovery_pass.
    change (registerDefaultStrategies onRecover)
      with [(RETRY, retryStrategy); (RESTART, restartStrategy onRecover);
            (DEGRADE, degradeStrategy)].
    cbn [tryStrategies].
    ar_start w; repeat (first [ar_step | progress unfold retryStrategy]);
      intros IH; consistent_done.
  - revert IH. by_wp reset w.
    ar_start w; repeat ar_step; intros IH; consistent_done.
Qed.

(** X14.  The history of states holds at most 100 entries: [setState]
    appends an entry for the new state, also when the state does not
    change, and drops the oldest entry when there were 100 already. *)
Theorem ar_history_ring (w : ARWorld) (s : RecoveryStates) :
  reachable w ->
  let h := stateHistory (metrics (this w)) in
  let h' := stateHistory (metrics (this (snd (setState s w)))) in
  let entry :=
    mkHistoryEntry s (time_at w 0) (failureCount (this w)) (successCount (this w)) in
  (length h <= 100)%nat /\
  (length h' <= 100)%nat /\
  h' = (if (length h <? 100)%nat then h else drop 1 h) ++ [entry].
Proof.
  intros Hw. cbv zeta.
  pose proof (reachable_consistent w Hw) as Hc.
  assert (Hlen : (length (stateHistory (metrics (this w))) <= 100)%nat)
    by apply Hc.
  clear Hc Hw. split; [exact Hlen|]. revert Hlen.
  by_wp (setState s) w.
  ar_start w; destruct s; repeat ar_step; intros Hlen;
    repeat match goal with
      | H : (_ <? _)%nat = false |- _ => apply Nat.ltb_ge in H
      | H : (_ <? _)%nat = true |- _ => apply Nat.ltb_lt in H
      end;
    rewrite ?length_app in *; cbn [length] in *;
    (split; [first [apply slice_last_length' | rewrite ?length_app; cbn [length]; lia]|]);
    destruct (Nat.ltb_spec (length stateHistory0) 100); try lia;
    try reflexivity;
    unfold slice_last; rewrite length_app; cbn [length];
    replace (length stateHistory0 + 1 - 100)%nat with 1%nat by lia;
    rewrite drop_app_le by lia; reflexivity.
Qed.

Lemma recovery_degraded_reachable : reachable Examples.recovery_degraded.
Proof.
  unfold Examples.recovery_degraded, Examples.recovery0.
  apply reachable_healthCheck, reachable_new.
Defined.

Lemma ar_history_ring_witness :
  let w := Examples.recovery_degraded in
  let h := stateHistory (metrics (this w)) in
  let h' := stateHistory (metrics (this (snd (setState HEALTHY w)))) in
  let entry :=
    mkHistoryEntry HEALTHY (time_at w 0) (failureCount (this w))
      (successCount (this w)) in
  (length h <= 100)%nat /\
  (length h' <= 100)%nat /\
  h' = (if (length h <? 100)%nat then h else drop 1 h) ++ [entry].
Proof.
  exact (ar_history_ring Examples.recovery_degraded HEALTHY
           recovery_degraded_reachable).
Defined.

(** X15.  In every object reached from the constructor by calls of
    [executeWithRecovery], health checks, recovery passes,
    [triggerRecovery] and [reset]: [retryCount] is 0, at most one of
    [failureCount] and [successCount] is not 0, [failureCount] is at most
    [totalFailures], a HEALTHY object has [failureCount] 0, and
    [totalRecoveries] is at most [totalRetries]. *)
Theorem ar_counters_consistent (w : ARWorld) :
  reachable w ->
  retryCount (this w) = 0 /\
  (failureCount (this w) = 0 \/ successCount (this w) = 0) /\
  0 <= failureCount (this w) <= totalFailures (metrics (this w)) /\
  0 <= successCount (this w) /\
  (state (this w) = HEALTHY -> failureCount (this w) = 0) /\
  0 <= totalRecoveries (metrics (this w)) <= totalRetries (metrics (this w)).
Proof.
  intros Hw.
  destruct (reachable_consistent w Hw)
    as (H1 & H2 & H3 & H4 & H5 & _ & H7 & H8 & _).
  repeat split; try assumption; lia.
Qed.

Lemma ar_counters_consistent_witness :
  let w := Examples.recovery_degraded in
  retryCount (this w) = 0 /\
  (failureCount (this w) = 0 \/ successCount (this w) = 0) /\
  0 <= failureCount (this w) <= totalFailures (metrics (this w)) /\
  0 <= successCount (this w) /\
  (state (this w) = HEALTHY -> failureCount (this w) = 0) /\
  0 <= totalRecoveries (metrics (this w)) <= totalRetries (metrics (this w)).
Proof.
  exact (ar_counters_consistent Examples.recovery_degraded
           recovery_degraded_reachable).
Defined.

End AutoRecoveryProofs.

(** ** Bulkhead *)

Section BulkheadProofs.
Import JS Bulkhead.

(** *** The bookkeeping invariant under the changes the code makes *)

Section Bounds.
Context (mc mq : Z).
Implicit Types (RT : gmap string nat) (Qe : list nat) (cc : Z).
Implicit Types (H : gmap nat Task) (T : gmap nat Timer) (IF : gmap nat nat).

Lemma bounds_alter RT Qe cc H T IF (g : Task -> Task) (l : nat) :
  keeps_id g ->
  bounds mc mq RT Qe cc H T IF -> bounds mc mq RT Qe cc (alter g l H) T IF.
Proof.
  intros Hg [B1 B2 B3 B4 B5 B6 B7 B8 B9]. split; try assumption.
  - intros l' Hl'. rewrite lookup_alter_is_Some. auto.
  - intros l' h Hl'. rewrite lookup_alter_is_Some. eauto.
  - intros k l' Hk. destruct (B8 k l' Hk) as (Hi & t & Ht & Hid).
    split; [exact Hi|]. destruct (decide (l = l')) as [->|Hne].
    + exists (g t). rewrite lookup_alter_eq, Ht. split; [reflexivity|].
      rewrite Hg. exact Hid.
    + exists t. rewrite lookup_alter_ne by exact Hne. auto.
Qed.

Lemma bounds_new_task RT Qe cc H T IF (l : nat) (t : Task) :
  H !! l = None ->
  bounds mc mq RT Qe cc H T IF -> bounds mc mq RT Qe cc (<[l := t]> H) T IF.
Proof.
  intros Hl [B1 B2 B3 B4 B5 B6 B7 B8 B9]. split; try assumption.
  - intros l' Hl'. rewrite lookup_insert_is_Some'. split; [|right]; apply B6, Hl'.
  - intros l' h Hl'. rewrite lookup_insert_is_Some'. right. eauto.
  - intros k l' Hk. destruct (B8 k l' Hk) as (Hi & t' & Ht & Hid).
    split; [exact Hi|]. exists t'. split; [|exact Hid].
    rewrite lookup_insert_ne; [exact Ht | congruence].
Qed.

Lemma bounds_timer_delete RT Qe cc H T IF (h : nat) :
  bounds mc mq RT Qe cc H T IF -> bounds mc mq RT Qe cc H (delete h T) IF.
Proof.
  intros [B1 B2 B3 B4 B5 B6 B7 B8 B9]. split; try assumption.
  intros h' tm [_ Hh']%lookup_delete_Some. eauto.
Qed.

Lemma bounds_timer_queue RT Qe cc H T IF (h l : nat) (d : Z) :
  bounds mc mq RT Qe cc H T IF ->
  bounds mc mq RT Qe cc H (<[h := mkTimer QueueTimer l d]> T) IF.
Proof.
  intros [B1 B2 B3 B4 B5 B6 B7 B8 B9]. split; try assumption.
  intros h' tm [[_ <-]|[_ Hh']]%lookup_insert_Some Hk; [discriminate | eauto].
Qed.

Lemma bounds_start RT Qe cc H T IF (l h : nat) (d : Z) :
  bounds mc mq RT Qe cc H T IF ->
  cc < mc -> l ∉ Qe -> IF !! l = None -> is_Some (H !! l) ->
  bounds mc mq (<[id (default blank (H !! l)) := l]> RT) Qe (cc + 1) H
    (<[h := mkTimer ExecutionTimer l d]> T) (<[l := h]> IF).
Proof.
  intros [B1 B2 B3 B4 B5 B6 B7 B8 B9] Hcc Hq Hi [t Ht]. split; try assumption.
  - rewrite map_size_insert_None by exact Hi. lia.
  - lia.
  - intros l' Hl'. destruct (B6 l' Hl') as [H1 H2]. split; [|exact H2].
    rewrite lookup_insert_ne; [exact H1 | intros ->; contradiction].
  - intros l' h' [[<- _]|[_ Hl']]%lookup_insert_Some; eauto.
  - intros k l' [[<- <-]|[Hne Hk]]%lookup_insert_Some.
    + rewrite lookup_insert_eq. split; [eauto|]. exists t. rewrite Ht. auto.
    + destruct (B8 k l' Hk) as (Hi' & Ht').
      split; [|exact Ht']. rewrite lookup_insert_is_Some'. auto.
  - intros h' tm [[<- <-]|[Hne Hh']]%lookup_insert_Some Hk.
    + cbn. apply lookup_insert_eq.
    + pose proof (B9 h' tm Hh' Hk) as Hif.
      rewrite lookup_insert_ne; [exact Hif | congruence].
Qed.

Lemma bounds_finish RT Qe cc H T IF (l h : nat) :
  bounds mc mq RT Qe cc H T IF ->
  IF !! l = Some h ->
  bounds mc mq (delete (id (default blank (H !! l))) RT) Qe (cc - 1) H
    (delete h T) (delete l IF).
Proof.
  intros [B1 B2 B3 B4 B5 B6 B7 B8 B9] Hl. split; try assumption.
  - assert (size IF = S (size (delete l IF))) as Hs.
    { rewrite <- (map_size_insert_None l h) by apply lookup_delete_eq.
      rewrite insert_delete_eq, insert_id; auto. }
    lia.
  - lia.
  - intros l' Hl'. destruct (B6 l' Hl') as [H1 H2]. split; [|exact H2].
    apply lookup_delete_None. auto.
  - intros l' h' [_ Hl']%lookup_delete_Some. eauto.
  - intros k l' [Hne Hk]%lookup_delete_Some.
    destruct (B8 k l' Hk) as (Hi' & t & Ht & Hid).
    split; [|eauto]. rewrite lookup_delete_is_Some. split; [|exact Hi'].
    intros <-. apply Hne. rewrite Ht. exact Hid.
  - intros h' tm [Hne Hh']%lookup_delete_Some Hk.
    pose proof (B9 h' tm Hh' Hk) as Hif.
    rewrite lookup_delete_ne; [exact Hif|]. intros ->. congruence.
Qed.

Lemma bounds_dequeue RT Qe cc H T IF (l : nat) :
  bounds mc mq RT (l :: Qe) cc H T IF ->
  bounds mc mq RT Qe cc H T IF /\
  (l ∉ Qe) /\ IF !! l = None /\ is_Some (H !! l).
Proof.
  intros [B1 B2 B3 B4 B5 B6 B7 B8 B9].
  apply NoDup_cons in B5 as [Hn Hd].
  assert (Hin : l ∈ l :: Qe) by (apply elem_of_cons; auto).
  destruct (B6 l Hin) as [H1 H2].
  split; [| split; [exact Hn | split; [exact H1 | exact H2]]].
  split; try assumption.
  - cbn [length] in B4. lia.
  - intros l' Hl'. apply B6, elem_of_cons. auto.
Qed.

Lemma bounds_enqueue RT Qe cc H T IF (l : nat) :
  bounds mc mq RT Qe cc H T IF ->
  Z.of_nat (length Qe) < mq -> l ∉ Qe -> IF !! l = None -> is_Some (H !! l) ->
  bounds mc mq RT (Qe ++ [l]) cc H T IF.
Proof.
  intros [B1 B2 B3 B4 B5 B6 B7 B8 B9] Hlen Hq Hi Hh. split; try assumption.
  - rewrite length_app. cbn [length]. lia.
  - apply NoDup_app. repeat split; [exact B5 | | apply NoDup_singleton].
    intros x Hx ->%list_elem_of_singleton. contradiction.
  - intros l' [Hl'| ->%list_elem_of_singleton]%elem_of_app; auto.
Qed.

Lemma bounds_sublist RT Qe Qe' cc H T IF :
  Qe' `sublist_of` Qe ->
  bounds mc mq RT Qe cc H T IF -> bounds mc mq RT Qe' cc H T IF.
Proof.
  intros Hs [B1 B2 B3 B4 B5 B6 B7 B8 B9]. split; try assumption.
  - apply sublist_length in Hs. lia.
  - eapply sublist_NoDup; eassumption.
  - intros l Hl. apply B6. eapply elem_of_sublist; eassumption.
Qed.
End Bounds.

Ltac bh_simpl_in_all :=
  cbv beta iota delta
      [this rt emitted clock reads random draws slept calls fst snd negb andb
       tick
       name maxConcurrent maxQueueSize timeout queueTimeout runningTasks
       taskQueue currentConcurrency metrics
       set_runningTasks set_taskQueue set_currentConcurrency set_metrics
       bulkhead heap timers nextTimer inflight delivered
       set_bulkhead set_heap set_timers set_nextTimer set_inflight set_delivered
       kind task ms] in *.

Ltac bh_simpl :=
  cbv beta iota delta
      [this rt emitted clock reads random draws slept calls fst snd negb andb
       tick
       name maxConcurrent maxQueueSize timeout queueTimeout runningTasks
       taskQueue currentConcurrency metrics
       set_runningTasks set_taskQueue set_currentConcurrency set_metrics
       bulkhead heap timers nextTimer inflight delivered
       set_bulkhead set_heap set_timers set_nextTimer set_inflight set_delivered
       kind task ms].

Ltac split_if b :=
  lazymatch b with
  | (?x <? ?y)%Z => destruct (Z.ltb_spec0 x y)
  | (?x <=? ?y)%Z => destruct (Z.leb_spec0 x y)
  | _ => destruct b eqn:?
  end.

Ltac bh_unfold :=
  lazymatch goal with
  | |- wp (upd_bulkhead _) _ _ => unfold upd_bulkhead
  | |- wp (upd_metrics _) _ _ => unfold upd_metrics, upd_bulkhead
  | |- wp (upd_task _ _) _ _ => unfold upd_task
  | |- wp this_bulkhead _ _ => unfold this_bulkhead
  | |- wp (read_task _) _ _ => unfold read_task
  | |- wp (setTimeout _ _ _) _ _ => unfold setTimeout
  | |- wp (clearTimeout _) _ _ => unfold clearTimeout
  | |- wp (deliver _ _) _ _ => unfold deliver
  | |- wp (generateTaskId _) _ _ => unfold generateTaskId
  | |- wp (createTask _ _) _ _ => unfold createTask
  | |- wp (updateAverageExecutionTime _) _ _ => unfold updateAverageExecutionTime
  | |- wp (updateAverageQueueTime _) _ _ => unfold updateAverageQueueTime
  | |- wp (executeWithTimeout _) _ _ => unfold executeWithTimeout
  | |- wp (executeTask _) _ _ => unfold executeTask
  | |- wp processQueue _ _ => unfold processQueue
  | |- wp (executeTask_resume _ _) _ _ => unfold executeTask_resume
  | |- wp (queueTask _) _ _ => unfold queueTask
  | |- wp (execute _ _) _ _ => unfold execute
  | |- wp (removeFromQueue _) _ _ => unfold removeFromQueue
  | |- wp (onQueueTimeout _) _ _ => unfold onQueueTimeout
  | |- wp (onExecutionTimeout _) _ _ => unfold onExecutionTimeout
  | |- wp clearQueue _ _ => unfold clearQueue
  | |- wp (react _) _ _ => unfold react
  end.

Ltac bh_branch :=
  lazymatch goal with
  | |- wp (if ?b then _ else _) _ _ => split_if b; try (exfalso; lia)
  | |- wp (match ?o with Some _ => _ | None => _ end) _ _ => destruct o eqn:?
  | |- wp (match ?o with [] => _ | _ :: _ => _ end) _ _ => destruct o eqn:?
  | |- wp (match ?o with Normal _ => _ | Abrupt _ => _ end) _ _ => destruct o eqn:?
  | |- wp (match ?o with ExecutionTimer => _ | QueueTimer => _ end) _ _ =>
      destruct o eqn:?
  end.

Ltac bh_start w :=
  let s := fresh "s" in
  let b := fresh "b" in
  let r := fresh "r" in
  destruct w as [s r ?]; destruct s as [b ? ? ? ? ?];
  destruct b as [? ? ? ? ? ? ? ? ?]; destruct r as [? ? ? ? ? ?];
  unfold bounded, clocks in * |-; bh_simpl_in_all.

(** What [handleTaskFailure] and [handleTaskSuccess] change: the metrics,
    the task object they are given (not its id), the clock, the events. *)
Lemma wp_handleTaskFailure (l : nat) (e : Error)
    (Q : Completion unit -> BWorld -> Prop) (w : BWorld) :
  (forall (g : Task -> Task) (m : Metrics) (n : nat) (ev : list Event),
      keeps_id g ->
      Q (Normal tt)
        (mkWorld
           (mkStore (set_metrics m (bulkhead (this w)))
              (alter g l (heap (this w))) (timers (this w)) (nextTimer (this w))
              (inflight (this w)) (delivered (this w)))
           (tick n (rt w)) ev)) ->
  wp (handleTaskFailure l e) Q w.
Proof.
  unfold handleTaskFailure. bh_start w. intros HQ.
  repeat (first [wp_prim | bh_unfold | bh_branch]; bh_simpl).
  all: rewrite !alter_alter_eq.
  all: lazymatch goal with
       | |- _ _ (mkWorld (mkStore (mkBulkhead _ _ _ _ _ _ _ _ ?m) _ _ _ _ _)
                   (mkRuntime _ (Datatypes.S ?n) _ _ _ _) ?ev) =>
           apply (HQ _ m 1%nat ev)
       end.
  all: intros t; reflexivity.
Qed.

Lemma wp_handleTaskSuccess (l : nat) (v : Value)
    (Q : Completion unit -> BWorld -> Prop) (w : BWorld) :
  (forall (g : Task -> Task) (m : Metrics) (n : nat) (ev : list Event),
      keeps_id g ->
      Q (Normal tt)
        (mkWorld
           (mkStore (set_metrics m (bulkhead (this w)))
              (alter g l (heap (this w))) (timers (this w)) (nextTimer (this w))
              (inflight (this w)) (delivered (this w)))
           (tick n (rt w)) ev)) ->
  wp (handleTaskSuccess l v) Q w.
Proof.
  unfold handleTaskSuccess. bh_start w. intros HQ.
  repeat (first [wp_prim | bh_unfold | bh_branch]; bh_simpl).
  all: rewrite !alter_alter_eq.
  all: lazymatch goal with
       | |- _ _ (mkWorld (mkStore (mkBulkhead _ _ _ _ _ _ _ _ ?m) _ _ _ _ _)
                   (mkRuntime _ (Datatypes.S ?n) _ _ _ _) ?ev) =>
           apply (HQ _ m 1%nat ev)
       end.
  all: intros t; reflexivity.
Qed.

Ltac bh_step :=
  first
    [ lazymatch goal with
      | |- wp (handleTaskFailure _ _) _ _ =>
          apply wp_handleTaskFailure; intros ? ? ? ? ?
      | |- wp (handleTaskSuccess _ _) _ _ =>
          apply wp_handleTaskSuccess; intros ? ? ? ? ?
      end
    | wp_prim | bh_unfold | bh_branch ];
  bh_simpl.


Lemma fresh_heap (H : gmap nat Task) : H !! fresh (dom H) = None.
Proof. apply not_elem_of_dom_1, is_fresh. Qed.

Lemma bounds_fresh mc mq RT Qe cc (H : gmap nat Task) T IF :
  bounds mc mq RT Qe cc H T IF ->
  (fresh (dom H) ∉ Qe) /\ IF !! fresh (dom H) = None.
Proof.
  intros [B1 B2 B3 B4 B5 B6 B7 B8 B9].
  pose proof (fresh_heap H) as Hf. split.
  - intros Hin. destruct (B6 _ Hin) as [_ [t Ht]]. congruence.
  - destruct (IF !! fresh (dom H)) as [h|] eqn:E; [|reflexivity].
    destruct (B7 _ _ E) as [t Ht]. congruence.
Qed.

Ltac bounds_frame :=
  repeat first
    [ eassumption
    | apply bounds_alter; [solve [intro; reflexivity | assumption] |]
    | apply bounds_new_task; [apply fresh_heap |]
    | apply bounds_timer_queue
    | apply bounds_timer_delete ].

Lemma execute_bounded (w : BWorld) (suffix : string) (f : nat) :
  bounded w -> bounded (step w (Submit suffix f)).
Proof.
  unfold step. intros Hb. by_wp (react (Submit suffix f)) w.
  bh_start w. destruct (bounds_fresh _ _ _ _ _ _ _ _ Hb) as [Hq Hi].
  repeat bh_step; unfold bounded; bh_simpl.
  - apply bounds_start; [bounds_frame | lia | exact Hq | exact Hi |].
    rewrite !lookup_alter_is_Some, lookup_insert_eq. eauto.
  - bounds_frame.
  - apply bounds_enqueue; [bounds_frame | lia | exact Hq | exact Hi |].
    rewrite !lookup_alter_is_Some, lookup_insert_eq. eauto.
Qed.


Lemma bounds_finish' mc mq RT Qe cc (H : gmap nat Task) T IF (l h : nat) :
  bounds mc mq RT Qe cc H T IF ->
  IF !! l = Some h -> T !! h = None ->
  bounds mc mq (delete (id (default blank (H !! l))) RT) Qe (cc - 1) H T
    (delete l IF).
Proof.
  intros Hb Hl Hh. rewrite <- (delete_id T h) by exact Hh.
  apply bounds_finish; assumption.
Qed.

Lemma remove_first_sublist (H : gmap nat Task) (i : string) (q : list nat) :
  remove_first_with_id H i q `sublist_of` q.
Proof.
  induction q as [|l q IH]; cbn; [constructor|].
  destruct (String.eqb _ _); [apply sublist_cons | apply sublist_skip]; auto.
Qed.

(** [processQueue] keeps the bookkeeping. *)
Lemma wp_processQueue_bounded (Q : Completion unit -> BWorld -> Prop) (w : BWorld) :
  bounded w ->
  (forall w', bounded w' -> Q (Normal tt) w') ->
  wp processQueue Q w.
Proof.
  intros Hb. bh_start w. intros HQ. repeat bh_step; subst.
  - apply HQ. unfold bounded. bh_simpl. exact Hb.
  - apply HQ. unfold bounded. bh_simpl. exact Hb.
  - destruct (bounds_dequeue _ _ _ _ _ _ _ _ _ Hb) as (B & Hn & Hi & Hs).
    apply HQ. unfold bounded. bh_simpl.
    apply bounds_start; [bounds_frame | lia | exact Hn | exact Hi |].
    rewrite !lookup_alter_is_Some. exact Hs.
  - destruct (bounds_dequeue _ _ _ _ _ _ _ _ _ Hb) as (B & Hn & Hi & Hs).
    apply HQ. unfold bounded. bh_simpl.
    apply bounds_start; [bounds_frame | lia | exact Hn | exact Hi |].
    rewrite !lookup_alter_is_Some. exact Hs.
Qed.

Ltac bh_steps_to_processQueue :=
  repeat (lazymatch goal with
          | |- wp processQueue _ _ => fail
          | |- _ => bh_step
          end).

(** [executeTask] from its [await] on keeps the bookkeeping, when the
    task is in flight and its execution timer is gone. *)
Lemma wp_resume_bounded (l h : nat) (c : Completion Value)
    (Q : Completion unit -> BWorld -> Prop) (w : BWorld) :
  bounded w ->
  inflight (this w) !! l = Some h -> timers (this w) !! h = None ->
  (forall w', bounded w' -> Q (Normal tt) w') ->
  wp (executeTask_resume l c) Q w.
Proof.
  intros Hb Hl Hh. bh_start w. intros HQ. unfold executeTask_resume.
  destruct c as [v|e]; bh_steps_to_processQueue.
  all: apply wp_processQueue_bounded;
    [ unfold bounded; bh_simpl;
      eapply bounds_finish'; [bounds_frame | eassumption | assumption]
    | let w' := fresh "w'" in
      intros w' Hb'; clear Hb; bh_start w'; repeat bh_step;
      apply HQ; unfold bounded; bh_simpl; bounds_frame ].
Qed.

Lemma settle_bounded (w : BWorld) (l : nat) (o : Outcome) :
  bounded w -> bounded (step w (Settle l o)).
Proof.
  unfold step. intros Hb. by_wp (react (Settle l o)) w.
  bh_start w. do 4 bh_step; [|exact Hb].
  apply wp_bind. bh_step.
  eapply wp_resume_bounded; bh_simpl.
  - bounds_frame.
  - eassumption.
  - apply lookup_delete_eq.
  - auto.
Qed.

Lemma rejectAll_bounded (q : list nat) :
  forall w : BWorld, bounded w -> bounded (snd (rejectAll q w)).
Proof.
  induction q as [|l q IH]; intros w Hb; [exact Hb|].
  by_wp (rejectAll (l :: q)) w. cbn [rejectAll].
  bh_start w.
  repeat (lazymatch goal with
          | |- wp (rejectAll _) _ _ => fail
          | |- _ => bh_step
          end).
  all: apply IH; unfold bounded; bh_simpl; bounds_frame.
Qed.

Lemma clearQueue_bounded (w : BWorld) :
  bounded w -> bounded (step w ClearQueue).
Proof.
  unfold step. intros Hb. by_wp (react ClearQueue) w.
  bh_start w.
  repeat (lazymatch goal with
          | |- wp (rejectAll _) _ _ => fail
          | |- _ => bh_step
          end).
  apply rejectAll_bounded. unfold bounded. bh_simpl.
  eapply bounds_sublist; [apply sublist_nil_l | exact Hb].
Qed.

Lemma fire_bounded (w : BWorld) (h : nat) :
  bounded w -> bounded (step w (Fire h)).
Proof.
  unfold step. intros Hb. by_wp (react (Fire h)) w.
  bh_start w. do 4 bh_step; [|exact Hb].
  destruct t as [[] l d]; bh_simpl.
  - (* the execution timer of task l *)
    pose proof (bounds_exec_timer _ _ _ _ _ _ _ _ Hb h _ Heqo eq_refl) as Hl.
    bh_simpl_in_all.
    repeat (lazymatch goal with
            | |- wp (executeTask_resume _ _) _ _ => fail
            | |- _ => bh_step
            end).
    eapply wp_resume_bounded; bh_simpl.
    + bounds_frame.
    + eassumption.
    + apply lookup_delete_eq.
    + auto.
  - (* the queue timer of task l *)
    repeat bh_step; unfold bounded; bh_simpl; bounds_frame.
    eapply bounds_sublist; [apply remove_first_sublist | bounds_frame].
Qed.

(** Every input keeps the bookkeeping. *)
Lemma step_bounded (w : BWorld) (i : Input) : bounded w -> bounded (step w i).
Proof.
  destruct i; [apply execute_bounded | apply settle_bounded
              | apply fire_bounded | apply clearQueue_bounded].
Qed.

Lemma reachable_bounded (w : BWorld) : reachable w -> bounded w.
Proof.
  induction 1 as [n mc mq t qt r Hmc Hmq | w i Hw IH].
  - unfold bounded. cbn in *. split.
    + lia.
    + rewrite map_size_empty. reflexivity.
    + lia.
    + cbn. lia.
    + apply NoDup_nil_2.
    + intros l Hl. inversion Hl.
    + intros l h Hl. rewrite lookup_empty in Hl. discriminate.
    + intros k l Hl. rewrite lookup_empty in Hl. discriminate.
    + intros h tm Hl. rewrite lookup_empty in Hl. discriminate.
  - apply step_bounded. exact IH.
Qed.

(** The map of running tasks has no more entries than there are
    executions in flight. *)
Lemma running_map_size (H : gmap nat Task) (RT : gmap string nat) :
  forall IF : gmap nat nat,
    (forall (k : string) (l : nat),
        RT !! k = Some l ->
        is_Some (IF !! l) /\ exists t, H !! l = Some t /\ id t = k) ->
    (size RT <= size IF)%nat.
Proof.
  induction RT as [|k l RT Hk IH] using map_ind; intros IF HRT.
  - rewrite map_size_empty. lia.
  - rewrite map_size_insert_None by exact Hk.
    destruct (HRT k l) as ([h Hl] & t & Ht & Hid); [apply lookup_insert_eq|].
    assert (size IF = S (size (delete l IF))) as ->.
    { rewrite <- (map_size_insert_None l h) by apply lookup_delete_eq.
      rewrite insert_delete_eq, insert_id; auto. }
    apply le_n_S, IH. intros k' l' Hk'.
    assert (k <> k') as Hne by (intros ->; congruence).
    destruct (HRT k' l') as (Hi & t' & Ht' & Hid').
    { rewrite lookup_insert_ne by exact Hne. exact Hk'. }
    split; [|eauto]. apply lookup_delete_is_Some. split; [|exact Hi].
    intros <-. congruence.
Qed.

(** A submission to a bulkhead whose slots and queue are full. *)
Lemma execute_rejects_when_full (w : BWorld) (suffix : string) (f : nat) :
  maxConcurrent (bulkhead (this w)) <= currentConcurrency (bulkhead (this w)) ->
  maxQueueSize (bulkhead (this w))
    <= Z.of_nat (length (taskQueue (bulkhead (this w)))) ->
  let w' := step w (Submit suffix f) in
  delivered (this w') =
    (fresh (dom (heap (this w))),
     Abrupt (QueueFullError (name (bulkhead (this w)))
               (maxQueueSize (bulkhead (this w)))))
      :: delivered (this w) /\
  taskQueue (bulkhead (this w')) = taskQueue (bulkhead (this w)) /\
  currentConcurrency (bulkhead (this w'))
    = currentConcurrency (bulkhead (this w)) /\
  inflight (this w') = inflight (this w) /\
  timers (this w') = timers (this w) /\
  totalRejected (metrics (bulkhead (this w')))
    = totalRejected (metrics (bulkhead (this w))) + 1 /\
  calls (rt w') = calls (rt w).
Proof.
  intros Hc Hq. cbv zeta. unfold step. by_wp (react (Submit suffix f)) w.
  bh_start w.
  repeat (first [wp_prim | bh_unfold | bh_branch
                | lazymatch goal with
                  | |- wp (handleTaskFailure _ _) _ _ => unfold handleTaskFailure
                  end]; bh_simpl).
  all: repeat split; reflexivity.
Qed.

(** C2. In every world a bulkhead can get into, the number of executions
    in flight is the counter [currentConcurrency], the map of running
    tasks has no more entries than that, the counter is at most
    [maxConcurrent] and the queue is no longer than [maxQueueSize].  When
    the counter is at [maxConcurrent] and the queue is at [maxQueueSize],
    a submission is answered at once with the queue-full error: the task
    is not put in the queue, no timer is set and the operation is not
    invoked. *)
Theorem bulkhead_bounds (w : BWorld) :
  reachable w ->
  let b := bulkhead (this w) in
  currentConcurrency b = Z.of_nat (size (inflight (this w))) /\
  (size (runningTasks b) <= size (inflight (this w)))%nat /\
  currentConcurrency b <= maxConcurrent b /\
  Z.of_nat (length (taskQueue b)) <= maxQueueSize b /\
  forall (suffix : string) (f : nat),
    currentConcurrency b = maxConcurrent b ->
    Z.of_nat (length (taskQueue b)) = maxQueueSize b ->
    let w' := step w (Submit suffix f) in
    delivered (this w') =
      (fresh (dom (heap (this w))),
       Abrupt (QueueFullError (name b) (maxQueueSize b))) :: delivered (this w) /\
    taskQueue (bulkhead (this w')) = taskQueue b /\
    currentConcurrency (bulkhead (this w')) = currentConcurrency b /\
    inflight (this w') = inflight (this w) /\
    timers (this w') = timers (this w) /\
    calls (rt w') = calls (rt w).
Proof.
  intros Hr. cbv zeta. pose proof (reachable_bounded w Hr) as Hb.
  destruct Hb as [B1 B2 B3 B4 B5 B6 B7 B8 B9].
  split; [exact B2|]. split; [eapply running_map_size; exact B8|].
  split; [exact B3|]. split; [exact B4|].
  intros suffix f Hc Hq.
  destruct (execute_rejects_when_full w suffix f) as (R1 & R2 & R3 & R4 & R5 & _ & R7);
    [lia | lia |].
  repeat split; assumption.
Qed.

Lemma bulkhead_full_reachable : reachable Examples.bulkhead_full.
Proof.
  unfold Examples.bulkhead_full, run. cbn [foldl].
  repeat apply reachable_step. apply reachable_new; vm_compute; discriminate.
Defined.

Lemma bulkhead_bounds_witness :
  let w := Examples.bulkhead_full in
  let b := bulkhead (this w) in
  currentConcurrency b = Z.of_nat (size (inflight (this w))) /\
  (size (runningTasks b) <= size (inflight (this w)))%nat /\
  currentConcurrency b <= maxConcurrent b /\
  Z.of_nat (length (taskQueue b)) <= maxQueueSize b /\
  forall (suffix : string) (f : nat),
    currentConcurrency b = maxConcurrent b ->
    Z.of_nat (length (taskQueue b)) = maxQueueSize b ->
    let w' := step w (Submit suffix f) in
    delivered (this w') =
      (fresh (dom (heap (this w))),
       Abrupt (QueueFullError (name b) (maxQueueSize b))) :: delivered (this w) /\
    taskQueue (bulkhead (this w')) = taskQueue b /\
    currentConcurrency (bulkhead (this w')) = currentConcurrency b /\
    inflight (this w') = inflight (this w) /\
    timers (this w') = timers (this w) /\
    calls (rt w') = calls (rt w).
Proof.
  exact (bulkhead_bounds Examples.bulkhead_full bulkhead_full_reachable).
Defined.

(** *** The timer invariant under the changes the code makes *)

Section Timed.
Context (to qto : Z).
Implicit Types (Qe : list nat) (H : gmap nat Task) (T : gmap nat Timer).
Implicit Types (IF : gmap nat nat) (nT : nat).

(** A change to a task that is neither queued nor in flight. *)
Lemma timed_alter_free Qe H T nT IF (g : Task -> Task) (l : nat) :
  l ∉ Qe -> IF !! l = None ->
  timed to qto Qe H T nT IF -> timed to qto Qe (alter g l H) T nT IF.
Proof.
  intros Hq Hi [C1 C2 C3 C4]. split; try assumption.
  - intros l' h Hl'. destruct (C2 l' h Hl') as (HT & t & Ht & Hs).
    split; [exact HT|]. exists t. split; [|exact Hs].
    rewrite lookup_alter_ne; [exact Ht | congruence].
  - intros l' Hl'. destruct (C3 l' Hl') as (t & h & Ht & Hs).
    exists t, h. split; [|exact Hs].
    rewrite lookup_alter_ne; [exact Ht | intros ->; contradiction].
  - intros h tm Hh Hk. destruct (C4 h tm Hh Hk) as (Hin & t & Ht & Hid).
    split; [exact Hin|]. exists t. split; [|exact Hid].
    rewrite lookup_alter_ne; [exact Ht | intros ->; contradiction].
Qed.

Lemma timed_new_task Qe H T nT IF (l : nat) (t : Task) :
  H !! l = None ->
  timed to qto Qe H T nT IF -> timed to qto Qe (<[l := t]> H) T nT IF.
Proof.
  intros Hl [C1 C2 C3 C4]. split; try assumption.
  - intros l' h Hl'. destruct (C2 l' h Hl') as (HT & t' & Ht & Hs).
    split; [exact HT|]. exists t'. split; [|exact Hs].
    rewrite lookup_insert_ne; [exact Ht | congruence].
  - intros l' Hl'. destruct (C3 l' Hl') as (t' & h & Ht & Hs).
    exists t', h. split; [|exact Hs].
    rewrite lookup_insert_ne; [exact Ht | congruence].
  - intros h tm Hh Hk. destruct (C4 h tm Hh Hk) as (Hin & t' & Ht & Hid).
    split; [exact Hin|]. exists t'. split; [|exact Hid].
    rewrite lookup_insert_ne; [exact Ht | congruence].
Qed.

(** [executeTask] on a task that is neither queued nor in flight. *)
Lemma timed_start Qe H T nT IF (g : Task -> Task) (l : nat) :
  timed to qto Qe H T nT IF ->
  l ∉ Qe -> IF !! l = None -> is_Some (H !! l) ->
  (forall t, status (g t) = RUNNING /\ is_Some (startedAt (g t))) ->
  timed to qto Qe (alter g l H) (<[nT := mkTimer ExecutionTimer l to]> T)
    (S nT) (<[l := nT]> IF).
Proof.
  intros [C1 C2 C3 C4] Hq Hi [t Ht] Hg. split.
  - intros h [[= <-]|[_ Hh]]%lookup_insert_is_Some; [lia|].
    specialize (C1 h Hh). lia.
  - intros l' h [[<- <-]|[Hne Hl']]%lookup_insert_Some.
    + rewrite lookup_insert_eq. split; [reflexivity|].
      exists (g t). rewrite lookup_alter_eq, Ht. split; [reflexivity | apply Hg].
    + destruct (C2 l' h Hl') as (HT & t' & Ht' & Hs).
      assert (h <> nT) by (intros ->; specialize (C1 nT); rewrite HT in C1;
                           specialize (C1 (mk_is_Some _ _ eq_refl)); lia).
      split.
      * rewrite lookup_insert_ne by congruence. exact HT.
      * exists t'. rewrite lookup_alter_ne by exact Hne. auto.
  - intros l' Hl'. destruct (C3 l' Hl') as (t' & h & Ht' & H1 & H2 & H3 & HT).
    exists t', h.
    assert (h <> nT) by (intros ->; specialize (C1 nT); rewrite HT in C1;
                         specialize (C1 (mk_is_Some _ _ eq_refl)); lia).
    rewrite lookup_alter_ne by (intros ->; contradiction).
    rewrite lookup_insert_ne by congruence. auto.
  - intros h tm [[<- <-]|[Hne Hh]]%lookup_insert_Some Hk; [discriminate|].
    destruct (C4 h tm Hh Hk) as (Hin & t' & Ht' & Hid).
    split; [exact Hin|]. exists t'.
    rewrite lookup_alter_ne by (intros ->; contradiction). auto.
Qed.

(** The head of the queue leaves it and its queue timer is cleared. *)
Lemma timed_dequeue Qe H T nT IF (l : nat) :
  timed to qto (l :: Qe) H T nT IF -> NoDup (l :: Qe) ->
  exists (t : Task) (h : nat),
    H !! l = Some t /\ status t = PENDING /\ startedAt t = None /\
    queueTimeoutId t = Some h /\
    timed to qto Qe H (delete h T) nT IF.
Proof.
  intros [C1 C2 C3 C4] [Hn Hd]%NoDup_cons.
  destruct (C3 l) as (t & h & Ht & H1 & H2 & H3 & HT); [apply elem_of_cons; auto|].
  exists t, h. repeat (split; [assumption|]). split.
  - intros h' [_ Hh']%lookup_delete_is_Some. auto.
  - intros l' h' Hl'. destruct (C2 l' h' Hl') as (HT' & Hs).
    split; [|exact Hs]. rewrite lookup_delete_ne; [exact HT' | congruence].
  - intros l' Hl'.
    destruct (C3 l') as (t' & h' & Ht' & H1' & H2' & H3' & HT');
      [apply elem_of_cons; auto|].
    exists t', h'. repeat (split; [assumption|]).
    rewrite lookup_delete_ne; [exact HT'|].
    intros <-. rewrite HT in HT'. injection HT' as <-. contradiction.
  - intros h' tm [Hne Hh']%lookup_delete_Some Hk.
    destruct (C4 h' tm Hh' Hk) as ([->|Hin]%elem_of_cons & t' & Ht' & Hid).
    + congruence.
    + split; [exact Hin|]. eauto.
Qed.

(** The execution of [l] ends: its timer and its entry go. *)
Lemma timed_finish Qe H T nT IF (g : Task -> Task) (l h : nat) :
  timed to qto Qe H T nT IF ->
  IF !! l = Some h -> l ∉ Qe ->
  timed to qto Qe (alter g l H) (delete h T) nT (delete l IF).
Proof.
  intros [C1 C2 C3 C4] Hl Hq.
  destruct (C2 l h Hl) as (HT & _). split.
  - intros h' [_ Hh']%lookup_delete_is_Some. auto.
  - intros l' h' [Hne Hl']%lookup_delete_Some.
    destruct (C2 l' h' Hl') as (HT' & t' & Ht' & Hs). split.
    + rewrite lookup_delete_ne; [exact HT'|].
      intros <-. rewrite HT in HT'. congruence.
    + exists t'. rewrite lookup_alter_ne by exact Hne. auto.
  - intros l' Hl'. destruct (C3 l' Hl') as (t' & h' & Ht' & H1 & H2 & H3 & HT').
    exists t', h'.
    rewrite lookup_alter_ne by (intros ->; contradiction).
    rewrite lookup_delete_ne by (intros <-; congruence). auto.
  - intros h' tm [Hne Hh']%lookup_delete_Some Hk.
    destruct (C4 h' tm Hh' Hk) as (Hin & t' & Ht' & Hid).
    split; [exact Hin|]. exists t'.
    rewrite lookup_alter_ne by (intros ->; contradiction). auto.
Qed.

(** [queueTask] puts a new pending task in the queue. *)
Lemma timed_enqueue Qe H T nT IF (l : nat) :
  timed to qto Qe H T nT IF ->
  l ∉ Qe -> IF !! l = None ->
  (exists t, H !! l = Some t /\ status t = PENDING /\ startedAt t = None) ->
  timed to qto (Qe ++ [l]) (alter (set_queueTimeoutId (Some nT)) l H)
    (<[nT := mkTimer QueueTimer l qto]> T) (S nT) IF.
Proof.
  intros [C1 C2 C3 C4] Hq Hi (t & Ht & Hs & Hst).
  assert (Hfresh : forall h x, T !! h = Some x -> h <> nT).
  { intros h x Hh ->. specialize (C1 nT (mk_is_Some _ _ Hh)). lia. }
  split.
  - intros h [[= <-]|[_ Hh]]%lookup_insert_is_Some; [lia|].
    specialize (C1 h Hh). lia.
  - intros l' h Hl'. destruct (C2 l' h Hl') as (HT & t' & Ht' & Hs').
    split.
    + rewrite lookup_insert_ne; [exact HT | intros <-; eapply Hfresh; eauto].
    + exists t'. rewrite lookup_alter_ne by congruence. auto.
  - intros l' [Hl'| ->%list_elem_of_singleton]%elem_of_app.
    + destruct (C3 l' Hl') as (t' & h & Ht' & H1 & H2 & H3 & HT).
      exists t', h.
      rewrite lookup_alter_ne by (intros ->; contradiction).
      rewrite lookup_insert_ne by (intros <-; eapply Hfresh; eauto). auto.
    + exists (set_queueTimeoutId (Some nT) t), nT.
      rewrite lookup_alter_eq, Ht, lookup_insert_eq. cbn. auto.
  - intros h tm [[<- <-]|[Hne Hh]]%lookup_insert_Some Hk.
    + cbn. split; [apply elem_of_app; right; apply list_elem_of_singleton; auto|].
      exists (set_queueTimeoutId (Some nT) t).
      rewrite lookup_alter_eq, Ht. auto.
    + destruct (C4 h tm Hh Hk) as (Hin & t' & Ht' & Hid).
      split; [apply elem_of_app; auto|]. exists t'.
      rewrite lookup_alter_ne by (intros ->; contradiction). auto.
Qed.
End Timed.

Section Timed2.
Context (to qto : Z).
Implicit Types (Qe : list nat) (H : gmap nat Task) (T : gmap nat Timer).
Implicit Types (IF : gmap nat nat) (nT : nat).

(** The queue timer [h] of task [l] fires: the task leaves the queue. *)
Lemma timed_queue_timeout Qe Qe' H T nT IF (g : Task -> Task) (h : nat)
    (tm : Timer) :
  timed to qto Qe H T nT IF ->
  T !! h = Some tm -> kind tm = QueueTimer -> IF !! task tm = None ->
  (forall x, x ∈ Qe' <-> x ∈ Qe /\ x <> task tm) ->
  timed to qto Qe' (alter g (task tm) H) (delete h T) nT IF.
Proof.
  intros [C1 C2 C3 C4] Hh Hk Hi HQe.
  destruct (C4 h tm Hh Hk) as (Hin & t & Ht & Hid). split.
  - intros h' [_ Hh']%lookup_delete_is_Some. auto.
  - intros l' h' Hl'. destruct (C2 l' h' Hl') as (HT' & t' & Ht' & Hs). split.
    + rewrite lookup_delete_ne; [exact HT'|].
      intros <-. rewrite Hh in HT'. injection HT' as ->. discriminate.
    + exists t'. rewrite lookup_alter_ne by congruence. auto.
  - intros l' [Hl' Hne]%HQe.
    destruct (C3 l' Hl') as (t' & h' & Ht' & H1 & H2 & H3 & HT').
    exists t', h'. rewrite lookup_alter_ne by congruence.
    rewrite lookup_delete_ne; [auto|].
    intros <-. rewrite Hh in HT'. injection HT' as ->. cbn in Hne. congruence.
  - intros h' tm' [Hne Hh']%lookup_delete_Some Hk'.
    destruct (C4 h' tm' Hh' Hk') as (Hin' & t' & Ht' & Hid').
    assert (task tm' <> task tm) as Hnt by (intros E; rewrite E in Ht'; congruence).
    split; [apply HQe; auto|]. exists t'.
    rewrite lookup_alter_ne by congruence. auto.
Qed.
End Timed2.

(** With distinct ids, [removeFromQueue] removes the task it is given. *)
Lemma remove_first_exact (H : gmap nat Task) (q : list nat) (l : nat) (t : Task) :
  (forall l1 l2 t1 t2,
      H !! l1 = Some t1 -> H !! l2 = Some t2 -> id t1 = id t2 -> l1 = l2) ->
  NoDup q -> (forall x, x ∈ q -> is_Some (H !! x)) ->
  H !! l = Some t -> l ∈ q ->
  forall x, x ∈ remove_first_with_id H (id t) q <-> x ∈ q /\ x <> l.
Proof.
  intros Hd Hn Hq Ht. induction q as [|a q IH]; intros Hl x.
  - inversion Hl.
  - apply NoDup_cons in Hn as [Ha Hn]. cbn [remove_first_with_id].
    destruct (Hq a) as [ta Hta]; [apply elem_of_cons; auto|].
    rewrite Hta. change (default blank (Some ta)) with ta.
    destruct (String.eqb_spec (id ta) (id t)) as [E|E].
    + assert (a = l) as -> by (eapply Hd; eauto).
      rewrite elem_of_cons. split.
      * intros Hx. split; [right; exact Hx | intros ->; apply Ha; exact Hx].
      * intros [[->|Hx] Hne]; [congruence | exact Hx].
    + assert (a <> l) as Hal by (intros ->; rewrite Ht in Hta; congruence).
      apply elem_of_cons in Hl as [->|Hl]; [congruence|].
      rewrite !elem_of_cons, IH;
        [| exact Hn | intros y Hy; apply Hq, elem_of_cons; auto | exact Hl].
      split.
      * intros [->|[Hx Hne]]; split; auto.
      * intros [[->|Hx] Hne]; auto.
Qed.

Lemma existsb_id_found (H : gmap nat Task) (q : list nat) (l : nat) (t : Task) :
  H !! l = Some t -> l ∈ q ->
  existsb (fun l' => String.eqb (id (default blank (H !! l'))) (id t)) q = true.
Proof.
  intros Ht Hl. apply existsb_exists. exists l. split.
  - apply list_elem_of_In. exact Hl.
  - rewrite Ht. apply String.eqb_refl.
Qed.

(** [processQueue] keeps the timers in order, and leaves a task that was
    neither queued nor in flight as it was. *)
Lemma wp_processQueue_clocks (l0 : nat)
    (Q : Completion unit -> BWorld -> Prop) (w : BWorld) :
  bounded w -> clocks w ->
  l0 ∉ taskQueue (bulkhead (this w)) -> inflight (this w) !! l0 = None ->
  (forall w',
      clocks w' ->
      l0 ∉ taskQueue (bulkhead (this w')) -> inflight (this w') !! l0 = None ->
      Q (Normal tt) w') ->
  wp processQueue Q w.
Proof.
  intros Hb Hc. bh_start w. intros Hq Hi HQ. repeat bh_step; subst.
  - apply HQ; [exact Hc | exact Hq | exact Hi].
  - apply HQ; [exact Hc | exact Hq | exact Hi].
  - destruct (bounds_dequeue _ _ _ _ _ _ _ _ _ Hb) as (B & Hn & Hin & Hs).
    destruct (timed_dequeue _ _ _ _ _ _ _ _ Hc (bounds_nodup _ _ _ _ _ _ _ _ Hb))
      as (t & h & Ht & H1 & H2 & H3 & C).
    rewrite Ht in Heqo. cbn in Heqo. rewrite H3 in Heqo. injection Heqo as <-.
    apply not_elem_of_cons in Hq as [Hne Hq].
    apply HQ; unfold clocks; bh_simpl.
    + rewrite !alter_alter_eq.
      apply timed_start; [exact C | exact Hn | exact Hin | exact Hs |].
      intros x. cbn. eauto.
    + exact Hq.
    + rewrite lookup_insert_ne; [exact Hi | congruence].
  - destruct (timed_dequeue _ _ _ _ _ _ _ _ Hc (bounds_nodup _ _ _ _ _ _ _ _ Hb))
      as (t & h & Ht & H1 & H2 & H3 & C).
    rewrite Ht in Heqo. cbn in Heqo. congruence.
Qed.

(** [executeTask] from its [await] on, for a task [l] in flight in a world
    [w0] where the invariants hold; the world [w] it runs in is [w0] with
    the execution timer [h] of the task gone and maybe a change to the
    task object. *)
Lemma wp_resume_clocks (l h : nat) (c : Completion Value) (g : Task -> Task)
    (Q : Completion unit -> BWorld -> Prop) (w0 w : BWorld) :
  bounded w0 -> clocks w0 ->
  inflight (this w0) !! l = Some h ->
  keeps_id g ->
  bulkhead (this w) = bulkhead (this w0) ->
  heap (this w) = alter g l (heap (this w0)) ->
  timers (this w) = delete h (timers (this w0)) ->
  nextTimer (this w) = nextTimer (this w0) ->
  inflight (this w) = inflight (this w0) ->
  (forall w', clocks w' -> Q (Normal tt) w') ->
  wp (executeTask_resume l c) Q w.
Proof.
  intros Hb Hc Hl Hg. bh_start w0. bh_start w. intros -> -> -> -> -> HQ.
  assert (Hq : l ∉ taskQueue0).
  { intros Hin. destruct (bounds_queue_waits _ _ _ _ _ _ _ _ Hb l Hin). congruence. }
  unfold executeTask_resume.
  destruct c as [v|e]; bh_steps_to_processQueue.
  all: rewrite ?alter_alter_eq.
  all: apply (wp_processQueue_clocks l);
    [ unfold bounded; bh_simpl;
      eapply bounds_finish';
      [ apply bounds_alter; [|apply bounds_timer_delete; exact Hb]
      | exact Hl | apply lookup_delete_eq ]
    | unfold clocks; bh_simpl; apply timed_finish; assumption
    | exact Hq
    | apply lookup_delete_eq
    | let w' := fresh "w'" in
      intros w' Hc' Hq' Hi'; clear Hb Hc; bh_start w'; repeat bh_step;
      apply HQ; unfold clocks; bh_simpl;
      repeat (apply timed_alter_free; [assumption | assumption |]);
      assumption ].
  all: intros t; cbn; rewrite ?Hg; try match goal with H : keeps_id _ |- _ => rewrite H end;
    try apply Hg; reflexivity.
Qed.

Lemma execute_clocks (w : BWorld) (suffix : string) (f : nat) :
  bounded w -> clocks w -> clocks (step w (Submit suffix f)).
Proof.
  unfold step. intros Hb Hc. by_wp (react (Submit suffix f)) w.
  bh_start w. destruct (bounds_fresh _ _ _ _ _ _ _ _ Hb) as [Hq Hi].
  pose proof (fresh_heap heap0) as Hf.
  repeat bh_step; unfold clocks; bh_simpl.
  - rewrite !alter_alter_eq.
    apply timed_start; [apply timed_new_task; assumption | exact Hq | exact Hi | |].
    + rewrite lookup_insert_eq. eauto.
    + intros t. cbn. eauto.
  - repeat (apply timed_alter_free; [exact Hq | exact Hi |]).
    apply timed_new_task; assumption.
  - apply timed_enqueue; [apply timed_new_task; assumption | exact Hq | exact Hi |].
    rewrite lookup_insert_eq. eauto.
Qed.

Lemma settle_clocks (w : BWorld) (l : nat) (o : Outcome) :
  bounded w -> clocks w -> clocks (step w (Settle l o)).
Proof.
  intros Hb Hc. unfold step, react. unfold bind at 1. unfold self. cbn [fst snd].
  destruct (inflight (this w) !! l) as [h|] eqn:Hl; [|exact Hc].
  match goal with
  | |- clocks (snd (?m w)) => by_wp m w
  end.
  apply wp_bind. unfold clearTimeout. apply wp_modify.
  eapply (wp_resume_clocks l h _ (fun t => t) _ w); try reflexivity; try assumption.
  - intros t. reflexivity.
  - cbn. symmetry. apply alter_id. reflexivity.
  - auto.
Qed.

Lemma rejectAll_clocks (q : list nat) :
  forall w : BWorld,
    taskQueue (bulkhead (this w)) = [] ->
    NoDup q -> (forall l, l ∈ q -> inflight (this w) !! l = None) ->
    timed (timeout (bulkhead (this w))) (queueTimeout (bulkhead (this w))) q
      (heap (this w)) (timers (this w)) (nextTimer (this w)) (inflight (this w)) ->
    clocks (snd (rejectAll q w)).
Proof.
  induction q as [|l q IH]; intros w Hq Hn Hi Hc.
  - unfold clocks. cbn [rejectAll ret snd]. rewrite Hq. exact Hc.
  - by_wp (rejectAll (l :: q)) w. cbn [rejectAll].
    bh_start w. subst.
    destruct (timed_dequeue _ _ _ _ _ _ _ _ Hc Hn) as (t & h & Ht & H1 & H2 & H3 & C).
    apply NoDup_cons in Hn as [Hnl Hn].
    repeat (lazymatch goal with
            | |- wp (rejectAll _) _ _ => fail
            | |- _ => bh_step
            end);
      rewrite Ht in Heqo; cbn in Heqo; rewrite H3 in Heqo; try discriminate.
    injection Heqo as <-.
    apply IH; bh_simpl; [reflexivity | exact Hn | |].
    + intros l' Hl'. apply Hi, elem_of_cons. auto.
    + apply timed_alter_free; [exact Hnl | | exact C].
      apply Hi, elem_of_cons. auto.
Qed.

Lemma clearQueue_clocks (w : BWorld) :
  bounded w -> clocks w -> clocks (step w ClearQueue).
Proof.
  unfold step. intros Hb Hc. by_wp (react ClearQueue) w.
  bh_start w.
  repeat (lazymatch goal with
          | |- wp (rejectAll _) _ _ => fail
          | |- _ => bh_step
          end).
  apply rejectAll_clocks; bh_simpl.
  - reflexivity.
  - exact (bounds_nodup _ _ _ _ _ _ _ _ Hb).
  - intros l Hl. apply (bounds_queue_waits _ _ _ _ _ _ _ _ Hb l Hl).
  - exact Hc.
Qed.

Lemma fire_clocks (w : BWorld) (h : nat) :
  bounded w -> clocks w -> ids_distinct w -> clocks (step w (Fire h)).
Proof.
  intros Hb Hc Hd. unfold step, react. unfold bind at 1. unfold self. cbn [fst snd].
  destruct (timers (this w) !! h) as [tm|] eqn:Hh; [|exact Hc].
  destruct tm as [[] l d]; cbn [kind task].
  - (* the execution timer of task l *)
    pose proof (bounds_exec_timer _ _ _ _ _ _ _ _ Hb h _ Hh eq_refl) as Hl.
    cbn [task] in Hl.
    match goal with
    | |- clocks (snd (?m w)) => by_wp m w
    end.
    apply wp_bind. unfold clearTimeout. apply wp_modify.
    unfold onExecutionTimeout.
    apply wp_bind. unfold this_bulkhead. apply wp_bind. apply wp_self.
    apply wp_ret. apply wp_bind. unfold read_task. apply wp_bind. apply wp_self.
    apply wp_ret. apply wp_bind. unfold upd_task. apply wp_modify.
    eapply (wp_resume_clocks l h _ (set_status TIMEOUT) _ w);
      try reflexivity; try assumption.
    + intros t. reflexivity.
    + auto.
  - (* the queue timer of task l *)
    match goal with
    | |- clocks (snd (?m w)) => by_wp m w
    end.
    unfold ids_distinct in Hd. bh_start w.
    destruct (timed_queue_timer _ _ _ _ _ _ _ Hc h _ Hh eq_refl)
      as (Hin & t & Ht & Hid).
    cbn [task] in Hin, Ht.
    destruct (bounds_queue_waits _ _ _ _ _ _ _ _ Hb l Hin) as [Hi _].
    repeat bh_step; unfold clocks; bh_simpl.
    + rewrite ?alter_alter_eq.
      apply (timed_queue_timeout _ _ taskQueue0 _ _ _ _ _ _ h
               (mkTimer QueueTimer l d)); try assumption; try reflexivity.
      rewrite Ht. cbn [default].
      apply remove_first_exact; try assumption.
      * exact (bounds_nodup _ _ _ _ _ _ _ _ Hb).
      * intros x Hx. apply (bounds_queue_waits _ _ _ _ _ _ _ _ Hb x Hx).
    + rewrite Ht in Heqb. change (default blank (Some t)) with t in Heqb.
      rewrite (existsb_id_found _ _ l t Ht Hin) in Heqb. discriminate.
Qed.

(** Every input keeps the timers in order, as long as ids are distinct. *)
Lemma step_clocks (w : BWorld) (i : Input) :
  bounded w -> clocks w -> ids_distinct w -> clocks (step w i).
Proof.
  intros Hb Hc Hd.
  destruct i; [apply execute_clocks | apply settle_clocks
              | apply fire_clocks | apply clearQueue_clocks]; assumption.
Qed.

Lemma reachable_distinct_reachable (w : BWorld) :
  reachable_distinct w -> reachable w.
Proof.
  induction 1; [apply reachable_new; assumption | apply reachable_step; assumption].
Qed.

Lemma reachable_distinct_ids (w : BWorld) : reachable_distinct w -> ids_distinct w.
Proof.
  destruct 1 as [n mc mq t qt r Hmc Hmq | w i Hw Hd]; [|exact Hd].
  intros l1 l2 t1 t2 H1. cbn in H1. rewrite lookup_empty in H1. discriminate.
Qed.

Lemma reachable_clocks (w : BWorld) : reachable_distinct w -> clocks w.
Proof.
  induction 1 as [n mc mq t qt r Hmc Hmq | w i Hw IH Hd].
  - unfold clocks. cbn. split.
    + intros h [x Hx]. rewrite lookup_empty in Hx. discriminate.
    + intros l h Hl. rewrite lookup_empty in Hl. discriminate.
    + intros l Hl. inversion Hl.
    + intros h tm Hh. rewrite lookup_empty in Hh. discriminate.
  - apply step_clocks; [| exact IH | apply reachable_distinct_ids; exact Hw].
    apply reachable_bounded, reachable_distinct_reachable. exact Hw.
Qed.

(** The timers [rejectAll] leaves were there before. *)
Lemma rejectAll_timers (q : list nat) :
  forall (w : BWorld) (h : nat) (tm : Timer),
    timers (this (snd (rejectAll q w))) !! h = Some tm ->
    timers (this w) !! h = Some tm.
Proof.
  induction q as [|l q IH]; intros w h tm; [intros Hh; exact Hh|].
  by_wp (rejectAll (l :: q)) w. cbn [rejectAll]. bh_start w.
  repeat (lazymatch goal with
          | |- wp (rejectAll _) _ _ => fail
          | |- _ => bh_step
          end).
  - intros Hh%IH. bh_simpl_in_all. apply lookup_delete_Some in Hh as [_ Hh]. exact Hh.
  - intros Hh%IH. exact Hh.
Qed.

Ltac new_timer_cases :=
  unfold started_clock; bh_simpl;
  let Hn := fresh "Hn" in
  let Hs := fresh "Hs" in
  let d := fresh "d" in
  intros [Hn [d Hs]];
  repeat match type of Hs with
    | <[_ := _]> _ !! _ = Some _ =>
        apply lookup_insert_Some in Hs as [[<- Hs]|[_ Hs]]
    | delete _ _ !! _ = Some _ =>
        apply lookup_delete_Some in Hs as [_ Hs]
    end;
  try congruence.

(** A step sets an execution timer only for a task that it has created or
    that was waiting in the queue. *)
Lemma step_started_clock (w : BWorld) (i : Input) (h l : nat) :
  started_clock w (step w i) h l ->
  heap (this w) !! l = None \/ l ∈ taskQueue (bulkhead (this w)).
Proof.
  unfold step. by_wp (react i) w. bh_start w.
  destruct i as [suffix f | l' o | h' | ].
  - repeat bh_step; new_timer_cases.
    injection Hs as <- _. left. apply fresh_heap.
  - repeat bh_step; new_timer_cases;
      injection Hs as <- _; right; subst; apply elem_of_cons; auto.
  - repeat bh_step; new_timer_cases;
      injection Hs as <- _; right; subst; apply elem_of_cons; auto.
  - repeat (lazymatch goal with
            | |- wp (rejectAll _) _ _ => fail
            | |- _ => bh_step
            end).
    unfold started_clock. intros [Hn [d Hs%rejectAll_timers]].
    bh_simpl_in_all. congruence.
Qed.

(** C7. In every world a bulkhead gets into (task ids being distinct):
    the running and the queued tasks together are at most
    [maxConcurrent + maxQueueSize]; every execution timer runs
    [timeout] ms for a task that is in flight, RUNNING and started, and
    not in the queue; every queued task is PENDING and not started, has
    its queue timer of [queueTimeout] ms set and no other timer; and a
    step sets an execution timer only for a task that was PENDING (just
    created, or waiting in the queue) and that the step has made
    RUNNING. *)
Theorem bulkhead_execution_clock (w : BWorld) :
  reachable_distinct w ->
  let b := bulkhead (this w) in
  currentConcurrency b + Z.of_nat (length (taskQueue b))
    <= maxConcurrent b + maxQueueSize b /\
  Z.of_nat (size (runningTasks b)) + Z.of_nat (length (taskQueue b))
    <= maxConcurrent b + maxQueueSize b /\
  (forall (h : nat) (tm : Timer),
      timers (this w) !! h = Some tm -> kind tm = ExecutionTimer ->
      (task tm ∉ taskQueue b) /\
      inflight (this w) !! task tm = Some h /\
      ms tm = timeout b /\
      exists t, heap (this w) !! task tm = Some t /\
                status t = RUNNING /\ is_Some (startedAt t)) /\
  (forall l : nat,
      l ∈ taskQueue b ->
      (exists (t : Task) (hq : nat),
          heap (this w) !! l = Some t /\ status t = PENDING /\
          startedAt t = None /\ queueTimeoutId t = Some hq /\
          timers (this w) !! hq = Some (mkTimer QueueTimer l (queueTimeout b))) /\
      forall (h : nat) (tm : Timer),
        timers (this w) !! h = Some tm -> task tm = l -> kind tm = QueueTimer) /\
  (forall (i : Input) (h l : nat),
      ids_distinct (step w i) ->
      started_clock w (step w i) h l ->
      (heap (this w) !! l = None \/
       exists t, heap (this w) !! l = Some t /\ status t = PENDING /\
                 l ∈ taskQueue b) /\
      exists t', heap (this (step w i)) !! l = Some t' /\
                 status t' = RUNNING /\ is_Some (startedAt t')).
Proof.
  intros Hr. cbv zeta.
  pose proof (reachable_bounded w (reachable_distinct_reachable w Hr)) as Hb.
  pose proof (reachable_clocks w Hr) as Hc.
  assert (Hexec : forall w' : BWorld, bounded w' -> clocks w' ->
            forall (h : nat) (tm : Timer),
              timers (this w') !! h = Some tm -> kind tm = ExecutionTimer ->
              (task tm ∉ taskQueue (bulkhead (this w'))) /\
              inflight (this w') !! task tm = Some h /\
              ms tm = timeout (bulkhead (this w')) /\
              exists t, heap (this w') !! task tm = Some t /\
                        status t = RUNNING /\ is_Some (startedAt t)).
  { intros w' Hb' Hc' h tm Hh Hk.
    pose proof (bounds_exec_timer _ _ _ _ _ _ _ _ Hb' h tm Hh Hk) as Hi.
    destruct (timed_running _ _ _ _ _ _ _ Hc' _ _ Hi) as (HT & Ht).
    repeat split.
    - intros Hin.
      destruct (bounds_queue_waits _ _ _ _ _ _ _ _ Hb' _ Hin) as [Hn _]. congruence.
    - exact Hi.
    - rewrite Hh in HT. injection HT as ->. reflexivity.
    - exact Ht. }
  pose proof Hb as [B1 B2 B3 B4 B5 B6 B7 B8 B9].
  split; [lia|]. split.
  { pose proof (running_map_size _ _ _ B8). lia. }
  split; [exact (Hexec w Hb Hc)|]. split.
  - intros l Hl. split; [exact (timed_queued _ _ _ _ _ _ _ Hc l Hl)|].
    intros h tm Hh <-. destruct (kind tm) eqn:Hk; [|reflexivity].
    destruct (Hexec w Hb Hc h tm Hh Hk) as (Hn & _). contradiction.
  - intros i h l Hd Hs. split.
    + destruct (step_started_clock w i h l Hs) as [Hn|Hq]; [left; exact Hn|].
      right. destruct (timed_queued _ _ _ _ _ _ _ Hc l Hq) as (t & hq & Ht & H1 & _).
      exists t. auto.
    + destruct Hs as [_ [d Hs]].
      assert (Hr' : reachable_distinct (step w i))
        by (apply reachable_distinct_step; assumption).
      destruct (Hexec (step w i)
                  (reachable_bounded _ (reachable_distinct_reachable _ Hr'))
                  (reachable_clocks _ Hr') h _ Hs eq_refl) as (_ & _ & _ & Ht).
      exact Ht.
Qed.

(** Task objects whose ids are pairwise different, from the list of
    ids. *)
Lemma ids_distinct_list (w : BWorld) :
  NoDup ((fun p : nat * Task => id (snd p)) <$> map_to_list (heap (this w))) ->
  ids_distinct w.
Proof.
  intros Hn l1 l2 t1 t2 H1 H2 E.
  apply elem_of_map_to_list in H1, H2.
  apply list_elem_of_lookup in H1 as [i1 H1], H2 as [i2 H2].
  assert (i1 = i2) as ->.
  { eapply NoDup_lookup; [exact Hn | |].
    - rewrite list_lookup_fmap, H1. reflexivity.
    - rewrite list_lookup_fmap, H2. cbn. rewrite E. reflexivity. }
  congruence.
Qed.

Lemma bulkhead_full_distinct : reachable_distinct Examples.bulkhead_full.
Proof.
  unfold Examples.bulkhead_full, run. cbn [foldl].
  repeat (apply reachable_distinct_step;
          [| apply ids_distinct_list; vm_compute; compute_done]).
  apply reachable_distinct_new; vm_compute; discriminate.
Defined.

Lemma bulkhead_execution_clock_witness :
  let w := Examples.bulkhead_full in
  let b := bulkhead (this w) in
  currentConcurrency b + Z.of_nat (length (taskQueue b))
    <= maxConcurrent b + maxQueueSize b /\
  Z.of_nat (size (runningTasks b)) + Z.of_nat (length (taskQueue b))
    <= maxConcurrent b + maxQueueSize b /\
  (forall (h : nat) (tm : Timer),
      timers (this w) !! h = Some tm -> kind tm = ExecutionTimer ->
      (task tm ∉ taskQueue b) /\
      inflight (this w) !! task tm = Some h /\
      ms tm = timeout b /\
      exists t, heap (this w) !! task tm = Some t /\
                status t = RUNNING /\ is_Some (startedAt t)) /\
  (forall l : nat,
      l ∈ taskQueue b ->
      (exists (t : Task) (hq : nat),
          heap (this w) !! l = Some t /\ status t = PENDING /\
          startedAt t = None /\ queueTimeoutId t = Some hq /\
          timers (this w) !! hq = Some (mkTimer QueueTimer l (queueTimeout b))) /\
      forall (h : nat) (tm : Timer),
        timers (this w) !! h = Some tm -> task tm = l -> kind tm = QueueTimer) /\
  (forall (i : Input) (h l : nat),
      ids_distinct (step w i) ->
      started_clock w (step w i) h l ->
      (heap (this w) !! l = None \/
       exists t, heap (this w) !! l = Some t /\ status t = PENDING /\
                 l ∈ taskQueue b) /\
      exists t', heap (this (step w i)) !! l = Some t' /\
                 status t' = RUNNING /\ is_Some (startedAt t')).
Proof.
  exact (bulkhead_execution_clock Examples.bulkhead_full bulkhead_full_distinct).
Defined.

(** The full bulkhead at work: two execution timers, for the two tasks in
    flight; two queue timers, for the two tasks in the queue; when the
    first task settles, the head of the queue starts and gets the next
    execution timer. *)
Example bulkhead_full_timers :
  map_to_list (timers (this Examples.bulkhead_full)) =
    [(2%nat, mkTimer QueueTimer 2 5000); (3%nat, mkTimer QueueTimer 3 5000);
     (1%nat, mkTimer ExecutionTimer 1 1000); (0%nat, mkTimer ExecutionTimer 0 1000)] /\
  taskQueue (bulkhead (this Examples.bulkhead_full)) = [2%nat; 3%nat] /\
  started_clock Examples.bulkhead_full
    (step Examples.bulkhead_full (Settle 0 (Resolved "ok"))) 4 2.
Proof.
  split; [vm_compute; reflexivity|]. split; [vm_compute; reflexivity|].
  split; [vm_compute; reflexivity|]. exists 1000. vm_compute. reflexivity.
Qed.
Lemma wp_handleTaskFailure_counted (l : nat) (e : Error)
    (Q : Completion unit -> BWorld -> Prop) (w : BWorld) :
  (forall (g : Task -> Task) (m : Metrics) (n : nat) (ev : list Event),
      keeps_id g ->
      failure_counted e (metrics (bulkhead (this w))) m ->
      Q (Normal tt)
        (mkWorld
           (mkStore (set_metrics m (bulkhead (this w)))
              (alter g l (heap (this w))) (timers (this w)) (nextTimer (this w))
              (inflight (this w)) (delivered (this w)))
           (tick n (rt w)) ev)) ->
  wp (handleTaskFailure l e) Q w.
Proof.
  unfold handleTaskFailure. bh_start w. intros HQ.
  repeat (first [wp_prim | bh_unfold | bh_branch]; bh_simpl).
  all: rewrite !alter_alter_eq.
  all: lazymatch goal with
       | |- _ _ (mkWorld (mkStore (mkBulkhead _ _ _ _ _ _ _ _ ?m) _ _ _ _ _)
                   (mkRuntime _ (Datatypes.S ?n) _ _ _ _) ?ev) =>
           apply (HQ _ m 1%nat ev)
       end.
  all: try (intros t; reflexivity).
  all: unfold failure_counted, gauges_kept;
    match goal with H : includes _ _ = _ |- _ => rewrite H end;
    cbn; repeat split; reflexivity.
Qed.

Lemma wp_handleTaskSuccess_counted (l : nat) (v : Value)
    (Q : Completion unit -> BWorld -> Prop) (w : BWorld) :
  (forall (g : Task -> Task) (m : Metrics) (n : nat) (ev : list Event),
      keeps_id g ->
      success_counted (metrics (bulkhead (this w))) m ->
      Q (Normal tt)
        (mkWorld
           (mkStore (set_metrics m (bulkhead (this w)))
              (alter g l (heap (this w))) (timers (this w)) (nextTimer (this w))
              (inflight (this w)) (delivered (this w)))
           (tick n (rt w)) ev)) ->
  wp (handleTaskSuccess l v) Q w.
Proof.
  unfold handleTaskSuccess. bh_start w. intros HQ.
  repeat (first [wp_prim | bh_unfold | bh_branch]; bh_simpl).
  all: rewrite !alter_alter_eq.
  all: lazymatch goal with
       | |- _ _ (mkWorld (mkStore (mkBulkhead _ _ _ _ _ _ _ _ ?m) _ _ _ _ _)
                   (mkRuntime _ (Datatypes.S ?n) _ _ _ _) ?ev) =>
           apply (HQ _ m 1%nat ev)
       end.
  all: try (intros t; reflexivity).
  all: unfold success_counted, gauges_kept; cbn; repeat split; reflexivity.
Qed.

Ltac metrics_simpl :=
  cbn [totalSubmitted totalCompleted totalFailed totalTimeout totalRejected
       averageExecutionTime averageQueueTime peakConcurrency peakQueueSize
       currentQueueSize m_currentConcurrency
       set_totalSubmitted set_totalCompleted set_totalFailed set_totalTimeout
       set_totalRejected set_averageExecutionTime set_averageQueueTime
       set_peakConcurrency set_peakQueueSize set_currentQueueSize
       set_m_currentConcurrency] in *.

(** Symbolic execution that keeps track of what the handlers count. *)
Ltac bh_count :=
  first
    [ lazymatch goal with
      | |- wp (handleTaskFailure _ _) _ _ =>
          apply wp_handleTaskFailure_counted; intros ? ? ? ? ? ?
      | |- wp (handleTaskSuccess _ _) _ _ =>
          apply wp_handleTaskSuccess_counted; intros ? ? ? ? ? ?
      end
    | wp_prim | bh_unfold | bh_branch ];
  bh_simpl.

Lemma remove_first_nonempty (H : gmap nat Task) (i : string) (q : list nat) :
  remove_first_with_id H i q <> [] -> q <> [].
Proof. destruct q; [cbn; auto | discriminate]. Qed.

Lemma remove_first_length (H : gmap nat Task) (i : string) (q : list nat) :
  (length (remove_first_with_id H i q) <= length q)%nat.
Proof. apply sublist_length, remove_first_sublist. Qed.

Ltac tallied_done :=
  unfold tallied, failure_counted, success_counted, gauges_kept in *;
  bh_simpl_in_all; metrics_simpl;
  repeat match goal with
    | H : _ /\ _ |- _ => destruct H
    | H : if ?b then _ else _ |- _ => destruct b
    end;
  rewrite ?length_app in *; cbn [length] in *;
  repeat match goal with
    | H : _ :: _ <> [] -> _ |- _ => specialize (H ltac:(discriminate))
    end;
  try match goal with
    | |- context [remove_first_with_id ?H ?i ?q] =>
        pose proof (remove_first_length H i q)
    end;
  repeat split; try lia;
  try (let Hne := fresh in
       intros Hne; try apply remove_first_nonempty in Hne;
       repeat match goal with
         | H : ?X <> [] -> _ |- _ => specialize (H Hne)
         end; lia);
  try (intros _; lia);
  try (let Hne := fresh in intros Hne; exfalso; apply Hne; reflexivity).

Lemma wp_processQueue_tallied (Q : Completion unit -> BWorld -> Prop) (w : BWorld) :
  let b := bulkhead (this w) in
  1 <= maxConcurrent b -> 1 <= maxQueueSize b ->
  currentQueueSize (metrics b) = Z.of_nat (length (taskQueue b)) ->
  m_currentConcurrency (metrics b) = currentConcurrency b ->
  currentConcurrency b + 1 <= peakConcurrency (metrics b) ->
  peakConcurrency (metrics b) <= maxConcurrent b ->
  Z.of_nat (length (taskQueue b)) <= peakQueueSize (metrics b) ->
  peakQueueSize (metrics b) <= maxQueueSize b ->
  (taskQueue b <> [] -> currentConcurrency b + 1 = maxConcurrent b) ->
  (forall w', tallied (bulkhead (this w')) -> Q (Normal tt) w') ->
  wp processQueue Q w.
Proof.
  cbv zeta. bh_start w. intros H1 H2 H3 H4 H5 H6 H7 H8 H9 HQ.
  repeat bh_count; subst; apply HQ; clear HQ; tallied_done.
Qed.

Lemma wp_resume_tallied (l : nat) (c : Completion Value)
    (Q : Completion unit -> BWorld -> Prop) (w : BWorld) :
  tallied (bulkhead (this w)) ->
  (forall w', tallied (bulkhead (this w')) -> Q (Normal tt) w') ->
  wp (executeTask_resume l c) Q w.
Proof.
  intros Ht. bh_start w. intros HQ. unfold executeTask_resume.
  destruct c as [v|e];
    repeat (lazymatch goal with
            | |- wp processQueue _ _ => fail
            | |- _ => bh_count
            end).
  all: apply wp_processQueue_tallied; bh_simpl;
    [ tallied_done .. | ];
    let w' := fresh "w'" in
    let Ht' := fresh "Ht'" in
    intros w' Ht'; clear Ht; bh_start w'; repeat bh_count;
    apply HQ; clear HQ; tallied_done.
Qed.

Lemma execute_tallied (w : BWorld) (suffix : string) (f : nat) :
  tallied (bulkhead (this w)) ->
  tallied (bulkhead (this (step w (Submit suffix f)))).
Proof.
  unfold step. intros Ht. by_wp (react (Submit suffix f)) w.
  bh_start w. repeat bh_count; tallied_done.
  all: destruct taskQueue0; [reflexivity | exfalso; lia].
Qed.

Lemma settle_tallied (w : BWorld) (l : nat) (o : Outcome) :
  tallied (bulkhead (this w)) ->
  tallied (bulkhead (this (step w (Settle l o)))).
Proof.
  unfold step. intros Ht. by_wp (react (Settle l o)) w.
  bh_start w. do 4 bh_count; [|exact Ht].
  apply wp_bind. bh_count.
  apply wp_resume_tallied; bh_simpl; [exact Ht | auto].
Qed.

Lemma rejectAll_tallied (q : list nat) :
  forall w : BWorld,
    tallied (bulkhead (this w)) ->
    tallied (bulkhead (this (snd (rejectAll q w)))).
Proof.
  induction q as [|l q IH]; intros w Ht; [exact Ht|].
  by_wp (rejectAll (l :: q)) w. cbn [rejectAll].
  bh_start w.
  repeat (lazymatch goal with
          | |- wp (rejectAll _) _ _ => fail
          | |- _ => bh_count
          end).
  all: apply IH; bh_simpl; tallied_done.
Qed.

Lemma clearQueue_tallied (w : BWorld) :
  tallied (bulkhead (this w)) ->
  tallied (bulkhead (this (step w ClearQueue))).
Proof.
  unfold step. intros Ht. by_wp (react ClearQueue) w.
  bh_start w.
  repeat (lazymatch goal with
          | |- wp (rejectAll _) _ _ => fail
          | |- _ => bh_count
          end).
  apply rejectAll_tallied. bh_simpl. tallied_done.
Qed.

Lemma fire_tallied (w : BWorld) (h : nat) :
  tallied (bulkhead (this w)) ->
  tallied (bulkhead (this (step w (Fire h)))).
Proof.
  unfold step. intros Ht. by_wp (react (Fire h)) w.
  bh_start w. do 4 bh_count; [|exact Ht].
  destruct t as [[] l d]; bh_simpl.
  - repeat (lazymatch goal with
            | |- wp (executeTask_resume _ _) _ _ => fail
            | |- _ => bh_count
            end).
    apply wp_resume_tallied; bh_simpl; [exact Ht | auto].
  - repeat bh_count; tallied_done.
Qed.

Lemma step_tallied (w : BWorld) (i : Input) :
  tallied (bulkhead (this w)) -> tallied (bulkhead (this (step w i))).
Proof.
  destruct i; [apply execute_tallied | apply settle_tallied
              | apply fire_tallied | apply clearQueue_tallied].
Qed.

Lemma reachable_tallied (w : BWorld) :
  reachable w -> tallied (bulkhead (this w)).
Proof.
  induction 1 as [n mc mq t qt r Hmc Hmq | w i Hw IH].
  - unfold tallied. cbn in *.
    assert (or_default mq 100 <> 0).
    { unfold or_default. destruct (Z.eqb_spec mq 0); [discriminate | assumption]. }
    repeat split; try lia. intros Hne. exfalso. apply Hne. reflexivity.
  - apply step_tallied. exact IH.
Qed.

(** X16.  A task waits only while every slot is taken: in every
    reachable bulkhead a non-empty queue means that [currentConcurrency]
    is [maxConcurrent]; and a task submitted while a slot is free starts at
    once, invoked and RUNNING with its execution timer, without passing
    through the queue. *)
Theorem bulkhead_no_waiting_beside_free_slot (w : BWorld) :
  reachable w ->
  let b := bulkhead (this w) in
  (taskQueue b <> [] -> currentConcurrency b = maxConcurrent b) /\
  forall (suffix : string) (f : nat),
    currentConcurrency b < maxConcurrent b ->
    let l := fresh (dom (heap (this w))) in
    let h := nextTimer (this w) in
    let w' := step w (Submit suffix f) in
    taskQueue b = [] /\
    taskQueue (bulkhead (this w')) = [] /\
    currentConcurrency (bulkhead (this w')) = currentConcurrency b + 1 /\
    inflight (this w') = <[l := h]> (inflight (this w)) /\
    timers (this w') = <[h := mkTimer ExecutionTimer l (timeout b)]> (timers (this w)) /\
    calls (rt w') = S (calls (rt w)) /\
    delivered (this w') = delivered (this w) /\
    exists t, heap (this w') !! l = Some t /\ status t = RUNNING /\ fn t = f.
Proof.
  intros Hw. cbv zeta.
  pose proof (reachable_tallied w Hw) as Ht.
  split; [apply Ht|]. intros suffix f Hfree.
  assert (Hq : taskQueue (bulkhead (this w)) = []).
  { destruct (taskQueue (bulkhead (this w))) eqn:E; [reflexivity|].
    destruct Ht as (_ & _ & _ & _ & _ & _ & _ & _ & Ht).
    rewrite E in Ht. specialize (Ht ltac:(discriminate)). lia. }
  split; [exact Hq|]. clear Ht Hw. revert Hfree Hq.
  unfold step. by_wp (react (Submit suffix f)) w.
  bh_start w. repeat bh_step; intros Hfree Hq; try lia.
  subst. repeat split; try reflexivity.
  eexists. rewrite !lookup_alter_eq, lookup_insert_eq. cbn.
  repeat split; reflexivity.
Qed.

Lemma bulkhead_no_waiting_beside_free_slot_witness :
  let w := Examples.bulkhead0 in
  let b := bulkhead (this w) in
  (taskQueue b <> [] -> currentConcurrency b = maxConcurrent b) /\
  forall (suffix : string) (f : nat),
    currentConcurrency b < maxConcurrent b ->
    let l := fresh (dom (heap (this w))) in
    let h := nextTimer (this w) in
    let w' := step w (Submit suffix f) in
    taskQueue b = [] /\
    taskQueue (bulkhead (this w')) = [] /\
    currentConcurrency (bulkhead (this w')) = currentConcurrency b + 1 /\
    inflight (this w') = <[l := h]> (inflight (this w)) /\
    timers (this w') = <[h := mkTimer ExecutionTimer l (timeout b)]> (timers (this w)) /\
    calls (rt w') = S (calls (rt w)) /\
    delivered (this w') = delivered (this w) /\
    exists t, heap (this w') !! l = Some t /\ status t = RUNNING /\ fn t = f.
Proof.
  apply (bulkhead_no_waiting_beside_free_slot Examples.bulkhead0).
  apply reachable_new; vm_compute; discriminate.
Defined.

(** X17.  The gauges of the metrics agree with the object:
    [currentQueueSize] is the length of the queue,
    [metrics.currentConcurrency] is the counter, and each peak lies
    between the present value and the limit of the configuration. *)
Theorem bulkhead_gauges (w : BWorld) :
  reachable w ->
  let b := bulkhead (this w) in
  let m := metrics b in
  currentQueueSize m = Z.of_nat (length (taskQueue b)) /\
  m_currentConcurrency m = currentConcurrency b /\
  0 <= currentConcurrency b <= peakConcurrency m /\
  peakConcurrency m <= maxConcurrent b /\
  Z.of_nat (length (taskQueue b)) <= peakQueueSize m /\
  peakQueueSize m <= maxQueueSize b.
Proof.
  intros Hw. cbv zeta.
  destruct (reachable_tallied w Hw) as (_ & _ & T3 & T4 & T5 & T6 & T7 & T8 & _).
  pose proof (bounds_count _ _ _ _ _ _ _ _ (reachable_bounded w Hw)) as Hc.
  repeat split; try assumption. lia.
Qed.

Lemma bulkhead_gauges_witness :
  let w := Examples.bulkhead_full in
  let b := bulkhead (this w) in
  let m := metrics b in
  currentQueueSize m = Z.of_nat (length (taskQueue b)) /\
  m_currentConcurrency m = currentConcurrency b /\
  0 <= currentConcurrency b <= peakConcurrency m /\
  peakConcurrency m <= maxConcurrent b /\
  Z.of_nat (length (taskQueue b)) <= peakQueueSize m /\
  peakQueueSize m <= maxQueueSize b.
Proof.
  exact (bulkhead_gauges Examples.bulkhead_full bulkhead_full_reachable).
Defined.

(** A part [a] of a whole [b], as a percentage. *)
Lemma percentage (a b : Z) :
  1 <= b -> 0 <= a <= b ->
  Number_mul (Number_div (inject_Z a) (inject_Z b)) 100
    = Finite (inject_Z a / inject_Z b * 100) /\
  (0 <= inject_Z a / inject_Z b * 100 <= 100)%Q /\
  ((b <=? a) = true <-> (inject_Z a / inject_Z b * 100 == 100)%Q).
Proof.
  intros Hb [Ha0 Hab].
  assert (Hd : (0 < inject_Z b)%Q) by (rewrite <- (Zlt_Qlt 0); lia).
  split.
  { unfold Number_div. rewrite Qeq_bool_inject_Z.
    destruct (Z.eqb_spec b 0); [lia | reflexivity]. }
  assert (H0 : (0 <= inject_Z a / inject_Z b)%Q).
  { apply Qle_shift_div_l; [exact Hd|]. rewrite Qmult_0_l.
    rewrite <- (Zle_Qle 0). exact Ha0. }
  assert (H1 : (inject_Z a / inject_Z b <= 1)%Q).
  { apply Qle_shift_div_r; [exact Hd|]. rewrite Qmult_1_l.
    rewrite <- Zle_Qle. exact Hab. }
  split.
  { split.
    - apply Qmult_le_0_compat; [exact H0 | discriminate].
    - change (100 : Q) with (1 * 100)%Q at 2.
      apply Qmult_le_compat_r; [exact H1 | discriminate]. }
  split.
  - intros Hle%Z.leb_le. assert (a = b) as -> by lia.
    unfold Qdiv. rewrite Qmult_inv_r; [reflexivity|].
    intros E. rewrite E in Hd. discriminate.
  - intros E. apply Z.leb_le.
    destruct (Z_lt_le_dec a b) as [Hlt|Hge]; [|exact Hge]. exfalso.
    assert (H2 : (inject_Z a / inject_Z b < 1)%Q).
    { apply Qlt_shift_div_r; [exact Hd|]. rewrite Qmult_1_l.
      rewrite <- Zlt_Qlt. exact Hlt. }
    assert (H3 : (inject_Z a / inject_Z b * 100 < 1 * 100)%Q).
    { apply Qmult_lt_compat_r; [reflexivity | exact H2]. }
    rewrite E in H3. discriminate.
Qed.

(** X18.  [getUtilization] of a reachable bulkhead answers two finite
    percentages between 0 and 100; [isAtCapacity] holds exactly when the
    concurrency is at 100 per cent and [isQueueFull] exactly when the queue
    is. *)
Theorem bulkhead_utilization (w : BWorld) :
  reachable w ->
  let b := bulkhead (this w) in
  exists c q : Q,
    getUtilization b =
      mkUtilization (Finite c) (Finite q)
        (maxConcurrent b <=? currentConcurrency b)
        (maxQueueSize b <=? Z.of_nat (length (taskQueue b))) /\
    (0 <= c <= 100)%Q /\ (0 <= q <= 100)%Q /\
    (isAtCapacity (getUtilization b) = true <-> (c == 100)%Q) /\
    (isQueueFull (getUtilization b) = true <-> (q == 100)%Q).
Proof.
  intros Hw. cbv zeta.
  destruct (reachable_tallied w Hw) as (T1 & T2 & _ & _ & T5 & T6 & T7 & T8 & _).
  pose proof (bounds_count _ _ _ _ _ _ _ _ (reachable_bounded w Hw)) as Hc.
  set (b := bulkhead (this w)) in *.
  destruct (percentage (currentConcurrency b) (maxConcurrent b))
    as (C1 & C2 & C3); [lia | lia |].
  destruct (percentage (Z.of_nat (length (taskQueue b))) (maxQueueSize b))
    as (Q1 & Q2 & Q3); [lia | lia |].
  eexists _, _. split.
  - unfold getUtilization. rewrite C1, Q1. reflexivity.
  - split; [exact C2|]. split; [exact Q2|]. split; [exact C3 | exact Q3].
Qed.

Lemma bulkhead_utilization_witness :
  let b := bulkhead (this Examples.bulkhead_full) in
  exists c q : Q,
    getUtilization b =
      mkUtilization (Finite c) (Finite q)
        (maxConcurrent b <=? currentConcurrency b)
        (maxQueueSize b <=? Z.of_nat (length (taskQueue b))) /\
    (0 <= c <= 100)%Q /\ (0 <= q <= 100)%Q /\
    (isAtCapacity (getUtilization b) = true <-> (c == 100)%Q) /\
    (isQueueFull (getUtilization b) = true <-> (q == 100)%Q).
Proof.
  exact (bulkhead_utilization Examples.bulkhead_full bulkhead_full_reachable).
Defined.




(** X20.  The queue is first in, first out: a task submitted while every
    slot is taken and the queue has room goes to the end of the queue with
    a queue timer and is not invoked; when a running task settles, the task
    at the head of the queue is the one that starts. *)
Theorem bulkhead_fifo (w : BWorld) :
  reachable w ->
  let b := bulkhead (this w) in
  (forall (suffix : string) (f : nat),
      currentConcurrency b = maxConcurrent b ->
      Z.of_nat (length (taskQueue b)) < maxQueueSize b ->
      let l := fresh (dom (heap (this w))) in
      let w' := step w (Submit suffix f) in
      taskQueue (bulkhead (this w')) = taskQueue b ++ [l] /\
      inflight (this w') = inflight (this w) /\
      timers (this w')
        = <[nextTimer (this w) := mkTimer QueueTimer l (queueTimeout b)]>
            (timers (this w)) /\
      calls (rt w') = calls (rt w) /\
      delivered (this w') = delivered (this w)) /\
  (forall (l0 h0 : nat) (o : Outcome) (l : nat) (rest : list nat),
      inflight (this w) !! l0 = Some h0 ->
      taskQueue b = l :: rest ->
      let w' := step w (Settle l0 o) in
      taskQueue (bulkhead (this w')) = rest /\
      inflight (this w') = <[l := nextTimer (this w)]> (delete l0 (inflight (this w))) /\
      timers (this w') !! nextTimer (this w)
        = Some (mkTimer ExecutionTimer l (timeout b)) /\
      currentConcurrency (bulkhead (this w')) = currentConcurrency b /\
      calls (rt w') = S (calls (rt w)) /\
      exists t', heap (this w') !! l = Some t' /\ status t' = RUNNING /\
                 is_Some (startedAt t')).
Proof.
  intros Hw. cbv zeta.
  pose proof (reachable_bounded w Hw) as Hb.
  split.
  - intros suffix f Hfull Hroom. clear Hw Hb. revert Hfull Hroom.
    unfold step. by_wp (react (Submit suffix f)) w.
    bh_start w. repeat bh_step; intros Hfull Hroom; try lia.
    repeat split; reflexivity.
  - intros l0 h0 o l rest Hl0 Hq.
    assert (Hcc : currentConcurrency (bulkhead (this w))
                  <= maxConcurrent (bulkhead (this w)))
      by apply Hb.
    assert (Hne : l <> l0).
    { intros ->.
      destruct (bounds_queue_waits _ _ _ _ _ _ _ _ Hb l0) as [Hn _].
      - rewrite Hq. apply elem_of_cons. auto.
      - congruence. }
    assert (Hh : is_Some (heap (this w) !! l)).
    { apply (bounds_queue_waits _ _ _ _ _ _ _ _ Hb l).
      rewrite Hq. apply elem_of_cons. auto. }
    clear Hw Hb. revert Hl0 Hq Hcc Hh.
    unfold step. by_wp (react (Settle l0 o)) w.
    bh_start w. destruct o as [v|e]; repeat bh_step;
      intros Hl0 Hq Hcc [t Ht]; try congruence; try lia.
    all: inversion Hq; subst.
    all: repeat split; try reflexivity; try apply lookup_insert_eq.
    all: try lia.
    all: rewrite ?lookup_alter_ne by congruence.
    all: rewrite !lookup_alter_eq.
    all: rewrite lookup_alter_ne by congruence.
    all: rewrite Ht; cbn; eexists; repeat split; try reflexivity; eauto.
Qed.

Lemma bulkhead_fifo_witness :
  let w := Examples.bulkhead_full in
  let b := bulkhead (this w) in
  (forall (suffix : string) (f : nat),
      currentConcurrency b = maxConcurrent b ->
      Z.of_nat (length (taskQueue b)) < maxQueueSize b ->
      let l := fresh (dom (heap (this w))) in
      let w' := step w (Submit suffix f) in
      taskQueue (bulkhead (this w')) = taskQueue b ++ [l] /\
      inflight (this w') = inflight (this w) /\
      timers (this w')
        = <[nextTimer (this w) := mkTimer QueueTimer l (queueTimeout b)]>
            (timers (this w)) /\
      calls (rt w') = calls (rt w) /\
      delivered (this w') = delivered (this w)) /\
  (forall (l0 h0 : nat) (o : Outcome) (l : nat) (rest : list nat),
      inflight (this w) !! l0 = Some h0 ->
      taskQueue b = l :: rest ->
      let w' := step w (Settle l0 o) in
      taskQueue (bulkhead (this w')) = rest /\
      inflight (this w') = <[l := nextTimer (this w)]> (delete l0 (inflight (this w))) /\
      timers (this w') !! nextTimer (this w)
        = Some (mkTimer ExecutionTimer l (timeout b)) /\
      currentConcurrency (bulkhead (this w')) = currentConcurrency b /\
      calls (rt w') = S (calls (rt w)) /\
      exists t', heap (this w') !! l = Some t' /\ status t' = RUNNING /\
                 is_Some (startedAt t')).
Proof.
  exact (bulkhead_fifo Examples.bulkhead_full bulkhead_full_reachable).
Defined.

(** The loop of [clearQueue] over the tasks it rejects. *)
Lemma rejectAll_effect (q : list nat) :
  forall w : BWorld,
    let b := bulkhead (this w) in
    let w' := snd (rejectAll q w) in
    let b' := bulkhead (this w') in
    name b' = name b /\ taskQueue b' = taskQueue b /\
    currentConcurrency b' = currentConcurrency b /\
    runningTasks b' = runningTasks b /\
    inflight (this w') = inflight (this w) /\
    calls (rt w') = calls (rt w) /\
    delivered (this w') =
      rev (map (fun l => (l, Abrupt (QueueClearedError (name b)))) q)
        ++ delivered (this w) /\
    totalCompleted (metrics b') = totalCompleted (metrics b) /\
    totalSubmitted (metrics b') = totalSubmitted (metrics b) /\
    totalRejected (metrics b') = totalRejected (metrics b) /\
    totalFailed (metrics b') + totalTimeout (metrics b')
      = totalFailed (metrics b) + totalTimeout (metrics b) + Z.of_nat (length q).
Proof.
  induction q as [|l q IH]; intros w; cbv zeta.
  - cbn. repeat split; lia.
  - by_wp (rejectAll (l :: q)) w. cbn [rejectAll].
    bh_start w.
    repeat (lazymatch goal with
            | |- wp (rejectAll _) _ _ => fail
            | |- _ => bh_count
            end).
    all: lazymatch goal with
         | |- wp (rejectAll _) _ ?w1 =>
             destruct (IH w1)
               as (R1 & R2 & R3 & R4 & R5 & R6 & R7 & R8 & R9 & R10 & R11);
             unfold wp; bh_simpl_in_all;
             rewrite R1, R2, R3, R4, R5, R6, R7, R8, R9, R10
         end.
    all: cbn [map rev length]; rewrite <- app_assoc; cbn [app].
    all: unfold failure_counted, gauges_kept in *; metrics_simpl.
    all: repeat match goal with
           | H : _ /\ _ |- _ => destruct H
           | H : if ?c then _ else _ |- _ => destruct c
           end.
    all: repeat split; try reflexivity; try lia.
Qed.

(** X21.  [clearQueue] empties the queue and rejects every waiting
    task with the queue-cleared error, in the order of the queue; the
    running tasks are untouched, no operation is invoked, and one failure
    is counted for each rejected task. *)
Theorem bulkhead_clearQueue_rejects_waiting (w : BWorld) :
  let b := bulkhead (this w) in
  let w' := step w ClearQueue in
  let b' := bulkhead (this w') in
  taskQueue b' = [] /\
  currentConcurrency b' = currentConcurrency b /\
  runningTasks b' = runningTasks b /\
  inflight (this w') = inflight (this w) /\
  calls (rt w') = calls (rt w) /\
  delivered (this w') =
    rev (map (fun l => (l, Abrupt (QueueClearedError (name b)))) (taskQueue b))
      ++ delivered (this w) /\
  totalCompleted (metrics b') = totalCompleted (metrics b) /\
  totalFailed (metrics b') + totalTimeout (metrics b')
    = totalFailed (metrics b) + totalTimeout (metrics b)
      + Z.of_nat (length (taskQueue b)).
Proof.
  cbv zeta. unfold step. by_wp (react ClearQueue) w.
  bh_start w.
  repeat (lazymatch goal with
          | |- wp (rejectAll _) _ _ => fail
          | |- _ => bh_count
          end).
  lazymatch goal with
  | |- wp (rejectAll ?q) _ ?w1 =>
      destruct (rejectAll_effect q w1)
        as (R1 & R2 & R3 & R4 & R5 & R6 & R7 & R8 & R9 & R10 & R11);
      unfold wp; bh_simpl_in_all; metrics_simpl;
      rewrite R2, R3, R4, R5, R6, R7, R8
  end.
  repeat split; try reflexivity; lia.
Qed.

(** The two tasks that wait in the full bulkhead of the examples are
    rejected in the order of the queue. *)
Example bulkhead_clearQueue_full :
  delivered (this (step Examples.bulkhead_full ClearQueue)) =
    [(3%nat, Abrupt (QueueClearedError "bh")); (2%nat, Abrupt (QueueClearedError "bh"))] /\
  totalFailed (metrics (bulkhead (this (step Examples.bulkhead_full ClearQueue)))) = 2.
Proof. vm_compute. split; reflexivity. Qed.

Lemma settle_not_inflight (w : BWorld) (l : nat) (o : Outcome) :
  inflight (this w) !! l = None -> step w (Settle l o) = w.
Proof.
  intros Hl. unfold step, react, bind, self, ret. cbn [fst snd].
  rewrite Hl. reflexivity.
Qed.

(** X22.  When the execution timer of a running task fires, the
    caller gets the timeout error and the task leaves the tasks in flight;
    whatever its operation produces afterwards changes nothing. *)
Theorem bulkhead_late_result_dropped (w : BWorld) (h l : nat) (d : Z) (o : Outcome) :
  reachable w ->
  timers (this w) !! h = Some (mkTimer ExecutionTimer l d) ->
  let b := bulkhead (this w) in
  let w1 := step w (Fire h) in
  (exists t,
      heap (this w) !! l = Some t /\
      delivered (this w1) =
        (l, Abrupt (ExecutionTimeoutError (name b) (id t) (timeout b)))
          :: delivered (this w)) /\
  inflight (this w) !! l = Some h /\
  inflight (this w1) !! l = None /\
  step w1 (Settle l o) = w1.
Proof.
  intros Hw Hh. cbv zeta.
  pose proof (reachable_bounded w Hw) as Hb.
  assert (Hl : inflight (this w) !! l = Some h)
    by (apply (bounds_exec_timer _ _ _ _ _ _ _ _ Hb h _ Hh eq_refl)).
  assert (Hq : l ∉ taskQueue (bulkhead (this w))).
  { intros Hin. destruct (bounds_queue_waits _ _ _ _ _ _ _ _ Hb l Hin). congruence. }
  destruct (bounds_inflight_heap _ _ _ _ _ _ _ _ Hb l h Hl) as [t Ht].
  assert (H1 : (exists t,
      heap (this w) !! l = Some t /\
      delivered (this (step w (Fire h))) =
        (l, Abrupt (ExecutionTimeoutError (name (bulkhead (this w))) (id t)
                      (timeout (bulkhead (this w)))))
          :: delivered (this w)) /\
    inflight (this (step w (Fire h))) !! l = None).
  { clear Hw Hb. unfold step. by_wp (react (Fire h)) w.
    bh_start w. do 3 bh_step. rewrite Hh. bh_simpl.
    repeat bh_step; subst.
    all: (split; [exists t; split; [exact Ht | rewrite Ht; reflexivity]|]).
    all: first
           [ apply lookup_delete_eq
           | rewrite lookup_insert_ne;
             [ apply lookup_delete_eq
             | intros ->; apply Hq; apply elem_of_cons; auto ] ]. }
  destruct H1 as (H1 & H2).
  split; [exact H1|]. split; [exact Hl|]. split; [exact H2|].
  apply settle_not_inflight, H2.
Qed.

Lemma bulkhead_late_result_dropped_witness :
  let w := Examples.bulkhead_full in
  let b := bulkhead (this w) in
  let w1 := step w (Fire 0) in
  (exists t,
      heap (this w) !! 0%nat = Some t /\
      delivered (this w1) =
        (0%nat, Abrupt (ExecutionTimeoutError (name b) (id t) (timeout b)))
          :: delivered (this w)) /\
  inflight (this w) !! 0%nat = Some 0%nat /\
  inflight (this w1) !! 0%nat = None /\
  step w1 (Settle 0 (Resolved "late")) = w1.
Proof.
  cbv zeta.
  apply (bulkhead_late_result_dropped Examples.bulkhead_full 0 0 1000
           (Resolved "late")).
  - exact bulkhead_full_reachable.
  - vm_compute. reflexivity.
Defined.

(** *** Every caller is answered once *)

Section Answers.
Implicit Types (Qe D : list nat) (H : gmap nat Task) (IF : gmap nat nat).

Lemma answers_alter Qe IF D H (g : Task -> Task) (l : nat) :
  answers Qe IF D H -> answers Qe IF D (alter g l H).
Proof.
  intros [A1 A2 A3]. split; [exact A1 | |].
  - intros x Hx. rewrite lookup_alter_is_Some. auto.
  - intros x Hx. rewrite lookup_alter_is_Some in Hx. auto.
Qed.

Lemma answers_fresh Qe IF D H :
  answers Qe IF D H -> fresh (dom H) ∉ D.
Proof.
  intros [A1 A2 A3] Hin. destruct (A2 _ Hin) as [[t Ht] _].
  pose proof (fresh_heap H). congruence.
Qed.

Lemma answers_new_running Qe IF D H (l h : nat) (t : Task) :
  H !! l = None -> (l ∉ D) -> (l ∉ Qe) ->
  answers Qe IF D H -> answers Qe (<[l := h]> IF) D (<[l := t]> H).
Proof.
  intros Hl HD HQ [A1 A2 A3]. split; [exact A1 | |].
  - intros x Hx. destruct (A2 x Hx) as (B1 & B2 & B3).
    assert (x <> l) by (intros ->; contradiction).
    rewrite lookup_insert_is_Some', lookup_insert_ne by congruence. auto.
  - intros x Hx. destruct (decide (x = l)) as [->|Hne].
    + right. left. rewrite lookup_insert_eq. eauto.
    + rewrite lookup_insert_is_Some' in Hx. destruct Hx as [?|Hx]; [congruence|].
      destruct (A3 x Hx) as [?|[?|?]]; auto.
      right. left. rewrite lookup_insert_ne by congruence. assumption.
Qed.

Lemma answers_new_queued Qe IF D H (l : nat) (t : Task) :
  H !! l = None -> (l ∉ D) ->
  answers Qe IF D H -> answers (Qe ++ [l]) IF D (<[l := t]> H).
Proof.
  intros Hl HD [A1 A2 A3]. split; [exact A1 | |].
  - intros x Hx. destruct (A2 x Hx) as (B1 & B2 & B3).
    assert (x <> l) by (intros ->; contradiction).
    rewrite lookup_insert_is_Some'. split; [auto|]. split; [|exact B3].
    intros [?| ->%list_elem_of_singleton]%elem_of_app; contradiction.
  - intros x Hx. destruct (decide (x = l)) as [->|Hne].
    + left. apply elem_of_app. right. apply list_elem_of_singleton. reflexivity.
    + rewrite lookup_insert_is_Some' in Hx. destruct Hx as [?|Hx]; [congruence|].
      destruct (A3 x Hx) as [?|[?|?]]; auto.
      left. apply elem_of_app. auto.
Qed.

Lemma answers_new_rejected Qe IF D H (l : nat) (t : Task) :
  H !! l = None -> (l ∉ D) -> (l ∉ Qe) -> IF !! l = None ->
  answers Qe IF D H -> answers Qe IF (l :: D) (<[l := t]> H).
Proof.
  intros Hl HD HQ HI [A1 A2 A3]. split.
  - apply NoDup_cons. auto.
  - intros x [->|Hx]%elem_of_cons.
    + rewrite lookup_insert_eq. eauto.
    + destruct (A2 x Hx) as (B1 & B2 & B3).
      rewrite lookup_insert_is_Some'. auto.
  - intros x Hx. destruct (decide (x = l)) as [->|Hne].
    + right. right. apply elem_of_cons. auto.
    + rewrite lookup_insert_is_Some' in Hx. destruct Hx as [?|Hx]; [congruence|].
      destruct (A3 x Hx) as [?|[?|?]]; auto.
      right. right. apply elem_of_cons. auto.
Qed.

Lemma answers_finish Qe IF D H (l h : nat) :
  IF !! l = Some h -> (l ∉ Qe) -> is_Some (H !! l) ->
  answers Qe IF D H -> answers Qe (delete l IF) (l :: D) H.
Proof.
  intros Hl HQ HH [A1 A2 A3]. split.
  - apply NoDup_cons. split; [|exact A1].
    intros Hin. destruct (A2 l Hin) as (_ & _ & ?). congruence.
  - intros x [->|Hx]%elem_of_cons.
    + split; [exact HH|]. split; [exact HQ | apply lookup_delete_eq].
    + destruct (A2 x Hx) as (B1 & B2 & B3).
      split; [exact B1|]. split; [exact B2|].
      apply lookup_delete_None. auto.
  - intros x Hx. destruct (decide (x = l)) as [->|Hne].
    + right. right. apply elem_of_cons. auto.
    + destruct (A3 x Hx) as [?|[?|?]]; auto.
      * right. left. rewrite lookup_delete_ne by congruence. assumption.
      * right. right. apply elem_of_cons. auto.
Qed.

Lemma answers_start Qe IF D H (l h : nat) :
  (l ∉ Qe) ->
  answers (l :: Qe) IF D H -> answers Qe (<[l := h]> IF) D H.
Proof.
  intros HQ [A1 A2 A3]. split; [exact A1 | |].
  - intros x Hx. destruct (A2 x Hx) as (B1 & B2 & B3).
    apply not_elem_of_cons in B2 as [Hne B2].
    split; [exact B1|]. split; [exact B2|].
    rewrite lookup_insert_ne by congruence. exact B3.
  - intros x Hx. destruct (decide (x = l)) as [->|Hne].
    + right. left. rewrite lookup_insert_eq. eauto.
    + destruct (A3 x Hx) as [[?|?]%elem_of_cons|[?|?]]; auto; [congruence|].
      right. left. rewrite lookup_insert_ne by congruence. assumption.
Qed.

Lemma answers_leave Qe Qe' IF D H (l : nat) :
  (forall x, x ∈ Qe' <-> x ∈ Qe /\ x <> l) ->
  l ∈ Qe -> IF !! l = None -> is_Some (H !! l) ->
  answers Qe IF D H -> answers Qe' IF (l :: D) H.
Proof.
  intros HQ' Hl HI HH [A1 A2 A3]. split.
  - apply NoDup_cons. split; [|exact A1].
    intros Hin. destruct (A2 l Hin) as (_ & ? & _). contradiction.
  - intros x [->|Hx]%elem_of_cons.
    + split; [exact HH|]. split; [|exact HI].
      rewrite HQ'. intros [_ ?]. congruence.
    + destruct (A2 x Hx) as (B1 & B2 & B3).
      split; [exact B1|]. split; [|exact B3].
      rewrite HQ'. intros [? _]. contradiction.
  - intros x Hx. destruct (decide (x = l)) as [->|Hne].
    + right. right. apply elem_of_cons. auto.
    + destruct (A3 x Hx) as [?|[?|?]]; auto.
      * left. apply HQ'. auto.
      * right. right. apply elem_of_cons. auto.
Qed.

Lemma rev_reverse' {A} (l : list A) : rev l = reverse l.
Proof. apply rev_alt. Qed.

Lemma NoDup_rev' {A} (l : list A) : NoDup l -> NoDup (rev l).
Proof. rewrite rev_reverse', reverse_Permutation. auto. Qed.

Lemma elem_of_rev' {A} (x : A) (l : list A) : x ∈ rev l <-> x ∈ l.
Proof. rewrite rev_reverse'. apply elem_of_reverse. Qed.

Lemma answers_clear Qe IF D H :
  NoDup Qe ->
  (forall l, l ∈ Qe -> IF !! l = None /\ is_Some (H !! l)) ->
  answers Qe IF D H -> answers [] IF (rev Qe ++ D) H.
Proof.
  intros Hn HQ [A1 A2 A3]. split.
  - apply NoDup_app. split; [apply NoDup_rev'; exact Hn|]. split; [|exact A1].
    intros x Hx Hd. apply (proj1 (elem_of_rev' x Qe)) in Hx.
    destruct (A2 x Hd) as (_ & Hn' & _). apply Hn', Hx.
  - intros x [Hx|Hx]%elem_of_app.
    + apply (proj1 (elem_of_rev' x Qe)) in Hx.
      destruct (HQ x Hx) as [? ?]. split; [assumption|].
      split; [apply not_elem_of_nil | assumption].
    + destruct (A2 x Hx) as (B1 & B2 & B3).
      split; [exact B1|]. split; [apply not_elem_of_nil | exact B3].
  - intros x Hx. destruct (A3 x Hx) as [?|[?|?]]; auto.
    + right. right. apply elem_of_app. left. apply elem_of_rev'. assumption.
    + right. right. apply elem_of_app. auto.
Qed.
End Answers.

Ltac answers_goal := unfold answered; bh_simpl; cbn [map fst]; repeat apply answers_alter.

Lemma execute_answered (w : BWorld) (suffix : string) (f : nat) :
  bounded w -> answered w -> answered (step w (Submit suffix f)).
Proof.
  unfold step. intros Hb Ha. by_wp (react (Submit suffix f)) w.
  unfold answered in Ha. bh_start w.
  destruct (bounds_fresh _ _ _ _ _ _ _ _ Hb) as [Hq Hi].
  pose proof (fresh_heap heap0) as Hf.
  pose proof (answers_fresh _ _ _ _ Ha) as Hd.
  repeat bh_step; answers_goal.
  - apply answers_new_running; assumption.
  - apply answers_new_rejected; assumption.
  - apply answers_new_queued; assumption.
Qed.

(** [executeTask] from its [await] on: the caller of the task in flight is
    answered, and the head of the queue may start. *)
Lemma wp_resume_answered (l h : nat) (c : Completion Value)
    (Q : Completion unit -> BWorld -> Prop) (w : BWorld) :
  NoDup (taskQueue (bulkhead (this w))) ->
  (forall x, x ∈ taskQueue (bulkhead (this w)) -> inflight (this w) !! x = None) ->
  inflight (this w) !! l = Some h ->
  is_Some (heap (this w) !! l) ->
  answered w ->
  (forall w', answered w' -> Q (Normal tt) w') ->
  wp (executeTask_resume l c) Q w.
Proof.
  intros Hn Hq Hl Hh Ha. unfold answered in Ha. bh_start w. intros HQ.
  assert (Hlq : l ∉ taskQueue0).
  { intros Hin. rewrite (Hq l Hin) in Hl. discriminate. }
  pose proof (answers_finish _ _ _ _ l h Hl Hlq Hh Ha) as Hfin.
  unfold executeTask_resume.
  destruct c as [v|e]; repeat bh_step; subst; apply HQ; clear HQ; answers_goal;
    try exact Hfin.
  all: apply NoDup_cons in Hn as [Hn1 Hn2]; apply answers_start; assumption.
Qed.

Lemma settle_answered (w : BWorld) (l : nat) (o : Outcome) :
  bounded w -> answered w -> answered (step w (Settle l o)).
Proof.
  intros Hb Ha. unfold step, react. unfold bind at 1. unfold self. cbn [fst snd].
  destruct (inflight (this w) !! l) as [h|] eqn:Hl; [|exact Ha].
  match goal with
  | |- answered (snd (?m w)) => by_wp m w
  end.
  apply wp_bind. unfold clearTimeout. apply wp_modify.
  apply (wp_resume_answered l h); cbn [this heap inflight bulkhead set_timers];
    try assumption.
  - exact (bounds_nodup _ _ _ _ _ _ _ _ Hb).
  - intros x Hx. apply (bounds_queue_waits _ _ _ _ _ _ _ _ Hb x Hx).
  - exact (bounds_inflight_heap _ _ _ _ _ _ _ _ Hb l h Hl).
  - auto.
Qed.

Lemma rejectAll_heap (q : list nat) :
  forall (w : BWorld) (l : nat),
    is_Some (heap (this (snd (rejectAll q w))) !! l) <-> is_Some (heap (this w) !! l).
Proof.
  induction q as [|x q IH]; intros w l; [reflexivity|].
  by_wp (rejectAll (x :: q)) w. cbn [rejectAll]. bh_start w.
  repeat (lazymatch goal with
          | |- wp (rejectAll _) _ _ => fail
          | |- _ => bh_step
          end).
  all: unfold wp; etransitivity; [apply IH|]; bh_simpl;
    rewrite lookup_alter_is_Some; reflexivity.
Qed.

Lemma answers_heap Qe IF D (H H' : gmap nat Task) :
  (forall l, is_Some (H' !! l) <-> is_Some (H !! l)) ->
  answers Qe IF D H -> answers Qe IF D H'.
Proof.
  intros HH [A1 A2 A3]. split; [exact A1 | |].
  - intros x Hx. rewrite HH. auto.
  - intros x Hx. rewrite HH in Hx. auto.
Qed.

Lemma clearQueue_heap (w : BWorld) (l : nat) :
  is_Some (heap (this (step w ClearQueue)) !! l) <-> is_Some (heap (this w) !! l).
Proof.
  unfold step. by_wp (react ClearQueue) w.
  bh_start w.
  repeat (lazymatch goal with
          | |- wp (rejectAll _) _ _ => fail
          | |- _ => bh_step
          end).
  unfold wp. etransitivity; [apply rejectAll_heap|]. reflexivity.
Qed.

Lemma clearQueue_answers (w : BWorld) :
  taskQueue (bulkhead (this (step w ClearQueue))) = [] /\
  inflight (this (step w ClearQueue)) = inflight (this w) /\
  map fst (delivered (this (step w ClearQueue)))
    = rev (taskQueue (bulkhead (this w))) ++ map fst (delivered (this w)).
Proof.
  unfold step. by_wp (react ClearQueue) w.
  bh_start w.
  repeat (lazymatch goal with
          | |- wp (rejectAll _) _ _ => fail
          | |- _ => bh_step
          end).
  lazymatch goal with
  | |- wp (rejectAll ?q) _ ?w1 =>
      destruct (rejectAll_effect q w1) as (_ & R2 & _ & _ & R5 & _ & R7 & _);
      unfold wp; bh_simpl_in_all; rewrite R2, R5, R7
  end.
  rewrite map_app, map_rev, map_map. cbn [fst]. rewrite map_id.
  repeat split; reflexivity.
Qed.

Lemma clearQueue_answered (w : BWorld) :
  bounded w -> answered w -> answered (step w ClearQueue).
Proof.
  intros Hb Ha. unfold answered.
  destruct (clearQueue_answers w) as (R1 & R4 & R6).
  rewrite R1, R4, R6.
  eapply answers_heap; [apply clearQueue_heap|].
  apply answers_clear; [| | exact Ha].
  - exact (bounds_nodup _ _ _ _ _ _ _ _ Hb).
  - intros l Hl. apply (bounds_queue_waits _ _ _ _ _ _ _ _ Hb l Hl).
Qed.

Lemma fire_answered (w : BWorld) (h : nat) :
  bounded w -> clocks w -> ids_distinct w -> answered w ->
  answered (step w (Fire h)).
Proof.
  intros Hb Hc Hd Ha. unfold step, react. unfold bind at 1. unfold self.
  cbn [fst snd].
  destruct (timers (this w) !! h) as [tm|] eqn:Hh; [|exact Ha].
  destruct tm as [[] l d]; cbn [kind task].
  - (* the execution timer of task l *)
    pose proof (bounds_exec_timer _ _ _ _ _ _ _ _ Hb h _ Hh eq_refl) as Hl.
    cbn [task] in Hl.
    match goal with
    | |- answered (snd (?m w)) => by_wp m w
    end.
    apply wp_bind. unfold clearTimeout. apply wp_modify.
    unfold onExecutionTimeout.
    apply wp_bind. unfold this_bulkhead. apply wp_bind. apply wp_self.
    apply wp_ret. apply wp_bind. unfold read_task. apply wp_bind. apply wp_self.
    apply wp_ret. apply wp_bind. unfold upd_task. apply wp_modify.
    apply (wp_resume_answered l h);
      cbn [this heap inflight bulkhead set_timers set_heap taskQueue].
    + exact (bounds_nodup _ _ _ _ _ _ _ _ Hb).
    + intros x Hx. apply (bounds_queue_waits _ _ _ _ _ _ _ _ Hb x Hx).
    + exact Hl.
    + rewrite lookup_alter_is_Some.
      exact (bounds_inflight_heap _ _ _ _ _ _ _ _ Hb l h Hl).
    + unfold answered. cbn [this heap inflight bulkhead delivered].
      apply answers_alter. exact Ha.
    + auto.
  - (* the queue timer of task l *)
    match goal with
    | |- answered (snd (?m w)) => by_wp m w
    end.
    unfold ids_distinct in Hd. unfold answered in Ha. bh_start w.
    destruct (timed_queue_timer _ _ _ _ _ _ _ Hc h _ Hh eq_refl)
      as (Hin & t & Ht & Hid).
    cbn [task] in Hin, Ht.
    destruct (bounds_queue_waits _ _ _ _ _ _ _ _ Hb l Hin) as [Hi Hs].
    repeat bh_step; answers_goal.
    + apply (answers_leave taskQueue0 _ _ _ _ l); try assumption.
      rewrite Ht. cbn [default].
      apply remove_first_exact; try assumption.
      * exact (bounds_nodup _ _ _ _ _ _ _ _ Hb).
      * intros x Hx. apply (bounds_queue_waits _ _ _ _ _ _ _ _ Hb x Hx).
    + rewrite Ht in Heqb. change (default blank (Some t)) with t in Heqb.
      rewrite (existsb_id_found _ _ l t Ht Hin) in Heqb. discriminate.
Qed.

Lemma step_answered (w : BWorld) (i : Input) :
  bounded w -> clocks w -> ids_distinct w -> answered w -> answered (step w i).
Proof.
  intros Hb Hc Hd Ha.
  destruct i; [apply execute_answered | apply settle_answered
              | apply fire_answered | apply clearQueue_answered]; assumption.
Qed.

Lemma reachable_answered (w : BWorld) : reachable_distinct w -> answered w.
Proof.
  induction 1 as [n mc mq t qt r Hmc Hmq | w i Hw IH Hd].
  - unfold answered. cbn. split.
    + apply NoDup_nil_2.
    + intros l Hl. inversion Hl.
    + intros l [x Hx]. rewrite lookup_empty in Hx. discriminate.
  - apply step_answered; [| | | exact IH].
    + apply reachable_bounded, reachable_distinct_reachable. exact Hw.
    + apply reachable_clocks. exact Hw.
    + apply reachable_distinct_ids. exact Hw.
Qed.

(** X23.  No task is answered twice, and a submitted task has been
    answered exactly when it neither waits in the queue nor runs; no task
    is in the queue and in flight at once.  (For task ids that are
    pairwise distinct.) *)
Theorem bulkhead_answers_once (w : BWorld) :
  reachable_distinct w ->
  let answeredTasks := map fst (delivered (this w)) in
  NoDup answeredTasks /\
  forall l : nat,
    is_Some (heap (this w) !! l) ->
    (l ∈ answeredTasks <->
     (l ∉ taskQueue (bulkhead (this w))) /\ inflight (this w) !! l = None) /\
    ~ (l ∈ taskQueue (bulkhead (this w)) /\ is_Some (inflight (this w) !! l)).
Proof.
  intros Hw. cbv zeta.
  destruct (reachable_answered w Hw) as [A1 A2 A3].
  pose proof (reachable_bounded w (reachable_distinct_reachable w Hw)) as Hb.
  split; [exact A1|]. intros l Hl. split.
  - split.
    + intros Hin. destruct (A2 l Hin) as (_ & B2 & B3). auto.
    + intros [Hq Hi]. destruct (A3 l Hl) as [?|[[x Hx]|?]];
        [contradiction | congruence | assumption].
  - intros [Hq [x Hx]].
    destruct (bounds_queue_waits _ _ _ _ _ _ _ _ Hb l Hq) as [Hn _]. congruence.
Qed.

Lemma bulkhead_answers_once_witness :
  let w := Examples.bulkhead_full in
  let answeredTasks := map fst (delivered (this w)) in
  NoDup answeredTasks /\
  forall l : nat,
    is_Some (heap (this w) !! l) ->
    (l ∈ answeredTasks <->
     (l ∉ taskQueue (bulkhead (this w))) /\ inflight (this w) !! l = None) /\
    ~ (l ∈ taskQueue (bulkhead (this w)) /\ is_Some (inflight (this w) !! l)).
Proof.
  exact (bulkhead_answers_once Examples.bulkhead_full bulkhead_full_distinct).
Defined.

End BulkheadProofs.

(** ** The user service *)

Section UserServiceProofs.
Import JS UserService.

Lemma simulateProcessingTime_ok (w : World) :
  fst (simulateProcessingTime w) = Ok tt /\
  this (snd (simulateProcessingTime w)) = this w /\
  clock (rt (snd (simulateProcessingTime w))) = clock (rt w) /\
  reads (rt (snd (simulateProcessingTime w))) = reads (rt w) /\
  random (rt (snd (simulateProcessingTime w))) = random (rt w) /\
  draws (rt (snd (simulateProcessingTime w))) = S (S (draws (rt w))).
Proof.
  unfold simulateProcessingTime, bind, Math_random, sleep, self, ret.
  cbn [fst snd this rt draws random clock reads].
  destruct (Qlt_bool _ _); cbn; repeat split; reflexivity.
Qed.

(** Without a simulated failure an operation is its body, run after the
    simulated delay. *)
Lemma preamble_clean {A} (k : unit -> Prog A) (w : World) :
  runs_clean w ->
  bind simulateProcessingTime (fun _ => bind checkForSimulatedFailures k) w
    = k tt (after_preamble w) /\
  this (after_preamble w) = this w /\
  clock (rt (after_preamble w)) = clock (rt w) /\
  reads (rt (after_preamble w)) = reads (rt w).
Proof.
  intros [Hflag Hrate]. unfold after_preamble.
  destruct (simulateProcessingTime_ok w) as (S1 & S2 & S3 & S4 & S5 & S6).
  unfold bind at 1. destruct (simulateProcessingTime w) as [r w1].
  cbn [fst snd] in *. subst r.
  unfold checkForSimulatedFailures, bind, self, Math_random, raise, ret.
  cbn [fst snd this rt draws random clock reads].
  rewrite S2, Hflag, S5, S6.
  assert (E : Qlt_bool (random (rt w) (S (S (draws (rt w))))) (failureRate (this w))
              = false).
  { unfold Qlt_bool. apply negb_false_iff, Qle_bool_iff. exact Hrate. }
  rewrite E. cbn. rewrite S2, S3, S4. repeat split; reflexivity.
Qed.

(** With the flag up every operation fails before it looks at its
    arguments or at the store. *)
Lemma preamble_flag {A} (k : unit -> Prog A) (w : World) :
  simulateFailures (this w) = true ->
  fst (bind simulateProcessingTime (fun _ => bind checkForSimulatedFailures k) w)
    = Raise simulatedFailure /\
  this (snd (bind simulateProcessingTime
               (fun _ => bind checkForSimulatedFailures k) w)) = this w.
Proof.
  intros Hflag.
  destruct (simulateProcessingTime_ok w) as (S1 & S2 & _).
  unfold bind at 1 3. destruct (simulateProcessingTime w) as [r w1].
  cbn [fst snd] in *. subst r.
  unfold checkForSimulatedFailures, bind, self, raise.
  cbn [fst snd]. rewrite S2, Hflag. cbn. split; [reflexivity | exact S2].
Qed.

(** *** The map of users *)

Lemma Map_get_set_eq (k : string) (u : User) (m : Users) :
  Map_get k (Map_set k u m) = Some u.
Proof.
  induction m as [|[k' u'] m IH]; cbn.
  - rewrite String.eqb_refl. reflexivity.
  - destruct (String.eqb_spec k' k) as [->|Hne]; cbn.
    + rewrite String.eqb_refl. reflexivity.
    + destruct (String.eqb_spec k' k); [contradiction | exact IH].
Qed.

Lemma Map_get_set_ne (k k' : string) (u : User) (m : Users) :
  k <> k' -> Map_get k' (Map_set k u m) = Map_get k' m.
Proof.
  intros Hne. induction m as [|[k0 u0] m IH]; cbn.
  - destruct (String.eqb_spec k k'); [contradiction | reflexivity].
  - destruct (String.eqb_spec k0 k) as [->|Hk]; cbn.
    + destruct (String.eqb_spec k k'); [contradiction | reflexivity].
    + destruct (String.eqb_spec k0 k'); [reflexivity | exact IH].
Qed.

Lemma Map_set_keys (k : string) (u : User) (m : Users) :
  map fst (Map_set k u m) =
    if Map_has k m then map fst m else map fst m ++ [k].
Proof.
  unfold Map_has. induction m as [|[k' u'] m IH]; cbn; [reflexivity|].
  destruct (String.eqb_spec k' k) as [->|Hk]; cbn; [reflexivity|].
  rewrite IH. destruct (Map_get k m); reflexivity.
Qed.

Lemma Map_get_None_keys (k : string) (m : Users) :
  Map_get k m = None <-> k ∉ map fst m.
Proof.
  induction m as [|[k' u'] m IH]; cbn.
  - split; [intros _; apply not_elem_of_nil | reflexivity].
  - rewrite not_elem_of_cons.
    destruct (String.eqb_spec k' k) as [->|Hk].
    + split; [discriminate | intros [? _]; congruence].
    + rewrite IH. split; [intros ?; split; [congruence | assumption] | intros [_ ?]; assumption].
Qed.

Lemma Map_get_delete_ne (k k' : string) (m : Users) :
  k <> k' -> Map_get k' (Map_delete k m) = Map_get k' m.
Proof.
  intros Hne. induction m as [|[k0 u0] m IH]; cbn; [reflexivity|].
  destruct (String.eqb_spec k0 k) as [->|Hk]; cbn.
  - destruct (String.eqb_spec k k'); [contradiction | reflexivity].
  - destruct (String.eqb_spec k0 k'); [reflexivity | exact IH].
Qed.

Lemma Map_delete_keys (k : string) (m : Users) :
  keys_distinct m ->
  Map_get k (Map_delete k m) = None /\
  keys_distinct (Map_delete k m) /\
  (forall u, Map_get k m = Some u -> length m = S (length (Map_delete k m))).
Proof.
  unfold keys_distinct. induction m as [|[k0 u0] m IH]; cbn; intros Hn.
  - repeat split; [apply NoDup_nil_2 | discriminate].
  - apply NoDup_cons in Hn as [Hk0 Hn].
    destruct (IH Hn) as (I1 & I2 & I3).
    destruct (String.eqb_spec k0 k) as [->|Hk]; cbn.
    + split; [apply Map_get_None_keys; exact Hk0|]. split; [exact Hn|].
      intros u _. reflexivity.
    + destruct (String.eqb_spec k0 k); [contradiction|].
      split; [exact I1|]. split.
      * apply NoDup_cons. split; [|exact I2].
        intros Hin. apply Hk0.
        clear -Hin. induction m as [|[k1 u1] m IHm]; cbn in *; [inversion Hin|].
        destruct (String.eqb k1 k); cbn in *.
        -- apply elem_of_cons. auto.
        -- apply elem_of_cons in Hin as [->|Hin];
             apply elem_of_cons; auto.
      * intros u Hu. f_equal. apply (I3 u Hu).
Qed.

Lemma Map_set_distinct (k : string) (u : User) (m : Users) :
  keys_distinct m -> keys_distinct (Map_set k u m).
Proof.
  unfold keys_distinct. intros Hn. rewrite Map_set_keys.
  unfold Map_has. destruct (Map_get k m) eqn:E; [exact Hn|].
  apply NoDup_app. split; [exact Hn|]. split; [|apply NoDup_singleton].
  intros x Hx ->%list_elem_of_singleton.
  apply Map_get_None_keys in E. contradiction.
Qed.

Lemma truthy_Some (x : option string) :
  truthy x = true -> exists s, x = Some s /\ s <> "" /\ default "" x = s.
Proof.
  destruct x as [s|]; cbn; [|discriminate].
  destruct (String.eqb_spec s ""); cbn; [discriminate|].
  intros _. exists s. auto.
Qed.

Lemma getUser_clean (userId : string) (w : World) :
  runs_clean w ->
  getUser userId w =
    match Map_get userId (users (this w)) with
    | None => (Raise (notFound userId), after_preamble w)
    | Some user =>
        (Ok (user, clock (rt (after_preamble w)) (reads (rt (after_preamble w)))),
         snd (Date_now (after_preamble w)))
    end.
Proof.
  intros Hc. unfold getUser.
  destruct (preamble_clean
              (fun _ => bind self (fun s =>
                 match Map_get userId (users s) with
                 | None => raise (notFound userId)
                 | Some user => bind Date_now (fun t => ret (user, t))
                 end)) w Hc) as (E & T & _).
  rewrite E. unfold bind, self. cbn [fst snd]. rewrite T.
  destruct (Map_get userId (users (this w))); reflexivity.
Qed.

Lemma Date_now_after (w : World) :
  this (snd (Date_now w)) = this w /\
  clock (rt (snd (Date_now w))) = clock (rt w) /\
  reads (rt (snd (Date_now w))) = S (reads (rt w)).
Proof. repeat split; reflexivity. Qed.

Lemma createUser_clean (userData : UserData) (uuid : string) (w : World) :
  runs_clean w ->
  createUser userData uuid w =
    if negb (truthy (d_name userData)) || negb (truthy (d_email userData))
    then (Raise (mkHttpError "Name and email are required" (Some 400)),
          after_preamble w)
    else
      match find (fun user => String.eqb (email user) (default "" (d_email userData)))
                 (Map_values (users (this w))) with
      | Some _ =>
          (Raise (mkHttpError "User with this email already exists" (Some 409)),
           after_preamble w)
      | None =>
          let user :=
            mkUser uuid (default "" (d_name userData))
              (default "" (d_email userData))
              (or_else (d_status userData) "active")
              (Some (clock (rt w) (reads (rt w))))
              (Some (clock (rt w) (S (reads (rt w))))) in
          let w2 := snd (Date_now (snd (Date_now (after_preamble w)))) in
          (Ok (user, "User created successfully"),
           UserService.mkWorld (set_users (Map_set uuid user (users (this w))) (this w))
             (rt w2) (timeouts w2))
      end.
Proof.
  intros Hc. unfold createUser.
  match goal with
  | |- context [bind simulateProcessingTime (fun _ => bind checkForSimulatedFailures ?k)] =>
      destruct (preamble_clean k w Hc) as (E & T & C & R)
  end.
  rewrite E. clear E.
  destruct (negb (truthy (d_name userData)) || negb (truthy (d_email userData)));
    [reflexivity|].
  unfold bind, self. cbn [fst snd]. rewrite T.
  destruct (find _ (Map_values (users (this w)))); [reflexivity|].
  unfold Date_now, modify, ret. cbn [fst snd this rt clock reads timeouts id].
  rewrite T, C, R. reflexivity.
Qed.

(** X24.  When no failure is simulated, a user that [createUser] has
    accepted has the id [uuidv4()] answered, the name and the e-mail of the
    request (neither is empty), the status of the request or "active", and
    the two time stamps read one after the other; no stored user had that
    e-mail; the other users are unchanged, and a later [getUser] of the id
    answers the same user. *)
Theorem user_create_then_get (w : World) (userData : UserData) (uuid : string)
    (u : User) (msg : string) :
  runs_clean w ->
  fst (createUser userData uuid w) = Ok (u, msg) ->
  let w' := snd (createUser userData uuid w) in
  u = mkUser uuid (default "" (d_name userData)) (default "" (d_email userData))
        (or_else (d_status userData) "active")
        (Some (clock (rt w) (reads (rt w))))
        (Some (clock (rt w) (S (reads (rt w))))) /\
  name u <> "" /\ email u <> "" /\
  Map_get uuid (users (this w')) = Some u /\
  (forall k, k <> uuid ->
     Map_get k (users (this w')) = Map_get k (users (this w))) /\
  (forall v, v ∈ Map_values (users (this w)) -> email v <> email u) /\
  forall w'' : World,
    this w'' = this w' -> runs_clean w'' ->
    fst (getUser uuid w'') = Ok (u, clock (rt w'') (reads (rt w''))).
Proof.
  intros Hc. cbv zeta. rewrite (createUser_clean userData uuid w Hc).
  destruct (truthy (d_name userData)) eqn:Hn; cbn [negb orb];
    [|intros H; discriminate H].
  destruct (truthy (d_email userData)) eqn:He; cbn [negb orb];
    [|intros H; discriminate H].
  destruct (truthy_Some _ Hn) as (n & Hn1 & Hn2 & Hn3).
  destruct (truthy_Some _ He) as (e & He1 & He2 & He3).
  destruct (find _ (Map_values (users (this w)))) as [v|] eqn:Hf;
    [intros H; discriminate H|].
  cbv zeta. cbn [fst snd this users set_users].
  intros H. injection H as <- <-.
  cbn [name email id]. rewrite Hn3, He3.
  split; [reflexivity|]. split; [exact Hn2|]. split; [exact He2|].
  split; [apply Map_get_set_eq|].
  split; [intros k Hk; apply Map_get_set_ne; congruence|].
  split.
  - intros v Hv Heq.
    pose proof (find_none _ _ Hf v) as Hnone. cbn beta in Hnone.
    rewrite He3, Heq, String.eqb_refl in Hnone.
    specialize (Hnone ltac:(apply list_elem_of_In; exact Hv)). discriminate.
  - intros w'' Hw'' Hc''. rewrite (getUser_clean uuid w'' Hc''), Hw''.
    cbn [this users set_users]. rewrite Map_get_set_eq.
    destruct (preamble_clean (fun _ => ret tt) w'' Hc'') as (_ & _ & C'' & R'').
    cbn [fst]. rewrite C'', R''. reflexivity.
Qed.

Lemma updateUser_clean (userId : string) (updateData : UserData) (w : World) :
  runs_clean w ->
  updateUser userId updateData w =
    match Map_get userId (users (this w)) with
    | None => (Raise (notFound userId), after_preamble w)
    | Some old =>
        let user :=
          mkUser (id old)
            (or_else (d_name updateData) (name old))
            (or_else (d_email updateData) (email old))
            (or_else (d_status updateData) (status old))
            (createdAt old) (Some (clock (rt w) (reads (rt w)))) in
        let w1 := snd (Date_now (after_preamble w)) in
        (Ok (user, "User updated successfully"),
         UserService.mkWorld
           (set_users (Map_set userId user (users (this w))) (this w))
           (rt w1) (timeouts w1))
    end.
Proof.
  intros Hc. unfold updateUser.
  match goal with
  | |- context [bind simulateProcessingTime (fun _ => bind checkForSimulatedFailures ?k)] =>
      destruct (preamble_clean k w Hc) as (E & T & C & R)
  end.
  rewrite E. clear E. unfold bind, self. cbn [fst snd]. rewrite T.
  destruct (Map_get userId (users (this w))); [|reflexivity].
  unfold Date_now, modify, ret. cbn [fst snd this rt clock reads timeouts].
  rewrite T, C, R. reflexivity.
Qed.

Lemma deleteUser_clean (userId : string) (w : World) :
  runs_clean w ->
  deleteUser userId w =
    match Map_get userId (users (this w)) with
    | None => (Raise (notFound userId), after_preamble w)
    | Some user =>
        (Ok ("User deleted successfully", user),
         UserService.mkWorld
           (set_users (Map_delete userId (users (this w))) (this w))
           (rt (after_preamble w)) (timeouts (after_preamble w)))
    end.
Proof.
  intros Hc. unfold deleteUser.
  match goal with
  | |- context [bind simulateProcessingTime (fun _ => bind checkForSimulatedFailures ?k)] =>
      destruct (preamble_clean k w Hc) as (E & T & C & R)
  end.
  rewrite E. clear E. unfold bind, self. cbn [fst snd]. rewrite T.
  destruct (Map_get userId (users (this w))); [|reflexivity].
  unfold modify, ret. cbn [fst snd this rt timeouts]. rewrite T. reflexivity.
Qed.

Lemma listUsers_clean (toLowerCase : string -> string) (query : Query) (w : World) :
  runs_clean w ->
  listUsers toLowerCase query w =
    let found := applyFilters toLowerCase query (Map_values (users (this w))) in
    let page := int_or (q_page query) 1 in
    let limit := int_or (q_limit query) 10 in
    (Ok (Array_slice ((page - 1) * limit) ((page - 1) * limit + limit) found,
         mkPagination page limit (Z.of_nat (length found))
           (Qceiling (inject_Z (Z.of_nat (length found)) / inject_Z limit)),
         clock (rt w) (reads (rt w))),
     snd (Date_now (after_preamble w))).
Proof.
  intros Hc. unfold listUsers.
  match goal with
  | |- context [bind simulateProcessingTime (fun _ => bind checkForSimulatedFailures ?k)] =>
      destruct (preamble_clean k w Hc) as (E & T & C & R)
  end.
  rewrite E. clear E. unfold bind, self. cbn [fst snd]. rewrite T.
  unfold Date_now, ret. cbn [fst snd]. rewrite C, R. reflexivity.
Qed.

(** With a simulated failure every operation fails before it looks at its
    arguments or at the store. *)
Lemma preamble_fails {A} (k : unit -> Prog A) (w : World) :
  fails_simulated w ->
  fst (bind simulateProcessingTime (fun _ => bind checkForSimulatedFailures k) w)
    = Raise simulatedFailure /\
  this (snd (bind simulateProcessingTime
               (fun _ => bind checkForSimulatedFailures k) w)) = this w.
Proof.
  intros Hf.
  destruct (simulateProcessingTime_ok w) as (S1 & S2 & S3 & S4 & S5 & S6).
  unfold bind at 1 3. destruct (simulateProcessingTime w) as [r w1].
  cbn [fst snd] in *. subst r.
  unfold checkForSimulatedFailures, bind, self, raise, Math_random, ret.
  cbn [fst snd]. rewrite S2.
  destruct (simulateFailures (this w)) eqn:Hflag; cbn [fst snd];
    [split; [reflexivity | exact S2]|].
  destruct Hf as [Hf | Hf]; [congruence|].
  rewrite S5, S6.
  assert (E : Qlt_bool (random (rt w) (S (S (draws (rt w))))) (failureRate (this w))
              = true).
  { unfold Qlt_bool. apply negb_true_iff.
    destruct (Qle_bool _ _) eqn:Hle; [|reflexivity].
    apply Qle_bool_iff in Hle. exfalso. apply (Qlt_not_le _ _ Hf). exact Hle. }
  rewrite E. cbn. split; [reflexivity | exact S2].
Qed.

(** *** Pages of a list *)

Lemma Array_slice_page {A} (s n : Z) (l : list A) :
  0 <= s -> 0 <= n ->
  Array_slice s (s + n) l = take (Z.to_nat n) (drop (Z.to_nat s) l).
Proof.
  intros Hs Hn. unfold Array_slice, relative_index. cbv zeta.
  destruct (Z.ltb_spec s 0); [lia|].
  destruct (Z.ltb_spec (s + n) 0); [lia|].
  destruct (Z_le_gt_dec (Z.of_nat (length l)) s) as [Hle | Hgt].
  - rewrite !drop_ge by lia. rewrite !take_nil. reflexivity.
  - replace (Z.min s (Z.of_nat (length l))) with s by lia.
    destruct (Z_le_gt_dec (s + n) (Z.of_nat (length l))) as [Hle | Hgt'].
    + replace (Z.min (s + n) (Z.of_nat (length l)) - s) with n by lia.
      reflexivity.
    + replace (Z.min (s + n) (Z.of_nat (length l)) - s)
        with (Z.of_nat (length l) - s) by lia.
      rewrite !take_ge; [reflexivity | |]; rewrite length_drop; lia.
Qed.

Lemma ceiling_quotient (a b : Z) :
  0 <= a -> 1 <= b ->
  let pages := Qceiling (inject_Z a / inject_Z b) in
  (pages - 1) * b < a <= pages * b.
Proof.
  intros Ha Hb. cbv zeta.
  destruct b as [|p|p]; try lia.
  unfold Qceiling, Qfloor, Qdiv, Qmult, Qinv, Qopp, inject_Z.
  cbn [Qnum Qden]. rewrite Z.mul_1_r, Pos.mul_1_l.
  pose proof (Z.div_mod (- a) (Z.pos p) ltac:(lia)) as Hd.
  pose proof (Z.mod_pos_bound (- a) (Z.pos p) ltac:(lia)) as Hm.
  nia.
Qed.

Lemma runs_clean_service0 : runs_clean service0.
Proof. split; [reflexivity | vm_compute; discriminate]. Qed.

Lemma user_create_then_get_witness :
  let userData := mkUserData (Some "Eve") (Some "eve@example.com") None in
  let u := mkUser "u-6" "Eve" "eve@example.com" "active" (Some 0) (Some 100) in
  let w' := snd (createUser userData "u-6" service0) in
  u = mkUser "u-6" (default "" (d_name userData)) (default "" (d_email userData))
        (or_else (d_status userData) "active")
        (Some (clock (rt service0) (reads (rt service0))))
        (Some (clock (rt service0) (S (reads (rt service0))))) /\
  name u <> "" /\ email u <> "" /\
  Map_get "u-6" (users (this w')) = Some u /\
  (forall k, k <> "u-6" ->
     Map_get k (users (this w')) = Map_get k (users (this service0))) /\
  (forall v, v ∈ Map_values (users (this service0)) -> email v <> email u) /\
  forall w'' : World,
    this w'' = this w' -> runs_clean w'' ->
    fst (getUser "u-6" w'') = Ok (u, clock (rt w'') (reads (rt w''))).
Proof.
  exact (user_create_then_get service0
           (mkUserData (Some "Eve") (Some "eve@example.com") None) "u-6"
           (mkUser "u-6" "Eve" "eve@example.com" "active" (Some 0) (Some 100))
           "User created successfully"
           runs_clean_service0 eq_refl).
Defined.

(** X25.  When no failure is simulated, [createUser] rejects a request
    without a name or without an e-mail (a missing field or an empty
    string) with status 400, and a request whose e-mail a stored user has
    with status 409; the store is unchanged. *)
Theorem user_create_rejected (w : World) (userData : UserData) (uuid : string) :
  runs_clean w ->
  truthy (d_name userData) = false \/ truthy (d_email userData) = false \/
  (exists v, v ∈ Map_values (users (this w)) /\ d_email userData = Some (email v)) ->
  exists e : HttpError,
    fst (createUser userData uuid w) = Raise e /\
    responseStatus e =
      (if truthy (d_name userData) && truthy (d_email userData) then 409 else 400) /\
    this (snd (createUser userData uuid w)) = this w.
Proof.
  intros Hc Hbad. rewrite (createUser_clean userData uuid w Hc).
  destruct (preamble_clean (fun _ => ret tt) w Hc) as (_ & T & _).
  destruct (truthy (d_name userData)) eqn:Hn; cbn [negb orb andb];
    [|eexists; split; [reflexivity | split; [reflexivity | exact T]]].
  destruct (truthy (d_email userData)) eqn:He; cbn [negb orb andb];
    [|eexists; split; [reflexivity | split; [reflexivity | exact T]]].
  destruct Hbad as [Hbad | [Hbad | (v & Hv & Hbad)]]; try discriminate Hbad.
  destruct (find _ (Map_values (users (this w)))) as [v'|] eqn:Hf;
    [eexists; split; [reflexivity | split; [reflexivity | exact T]]|].
  exfalso. pose proof (find_none _ _ Hf v) as Hnone. cbn beta in Hnone.
  rewrite Hbad in Hnone. cbn [default] in Hnone.
  rewrite String.eqb_refl in Hnone.
  specialize (Hnone ltac:(apply list_elem_of_In; exact Hv)). discriminate.
Qed.

Lemma user_create_rejected_witness :
  let userData := mkUserData (Some "Johnny") (Some "john@example.com") None in
  exists e : HttpError,
    fst (createUser userData "u-6" service0) = Raise e /\
    responseStatus e =
      (if truthy (d_name userData) && truthy (d_email userData) then 409 else 400) /\
    this (snd (createUser userData "u-6" service0)) = this service0.
Proof.
  apply (user_create_rejected service0
           (mkUserData (Some "Johnny") (Some "john@example.com") None) "u-6"
           runs_clean_service0).
  right. right.
  exists (mkUser "1" "John Doe" "john@example.com" "active" None None).
  split; [|reflexivity].
  vm_compute. apply list_elem_of_here.
Defined.

(** X26.  When no failure is simulated, [getUser], [updateUser] and
    [deleteUser] of an id that is not in the store raise the not-found
    error, which the routes answer with status 404, and leave the store
    unchanged. *)
Theorem user_missing_id (w : World) (userId : string) (updateData : UserData) :
  runs_clean w ->
  Map_get userId (users (this w)) = None ->
  fst (getUser userId w) = Raise (notFound userId) /\
  fst (updateUser userId updateData w) = Raise (notFound userId) /\
  fst (deleteUser userId w) = Raise (notFound userId) /\
  responseStatus (notFound userId) = 404 /\
  this (snd (getUser userId w)) = this w /\
  this (snd (updateUser userId updateData w)) = this w /\
  this (snd (deleteUser userId w)) = this w.
Proof.
  intros Hc Hnone.
  rewrite (getUser_clean userId w Hc), (updateUser_clean userId updateData w Hc),
    (deleteUser_clean userId w Hc), Hnone.
  destruct (preamble_clean (fun _ => ret tt) w Hc) as (_ & T & _).
  repeat split; try reflexivity; exact T.
Qed.

Lemma user_missing_id_witness :
  let updateData := mkUserData (Some "Eve") None None in
  fst (getUser "6" service0) = Raise (notFound "6") /\
  fst (updateUser "6" updateData service0) = Raise (notFound "6") /\
  fst (deleteUser "6" service0) = Raise (notFound "6") /\
  responseStatus (notFound "6") = 404 /\
  this (snd (getUser "6" service0)) = this service0 /\
  this (snd (updateUser "6" updateData service0)) = this service0 /\
  this (snd (deleteUser "6" service0)) = this service0.
Proof.
  exact (user_missing_id service0 "6" (mkUserData (Some "Eve") None None)
           runs_clean_service0 eq_refl).
Defined.

(** X27.  When no failure is simulated, [deleteUser] of a stored id
    answers the user that was stored, removes that user only, and a later
    [getUser] or [deleteUser] of the id raises the not-found error. *)
Theorem user_delete_then_get (w : World) (userId : string) (u : User) :
  runs_clean w ->
  keys_distinct (users (this w)) ->
  Map_get userId (users (this w)) = Some u ->
  let w' := snd (deleteUser userId w) in
  fst (deleteUser userId w) = Ok ("User deleted successfully", u) /\
  Map_get userId (users (this w')) = None /\
  (forall k, k <> userId ->
     Map_get k (users (this w')) = Map_get k (users (this w))) /\
  length (users (this w)) = S (length (users (this w'))) /\
  keys_distinct (users (this w')) /\
  forall w'' : World,
    this w'' = this w' -> runs_clean w'' ->
    fst (getUser userId w'') = Raise (notFound userId) /\
    fst (deleteUser userId w'') = Raise (notFound userId).
Proof.
  intros Hc Hd Hu. cbv zeta. rewrite (deleteUser_clean userId w Hc), Hu.
  cbn [fst snd this users set_users].
  destruct (Map_delete_keys userId (users (this w)) Hd) as (D1 & D2 & D3).
  split; [reflexivity|]. split; [exact D1|].
  split; [intros k Hk; apply Map_get_delete_ne; congruence|].
  split; [exact (D3 u Hu)|]. split; [exact D2|].
  intros w'' Hw'' Hc''.
  rewrite (getUser_clean userId w'' Hc''), (deleteUser_clean userId w'' Hc''), Hw''.
  cbn [this users set_users]. rewrite D1. split; reflexivity.
Qed.

Lemma keys_distinct_service0 : keys_distinct (users (this service0)).
Proof.
  unfold keys_distinct. vm_compute.
  repeat (apply NoDup_cons; split;
          [rewrite ?not_elem_of_cons; repeat split;
           try discriminate; apply not_elem_of_nil|]).
  apply NoDup_nil_2.
Qed.

Lemma user_delete_then_get_witness :
  let u := mkUser "3" "Bob Johnson" "bob@example.com" "inactive" None None in
  let w' := snd (deleteUser "3" service0) in
  fst (deleteUser "3" service0) = Ok ("User deleted successfully", u) /\
  Map_get "3" (users (this w')) = None /\
  (forall k, k <> "3" ->
     Map_get k (users (this w')) = Map_get k (users (this service0))) /\
  length (users (this service0)) = S (length (users (this w'))) /\
  keys_distinct (users (this w')) /\
  forall w'' : World,
    this w'' = this w' -> runs_clean w'' ->
    fst (getUser "3" w'') = Raise (notFound "3") /\
    fst (deleteUser "3" w'') = Raise (notFound "3").
Proof.
  exact (user_delete_then_get service0 "3"
           (mkUser "3" "Bob Johnson" "bob@example.com" "inactive" None None)
           runs_clean_service0 keys_distinct_service0 eq_refl).
Defined.

Lemma or_else_truthy (x : option string) (d : string) :
  or_else x d = if truthy x then default "" x else d.
Proof.
  destruct x as [s|]; cbn; [|reflexivity].
  destruct (String.eqb s ""); reflexivity.
Qed.

(** X28.  When no failure is simulated, [updateUser] of a stored id
    keeps the id and [createdAt], stamps [updatedAt], replaces the name,
    the e-mail and the status by those fields of the request that are
    present and not empty (with no check that the e-mail is free), and
    leaves the other users and the order of the store unchanged. *)
Theorem user_update_keeps_identity (w : World) (userId : string)
    (updateData : UserData) (old : User) :
  runs_clean w ->
  Map_get userId (users (this w)) = Some old ->
  let w' := snd (updateUser userId updateData w) in
  exists u : User,
    fst (updateUser userId updateData w) = Ok (u, "User updated successfully") /\
    Map_get userId (users (this w')) = Some u /\
    id u = id old /\
    createdAt u = createdAt old /\
    updatedAt u = Some (clock (rt w) (reads (rt w))) /\
    name u = (if truthy (d_name updateData)
              then default "" (d_name updateData) else name old) /\
    email u = (if truthy (d_email updateData)
               then default "" (d_email updateData) else email old) /\
    status u = (if truthy (d_status updateData)
                then default "" (d_status updateData) else status old) /\
    map fst (users (this w')) = map fst (users (this w)) /\
    (forall k, k <> userId ->
       Map_get k (users (this w')) = Map_get k (users (this w))).
Proof.
  intros Hc Hold. cbv zeta. rewrite (updateUser_clean userId updateData w Hc), Hold.
  cbv zeta. cbn [fst snd this users set_users].
  eexists. split; [reflexivity|]. cbn [id name email status createdAt updatedAt].
  split; [apply Map_get_set_eq|].
  rewrite !or_else_truthy.
  repeat (split; [reflexivity|]).
  split.
  - rewrite Map_set_keys. unfold Map_has. rewrite Hold. reflexivity.
  - intros k Hk. apply Map_get_set_ne. congruence.
Qed.

Lemma user_update_keeps_identity_witness :
  let updateData := mkUserData (Some "") (Some "jane@example.com") None in
  let old := mkUser "1" "John Doe" "john@example.com" "active" None None in
  let w' := snd (updateUser "1" updateData service0) in
  exists u : User,
    fst (updateUser "1" updateData service0) = Ok (u, "User updated successfully") /\
    Map_get "1" (users (this w')) = Some u /\
    id u = id old /\
    createdAt u = createdAt old /\
    updatedAt u = Some (clock (rt service0) (reads (rt service0))) /\
    name u = (if truthy (d_name updateData)
              then default "" (d_name updateData) else name old) /\
    email u = (if truthy (d_email updateData)
               then default "" (d_email updateData) else email old) /\
    status u = (if truthy (d_status updateData)
                then default "" (d_status updateData) else status old) /\
    map fst (users (this w')) = map fst (users (this service0)) /\
    (forall k, k <> "1" ->
       Map_get k (users (this w')) = Map_get k (users (this service0))).
Proof.
  exact (user_update_keeps_identity service0 "1"
           (mkUserData (Some "") (Some "jane@example.com") None)
           (mkUser "1" "John Doe" "john@example.com" "active" None None)
           runs_clean_service0 eq_refl).
Defined.

(** X29.  When no failure is simulated, [listUsers] with a page and a
    limit of at least 1 (the defaults 1 and 10 included) answers the users
    number [(page - 1) * limit] to [page * limit - 1] of the filtered list:
    at most [limit] users, exactly [limit] on every page before the last,
    none beyond the last; [pages] is the least number of pages that hold
    [total] users. *)
Theorem user_list_page (w : World) (toLowerCase : string -> string) (query : Query) :
  runs_clean w ->
  1 <= int_or (q_page query) 1 ->
  1 <= int_or (q_limit query) 10 ->
  let found := applyFilters toLowerCase query (Map_values (users (this w))) in
  exists (us : list User) (pg : Pagination),
    fst (listUsers toLowerCase query w) = Ok (us, pg, clock (rt w) (reads (rt w))) /\
    this (snd (listUsers toLowerCase query w)) = this w /\
    page pg = int_or (q_page query) 1 /\
    limit pg = int_or (q_limit query) 10 /\
    total pg = Z.of_nat (length found) /\
    us = take (Z.to_nat (limit pg)) (drop (Z.to_nat ((page pg - 1) * limit pg)) found) /\
    Z.of_nat (length us) <= limit pg /\
    (pages pg - 1) * limit pg < total pg <= pages pg * limit pg /\
    (pages pg < page pg -> us = []) /\
    (page pg < pages pg -> Z.of_nat (length us) = limit pg) /\
    (page pg = pages pg ->
       Z.of_nat (length us) = total pg - (pages pg - 1) * limit pg).
Proof.
  intros Hc Hp Hl. cbv zeta. rewrite (listUsers_clean toLowerCase query w Hc).
  cbv zeta. cbn [fst snd].
  destruct (preamble_clean (fun _ => ret tt) w Hc) as (_ & T & _).
  set (found := applyFilters toLowerCase query (Map_values (users (this w)))).
  set (p := int_or (q_page query) 1) in *.
  set (n := int_or (q_limit query) 10) in *.
  eexists _, _. split; [reflexivity|].
  cbn [page limit total pages].
  split; [exact T|].
  do 3 (split; [reflexivity|]).
  rewrite (Array_slice_page ((p - 1) * n) n found) by nia.
  split; [reflexivity|].
  pose proof (ceiling_quotient (Z.of_nat (length found)) n ltac:(lia) Hl) as Hq.
  cbv zeta in Hq.
  set (k := Qceiling (inject_Z (Z.of_nat (length found)) / inject_Z n)) in *.
  rewrite length_take, length_drop.
  split; [lia|]. split; [exact Hq|].
  split.
  - intros Hlt. rewrite drop_ge; [apply take_nil | nia].
  - split; intros Hlt; nia.
Qed.

Lemma user_list_page_witness :
  let query := mkQuery (Some "active") None (Some 2) (Some 2) in
  let found := applyFilters lower_id query (Map_values (users (this service0))) in
  exists (us : list User) (pg : Pagination),
    fst (listUsers lower_id query service0)
      = Ok (us, pg, clock (rt service0) (reads (rt service0))) /\
    this (snd (listUsers lower_id query service0)) = this service0 /\
    page pg = int_or (q_page query) 1 /\
    limit pg = int_or (q_limit query) 10 /\
    total pg = Z.of_nat (length found) /\
    us = take (Z.to_nat (limit pg)) (drop (Z.to_nat ((page pg - 1) * limit pg)) found) /\
    Z.of_nat (length us) <= limit pg /\
    (pages pg - 1) * limit pg < total pg <= pages pg * limit pg /\
    (pages pg < page pg -> us = []) /\
    (page pg < pages pg -> Z.of_nat (length us) = limit pg) /\
    (page pg = pages pg ->
       Z.of_nat (length us) = total pg - (pages pg - 1) * limit pg).
Proof.
  apply (user_list_page service0 lower_id
           (mkQuery (Some "active") None (Some 2) (Some 2))
           runs_clean_service0).
  - vm_compute. discriminate.
  - vm_compute. discriminate.
Defined.

(** X30.  While a failure is simulated (the flag is up, or the random
    number drawn for the check is below [failureRate]), every operation of
    the service raises the simulated failure, which carries no status code
    (the routes answer 500), before it looks at its arguments, and leaves
    the store unchanged. *)
Theorem user_simulated_failure (w : World) (userId uuid : string)
    (userData : UserData) (toLowerCase : string -> string) (query : Query) :
  fails_simulated w ->
  fst (getUser userId w) = Raise simulatedFailure /\
  fst (createUser userData uuid w) = Raise simulatedFailure /\
  fst (updateUser userId userData w) = Raise simulatedFailure /\
  fst (deleteUser userId w) = Raise simulatedFailure /\
  fst (listUsers toLowerCase query w) = Raise simulatedFailure /\
  responseStatus simulatedFailure = 500 /\
  this (snd (getUser userId w)) = this w /\
  this (snd (createUser userData uuid w)) = this w /\
  this (snd (updateUser userId userData w)) = this w /\
  this (snd (deleteUser userId w)) = this w /\
  this (snd (listUsers toLowerCase query w)) = this w.
Proof.
  intros Hf. unfold getUser, createUser, updateUser, deleteUser, listUsers.
  repeat match goal with
  | |- context [bind simulateProcessingTime
                  (fun _ => bind checkForSimulatedFailures ?k) w] =>
      let E := fresh "E" in let T := fresh "T" in
      destruct (preamble_fails k w Hf) as [E T]; rewrite ?E, ?T; clear E T
  end.
  repeat split; reflexivity.
Qed.

Lemma user_simulated_failure_witness :
  let userData := mkUserData (Some "Eve") (Some "eve@example.com") None in
  let query := mkQuery None None None None in
  let w := service_failing in
  fst (getUser "1" w) = Raise simulatedFailure /\
  fst (createUser userData "u-6" w) = Raise simulatedFailure /\
  fst (updateUser "1" userData w) = Raise simulatedFailure /\
  fst (deleteUser "1" w) = Raise simulatedFailure /\
  fst (listUsers lower_id query w) = Raise simulatedFailure /\
  responseStatus simulatedFailure = 500 /\
  this (snd (getUser "1" w)) = this w /\
  this (snd (createUser userData "u-6" w)) = this w /\
  this (snd (updateUser "1" userData w)) = this w /\
  this (snd (deleteUser "1" w)) = this w /\
  this (snd (listUsers lower_id query w)) = this w.
Proof.
  apply (user_simulated_failure service_failing "1" "u-6"
           (mkUserData (Some "Eve") (Some "eve@example.com") None)
           lower_id (mkQuery None None None None)).
  left. reflexivity.
Defined.

End UserServiceProofs.
